(** * smallsh: a shallow embedding of [smallsh.c] and its checked properties

    The development follows the order of the C file: the C library
    primitives the shell relies on, the process state (globals, function
    statics and the part of the operating system the shell talks to), then
    [wordsplit], [param_scan], [build_str], [expand], the parsing loop of
    [main] and the dispatch of built-in and external commands. The notions
    the properties are stated with and the sample states come next, the
    properties last.

    Conventions.
    - A C string is a [string]: the bytes before the terminating NUL.
    - A [char const *] that walks a string it does not own ([param_scan],
      [expand]) is the suffix it points at; [NULL] is [None].
    - A buffer that is indexed ([line] in [wordsplit], the arrays [words]
      and [tokens]) is a list read with [!!]; a read outside the buffer is
      undefined behaviour and ends the run with [Undefined].
    - Shell code runs in a state monad whose outcomes tell a return from
      [exit], [execvp] and undefined behaviour. Loops count down a fuel
      that is never exhausted ([run_line_total]).
    - [int] values are in [Z]; none of the modelled computations leaves
      the range of [int] on the inputs considered, and where the input
      decides it (the argument of [exit]) the property bounds the value.
    - The start-up of [main], the signal dispositions and the
      descriptors that [dup2] sets are outside the model; the prompt
      block and the loop of [main] are modelled after the dispatch. *)

From Stdlib Require Import ZArith Ascii String Lia.
From stdpp Require Import base tactics option list gmap strings.

Local Open Scope string_scope.
Local Open Scope Z_scope.

(** ** C library primitives *)

Module Libc.

(** [isspace] in the C locale: space, and the control characters 9 to 13. *)
Definition isspace (c : ascii) : bool :=
  let n := nat_of_ascii c in
  ((n =? 32) || ((9 <=? n) && (n <=? 13)))%nat.

Definition isdigit (c : ascii) : bool :=
  let n := nat_of_ascii c in
  ((48 <=? n) && (n <=? 57))%nat.

(** The NUL byte. *)
Definition NUL : ascii := Ascii.zero.

(** [*s] for a pointer into a string: the first byte, NUL at the end. *)
Definition deref (s : string) : ascii :=
  match s with
  | EmptyString => NUL
  | String c _ => c
  end.

(** [*s == 0]: the pointer stands on the terminator. The bytes of a C
    string are not NUL, so this is the end of the [string]. *)
Definition at_nul (s : string) : bool :=
  match s with
  | EmptyString => true
  | String _ _ => false
  end.

(** [s + 1] for a pointer that does not stand on the terminator. *)
Definition next (s : string) : string :=
  match s with
  | EmptyString => EmptyString
  | String _ r => r
  end.

(** [strchr(s, c)]: the suffix starting at the first [c], or [NULL]. *)
Fixpoint strchr (s : string) (c : ascii) : option string :=
  match s with
  | EmptyString => None
  | String a r => if Ascii.eqb a c then Some s else strchr r c
  end.

(** The first [n] bytes of [s] (what [memcpy(dst, s, n)] copies). *)
Fixpoint str_take (n : nat) (s : string) : string :=
  match n, s with
  | S k, String a r => String a (str_take k r)
  | _, _ => EmptyString
  end.

(** Decimal digit [d] as a character. *)
Definition digit_char (d : Z) : ascii := ascii_of_nat (48 + Z.to_nat d).

(** The digits of a non-negative [v], most significant first, pushed in
    front of [acc]. *)
Fixpoint fmt_u (fuel : nat) (v : Z) (acc : string) : string :=
  match fuel with
  | O => acc
  | S f =>
      let acc' := String (digit_char (v mod 10)) acc in
      if v / 10 =? 0 then acc' else fmt_u f (v / 10) acc'
  end.

Definition digits_fuel (v : Z) : nat := S (Z.to_nat (Z.log2 v)).

(** How many digits [fmt_u] pushes. *)
Fixpoint ndigits (fuel : nat) (v : Z) : nat :=
  match fuel with
  | O => O
  | S f => if v / 10 =? 0 then 1%nat else S (ndigits f (v / 10))
  end.

(** What [printf("%d", v)] prints. *)
Definition fmt_d (v : Z) : string :=
  if v <? 0 then String "-" (fmt_u (digits_fuel (- v)) (- v) "")
  else fmt_u (digits_fuel v) v "".

(** [snprintf(buf, n, "%d", v)] followed by a read of [buf] as a string:
    at most [n - 1] bytes of the output are stored before the NUL. *)
Definition snprintf_d (n : Z) (v : Z) : string :=
  str_take (Z.to_nat (n - 1)) (fmt_d v).

(** The largest [int] (<limits.h>, 32 bits). *)
Definition INT_MAX : Z := 2147483647.

(** [atoi]: optional white space, an optional sign, then the longest run
    of digits. This is the value the digits denote; the C function
    returns it when it fits an [int], that is up to [INT_MAX], and what it
    returns beyond that is not this value (the standard leaves it
    undefined, glibc wraps it). *)
Fixpoint atoi_digits (s : string) (acc : Z) : Z :=
  match s with
  | EmptyString => acc
  | String c r =>
      if isdigit c
      then atoi_digits r (acc * 10 + (Z.of_nat (nat_of_ascii c) - 48))
      else acc
  end.

Fixpoint skip_spaces (s : string) : string :=
  match s with
  | EmptyString => EmptyString
  | String c r => if isspace c then skip_spaces r else s
  end.

Definition atoi (s : string) : Z :=
  match skip_spaces s with
  | String c r =>
      if Ascii.eqb c "-" then - atoi_digits r 0
      else if Ascii.eqb c "+" then atoi_digits r 0
      else atoi_digits (String c r) 0
  | EmptyString => 0
  end.

(** Wait-status macros of <sys/wait.h> (glibc, bits/waitstatus.h). *)
Definition WTERMSIG (status : Z) : Z := Z.land status 127.
Definition WEXITSTATUS (status : Z) : Z := Z.shiftr (Z.land status 65280) 8.
Definition WIFEXITED (status : Z) : bool := WTERMSIG status =? 0.
(** [((signed char) ((status & 0x7f) + 1) >> 1) > 0] *)
Definition WIFSIGNALED (status : Z) : bool :=
  let v := Z.land status 127 + 1 in
  let sc := if 128 <=? v then v - 256 else v in
  0 <? Z.shiftr sc 1.
Definition WIFSTOPPED (status : Z) : bool := Z.land status 255 =? 127.
(** The status the kernel hands to [waitpid]. *)
Definition W_EXITCODE (ret sig : Z) : Z := Z.lor (Z.shiftl ret 8) sig.
Definition W_STOPCODE (sig : Z) : Z := Z.lor (Z.shiftl sig 8) 127.
Definition WCOREFLAG : Z := 128.

(** errno values (Linux). *)
Definition ENOENT : Z := 2.
Definition E2BIG : Z := 7.
Definition EAGAIN : Z := 11.
Definition ENOTDIR : Z := 20.
Definition EINVAL : Z := 22.
Definition EACCES : Z := 13.

Definition EXIT_FAILURE : Z := 1.
Definition EXIT_SUCCESS : Z := 0.

End Libc.

Import Libc.


(** ** Process state *)

(** A regular file: its bytes and its permission bits. *)
Record file := File { f_data : string; f_mode : Z }.

(** The part of the kernel the shell cannot see into: which absent paths
    [fopen] may create, which paths [access(F_OK)] finds from a working
    directory, which directory [chdir] ends in, and whether [execvp] finds
    a program; and the [errno] it leaves when [fopen] refuses a path for
    writing, when [execvp] fails and when [fork] fails. Paths are taken as
    written; links and [..] are not modelled. *)
Record kernel := Kernel {
  k_creatable : string → bool;
  k_exists : string → string → bool;
  k_chdir : string → string → option string;
  k_exec_ok : string → bool;
  k_open_errno : string → Z;
  k_exec_errno : string → Z;
  k_fork_errno : Z
}.

(** What the shell writes to [stderr] and the signals it sends. *)
Inductive event :=
| ErrNo (e : Z)            (* "Error No. %d: %s\n" *)
| ChildStopped (pid : Z)   (* "Child process %jd stopped. Continuing.\n" *)
| SentCont (pid : Z).      (* kill(pid, SIGCONT) *)

Record os_state := OS {
  os_pid : Z;
  os_env : gmap string string;
  os_cwd : string;
  os_files : gmap string file;
  os_umask : Z;
  os_errno : Z;
  os_stdin : option string;
  os_stdout : option string;
  os_log : list event;
  os_kernel : kernel
}.

(** The globals [last_status], [last_bg_pid] and [words], the statics
    [prev] of [param_scan] and [base] of [build_str] ([base_len] is the
    length of [base]), and the operating system. *)
Record shell := Shell {
  last_status : Z;
  last_bg_pid : Z;
  words : list (option string);
  prev : option string;
  base : option string;
  os : os_state
}.

Definition set_last_status (v : Z) (s : shell) : shell :=
  Shell v (last_bg_pid s) (words s) (prev s) (base s) (os s).
Definition set_last_bg_pid (v : Z) (s : shell) : shell :=
  Shell (last_status s) v (words s) (prev s) (base s) (os s).
Definition set_words (v : list (option string)) (s : shell) : shell :=
  Shell (last_status s) (last_bg_pid s) v (prev s) (base s) (os s).
Definition set_prev (v : option string) (s : shell) : shell :=
  Shell (last_status s) (last_bg_pid s) (words s) v (base s) (os s).
Definition set_base (v : option string) (s : shell) : shell :=
  Shell (last_status s) (last_bg_pid s) (words s) (prev s) v (os s).
Definition set_os (v : os_state) (s : shell) : shell :=
  Shell (last_status s) (last_bg_pid s) (words s) (prev s) (base s) v.

Definition os_set_cwd (d : string) (o : os_state) : os_state :=
  OS (os_pid o) (os_env o) d (os_files o) (os_umask o) (os_errno o)
     (os_stdin o) (os_stdout o) (os_log o) (os_kernel o).
Definition os_set_files (f : gmap string file) (o : os_state) : os_state :=
  OS (os_pid o) (os_env o) (os_cwd o) f (os_umask o) (os_errno o)
     (os_stdin o) (os_stdout o) (os_log o) (os_kernel o).
Definition os_set_errno (e : Z) (o : os_state) : os_state :=
  OS (os_pid o) (os_env o) (os_cwd o) (os_files o) (os_umask o) e
     (os_stdin o) (os_stdout o) (os_log o) (os_kernel o).
Definition os_set_stdin (p : option string) (o : os_state) : os_state :=
  OS (os_pid o) (os_env o) (os_cwd o) (os_files o) (os_umask o) (os_errno o)
     p (os_stdout o) (os_log o) (os_kernel o).
Definition os_set_stdout (p : option string) (o : os_state) : os_state :=
  OS (os_pid o) (os_env o) (os_cwd o) (os_files o) (os_umask o) (os_errno o)
     (os_stdin o) p (os_log o) (os_kernel o).
Definition os_emit (ev : event) (o : os_state) : os_state :=
  OS (os_pid o) (os_env o) (os_cwd o) (os_files o) (os_umask o) (os_errno o)
     (os_stdin o) (os_stdout o) (os_log o ++ [ev]) (os_kernel o).
Definition os_set_env (e : gmap string string) (o : os_state) : os_state :=
  OS (os_pid o) e (os_cwd o) (os_files o) (os_umask o) (os_errno o)
     (os_stdin o) (os_stdout o) (os_log o) (os_kernel o).

(** ** The monad of shell code *)

(** Why a run left defined behaviour. *)
Inductive ub :=
| ReadPastLine      (* a read of [line] behind its terminating NUL *)
| WordsOutOfBounds  (* an index outside [words] *)
| TokensOutOfBounds (* an index outside [tokens] *)
| NullPointer       (* a NULL pointer handed to a string function *)
| ParamArgOverflow. (* [param_arg[64]] overrun or left unterminated *)

Inductive outcome (A : Type) :=
| Ret (a : A) (s : shell)        (* the code returned [a] *)
| Exited (code : Z) (s : shell)  (* the code called [exit(code)] *)
| Execed (argv : list string) (s : shell) (* [execvp] replaced the image *)
| Undefined (why : ub) (s : shell)
| OutOfFuel.
Arguments Ret {A} a s.
Arguments Exited {A} code s.
Arguments Execed {A} argv s.
Arguments Undefined {A} why s.
Arguments OutOfFuel {A}.

Definition M (A : Type) : Type := shell → outcome A.

Definition ret {A} (a : A) : M A := fun s => Ret a s.

Definition bind {A B} (m : M A) (k : A → M B) : M B :=
  fun s =>
    match m s with
    | Ret a s' => k a s'
    | Exited c s' => Exited c s'
    | Execed v s' => Execed v s'
    | Undefined w s' => Undefined w s'
    | OutOfFuel => OutOfFuel
    end.

Notation "x <- m ;; k" := (bind m (fun x => k))
  (at level 100, m at next level, right associativity).
Notation "m ;;; k" := (bind m (fun _ => k))
  (at level 100, right associativity).

Definition get : M shell := fun s => Ret s s.
Definition modify (f : shell → shell) : M unit := fun s => Ret tt (f s).
Definition exit {A} (code : Z) : M A := fun s => Exited code s.
Definition undefined {A} (why : ub) : M A := fun s => Undefined why s.
Definition out_of_fuel {A} : M A := fun _ => OutOfFuel.

Definition modify_os (f : os_state → os_state) : M unit :=
  modify (fun s => set_os (f (os s)) s).
Definition set_errno (e : Z) : M unit := modify_os (os_set_errno e).
(** [fprintf(stderr, "Error No. %d: %s\n", errno, strerror(errno))] *)
Definition report_errno : M unit :=
  modify_os (fun o => os_emit (ErrNo (os_errno o)) o).

(** An outcome without its final state. *)
Inductive result (A : Type) :=
| Val (a : A)
| Exit (code : Z)
| Exec (argv : list string)
| Undef (why : ub)
| Fuel.
Arguments Val {A} a.
Arguments Exit {A} code.
Arguments Exec {A} argv.
Arguments Undef {A} why.
Arguments Fuel {A}.

Definition result_of {A} (o : outcome A) : result A :=
  match o with
  | Ret a _ => Val a
  | Exited c _ => Exit c
  | Execed v _ => Exec v
  | Undefined w _ => Undef w
  | OutOfFuel => Fuel
  end.

Definition rmap {A B} (f : A → B) (r : result A) : result B :=
  match r with
  | Val a => Val (f a)
  | Exit c => Exit c
  | Exec v => Exec v
  | Undef w => Undef w
  | Fuel => Fuel
  end.

(** The state a run ended in, if it returned. *)
Definition final_state {A} (o : outcome A) : option shell :=
  match o with Ret _ s => Some s | _ => None end.

(** ** wordsplit *)

Definition MAX_WORDS_default : nat := 1024.

(** [MAX_WORDS] is the number of slots of the array [words]. *)
Definition MAX_WORDS (s : shell) : nat := length (words s).

(** The buffer [getline] filled: the bytes of the line and the NUL. *)
Definition line_buffer (line : string) : list ascii :=
  list_ascii_of_string line ++ [NUL].

(** No loop over the line takes more turns than the buffer has bytes. *)
Definition line_fuel (buf : list ascii) : nat := S (length buf).

(** [*c] for the cursor [c] of [wordsplit]. *)
Definition read_line (buf : list ascii) (c : nat) : M ascii :=
  match buf !! c with
  | Some a => ret a
  | None => undefined ReadPastLine
  end.

(** The loop [for (; *c && isspace c; ++c);] (with [c] dereferenced). *)
Fixpoint skip_space (fuel : nat) (buf : list ascii) (c : nat) : M nat :=
  match fuel with
  | O => out_of_fuel
  | S f =>
      a <- read_line buf c ;;
      if negb (Ascii.eqb a NUL) && isspace a
      then skip_space f buf (S c)
      else ret c
  end.

(** [words[wind][wlen++] = b; words[wind][wlen] = '\0';] after the
    [realloc]: the slot holds the [wlen] bytes written so far and [b]. *)
Definition store_char (wind : nat) (w : string) (b : ascii) : M string :=
  let w' := w +:+ String b EmptyString in
  modify (fun s => set_words (<[wind := Some w']> (words s)) s) ;;;
  ret w'.

(** The loop that reads one word: while [*c] is neither NUL nor white
    space, step over a backslash, store the byte under the cursor, advance.
    [w] is what the loop has written into the slot, [wlen] its length. *)
Fixpoint read_word (fuel : nat) (buf : list ascii) (c wind : nat)
    (w : string) : M nat :=
  match fuel with
  | O => out_of_fuel
  | S f =>
      a <- read_line buf c ;;
      if negb (Ascii.eqb a NUL) && negb (isspace a)
      then
        let c1 := if Ascii.eqb a "\" then S c else c in
        b <- read_line buf c1 ;;
        w' <- store_char wind w b ;;
        read_word f buf (S c1) wind w'
      else ret c
  end.

(** The outer loop [for (; *c;)] of [wordsplit]. *)
Fixpoint split_loop (fuel : nat) (buf : list ascii) (c wind : nat) : M nat :=
  match fuel with
  | O => out_of_fuel
  | S f =>
      a <- read_line buf c ;;
      if Ascii.eqb a NUL then ret wind
      else
        s <- get ;;
        if (wind =? MAX_WORDS s)%nat then ret wind
        else if Ascii.eqb a "#" then ret wind
        else
          c1 <- read_word (line_fuel buf) buf c wind EmptyString ;;
          c2 <- skip_space (line_fuel buf) buf c1 ;;
          split_loop f buf c2 (S wind)
  end.

Definition wordsplit (line : string) : M nat :=
  let buf := line_buffer line in
  c <- skip_space (line_fuel buf) buf 0%nat ;;
  split_loop (line_fuel buf) buf c 0%nat.

(** ** param_scan *)

(** The loop of [param_scan], started with [s] on [word]: the character
    found ([0] for none) with [*start] and [*end]. [None] is an exhausted
    counter. *)
Fixpoint scan_loop (fuel : nat) (s : string)
    : option (ascii * option string * option string) :=
  match fuel with
  | O => None
  | S f =>
      if at_nul s then Some (NUL, None, None)
      else
        match strchr s "$" with
        | None => Some (NUL, None, None)
        | Some s1 =>
            let k := deref (next s1) in
            if Ascii.eqb k "$" || Ascii.eqb k "!" || Ascii.eqb k "?"
            then Some (k, Some s1, Some (next (next s1)))
            else if Ascii.eqb k "{"
            then
              match strchr (next (next s1)) "}" with
              | Some e => Some (k, Some s1, Some (next e))
              | None => scan_loop f (next s1)
              end
            else scan_loop f (next s1)
        end
  end.

(** [param_scan(word, &start, &end)]; a NULL [word] resumes at [prev]. *)
Definition param_scan (word : option string)
    : M (ascii * option string * option string) :=
  s <- get ;;
  match (match word with Some w => Some w | None => prev s end) with
  | None => undefined NullPointer
  | Some w =>
      match scan_loop (S (String.length w)) w with
      | None => out_of_fuel
      | Some (r, start, end_) =>
          modify (set_prev end_) ;;;
          ret (r, start, end_)
      end
  end.

(** ** build_str *)

(** [build_str(start, end)]: with a NULL [start], hand out [base] and
    forget it; otherwise append the bytes from [start] up to [end] (all of
    [start] when [end] is NULL) and return [base]. *)
Definition build_str (start end_ : option string) : M (option string) :=
  s <- get ;;
  match start with
  | None =>
      modify (set_base None) ;;;
      ret (base s)
  | Some p =>
      let n := match end_ with
               | Some e => (String.length p - String.length e)%nat
               | None => String.length p
               end in
      let b := match base s with Some b => b | None => EmptyString end in
      let b' := Some (b +:+ str_take n p) in
      modify (set_base b') ;;;
      ret b'
  end.

(** ** expand *)

(** The loop [while (n > 0) { n /= 10; i++; }]. *)
Fixpoint n_digits_loop (fuel : nat) (n i : Z) : Z :=
  match fuel with
  | O => i
  | S f => if 0 <? n then n_digits_loop f (Z.quot n 10) (i + 1) else i
  end.

Definition n_digits_counter (n : Z) : Z :=
  n_digits_loop (S (digits_fuel n)) n 1.

(** [getenv], on the environment as a map from names to values. A name
    that holds [=] is looked up like any other; glibc would match it
    against the raw [NAME=value] entries. *)
Definition getenv (name : string) : M (option string) :=
  s <- get ;;
  ret (os_env (os s) !! name).

(** The branch of [expand] for the parameter [${NAME}]. *)
Definition expand_braces (start end_ : option string) : M unit :=
  match start, end_ with
  | Some p, Some e =>
      let param_digits :=
        Z.of_nat (String.length p) - Z.of_nat (String.length e) - 3 in
      (* char param_arg[64] = {0}; strncpy(param_arg, start + 2, param_digits) *)
      if 64 <=? param_digits then undefined ParamArgOverflow
      else
        let param_arg := str_take (Z.to_nat param_digits) (next (next p)) in
        param_str <- getenv param_arg ;;
        match param_str with
        | None => build_str (Some EmptyString) None ;;; ret tt
        | Some v => build_str (Some v) None ;;; ret tt
        end
  | _, _ => undefined NullPointer
  end.

(** One substitution: the body of the [while (c)] loop up to [pos = end]. *)
Definition substitute (c : ascii) (start end_ : option string) : M unit :=
  s <- get ;;
  if Ascii.eqb c "!" then
    let n := n_digits_counter (last_bg_pid s) in
    build_str (Some (snprintf_d n (last_bg_pid s))) None ;;; ret tt
  else if Ascii.eqb c "$" then
    let pid := os_pid (os s) in
    let n := n_digits_counter pid in
    build_str (Some (snprintf_d n pid)) None ;;; ret tt
  else if Ascii.eqb c "?" then
    let n := n_digits_counter (last_status s) in
    if last_status s =? 0 then build_str (Some "0") None ;;; ret tt
    else build_str (Some (snprintf_d n (last_status s))) None ;;; ret tt
  else if Ascii.eqb c "{" then expand_braces start end_
  else ret tt.

(** The loop [while (c)] of [expand]; it returns the last [start]. *)
Fixpoint expand_loop (fuel : nat) (c : ascii) (start end_ : option string)
    : M (option string) :=
  if Ascii.eqb c NUL then ret start
  else
    match fuel with
    | O => out_of_fuel
    | S f =>
        substitute c start end_ ;;;
        let pos := end_ in
        r <- param_scan pos ;;
        let '(c', start', end') := r in
        build_str pos start' ;;;
        expand_loop f c' start' end'
    end.

(** [expand(word)]. A NULL result (never produced) would be [None]. *)
Definition expand (word : string) : M (option string) :=
  let pos := Some word in
  r <- param_scan pos ;;
  let '(c, start, end_) := r in
  build_str None None ;;;
  build_str pos start ;;;
  start' <- expand_loop (S (String.length word)) c start end_ ;;
  build_str start' None.

(** ** Files *)

Definition owner_writable (f : file) : bool := Z.testbit (f_mode f) 7.
Definition owner_readable (f : file) : bool := Z.testbit (f_mode f) 8.
Arguments owner_writable : simpl never.
Arguments owner_readable : simpl never.

(** [access(path, W_OK)]: 0 or -1. *)
Definition access_W (path : string) : M Z :=
  s <- get ;;
  match os_files (os s) !! path with
  | Some f => if owner_writable f then ret 0 else set_errno EACCES ;;; ret (-1)
  | None => set_errno ENOENT ;;; ret (-1)
  end.

(** [fopen(path, mode)] for the modes "w" ([trunc = true]) and "a":
    whether a stream was returned. An absent file is created empty with
    the bits 0666 less the umask. When the path is refused, [errno] is
    what the kernel leaves. *)
Definition fopen_out (trunc : bool) (path : string) : M bool :=
  s <- get ;;
  let o := os s in
  match os_files o !! path with
  | Some f =>
      if owner_writable f
      then
        let f' := if trunc then File EmptyString (f_mode f) else f in
        modify_os (os_set_files (<[path := f']> (os_files o))) ;;; ret true
      else set_errno (k_open_errno (os_kernel o) path) ;;; ret false
  | None =>
      if k_creatable (os_kernel o) path
      then
        let f' := File EmptyString (Z.land 438 (Z.lnot (os_umask o))) in
        modify_os (os_set_files (<[path := f']> (os_files o))) ;;; ret true
      else set_errno (k_open_errno (os_kernel o) path) ;;; ret false
  end.

(** [fopen(path, "re")]. *)
Definition fopen_in (path : string) : M bool :=
  s <- get ;;
  match os_files (os s) !! path with
  | Some f => if owner_readable f then ret true else set_errno EACCES ;;; ret false
  | None => set_errno ENOENT ;;; ret false
  end.

(** [chmod(path, mode)]: 0 or -1. *)
Definition chmod (path : string) (mode : Z) : M Z :=
  s <- get ;;
  let o := os s in
  match os_files o !! path with
  | Some f =>
      modify_os (os_set_files (<[path := File (f_data f) mode]> (os_files o))) ;;;
      ret 0
  | None => set_errno ENOENT ;;; ret (-1)
  end.

(** [open_write] and [open_append] differ in the mode string only. *)
Definition open_out (trunc : bool) (target : option string) : M unit :=
  match target with
  | None => undefined NullPointer
  | Some path =>
      a <- access_W path ;;
      if a =? -1 then
        output <- fopen_out trunc path ;;
        if output then
          c <- chmod path 511 ;;
          if negb (c =? -1) then ret tt
          else report_errno ;;; exit EXIT_FAILURE
        else report_errno ;;; exit EXIT_FAILURE
      else
        output <- fopen_out trunc path ;;
        if output then ret tt
        else report_errno ;;; exit EXIT_FAILURE
  end.

Definition open_write : option string → M unit := open_out true.
Definition open_append : option string → M unit := open_out false.

Definition open_read (target : option string) : M unit :=
  match target with
  | None => undefined NullPointer
  | Some path =>
      input <- fopen_in path ;;
      if input then ret tt
      else report_errno ;;; exit EXIT_FAILURE
  end.

(** ** The parsing loop of main *)

(** The locals of the parsing block. *)
Record parse_state := Parse {
  p_i : Z;
  p_n_tokens : Z;
  p_op : Z;
  p_bg : bool;
  p_read : option string;
  p_write : option string;
  p_append : option string;
  p_tokens : list (option string)
}.

(** [words[i]] as an rvalue. *)
Definition word_slot (i : Z) : M (option string) :=
  s <- get ;;
  if (0 <=? i) && (i <? Z.of_nat (MAX_WORDS s))
  then
    match words s !! Z.to_nat i with
    | Some slot => ret slot
    | None => undefined WordsOutOfBounds
    end
  else undefined WordsOutOfBounds.

(** [words[i]] handed to [strcmp]. *)
Definition word_at (i : Z) : M string :=
  slot <- word_slot i ;;
  match slot with
  | Some w => ret w
  | None => undefined NullPointer
  end.

(** [tokens[idx] = v]. *)
Definition store_token (idx : Z) (v : option string) (p : parse_state)
    : M parse_state :=
  if (0 <=? idx) && (idx <? Z.of_nat (length (p_tokens p)))
  then ret (Parse (p_i p) (p_n_tokens p) (p_op p) (p_bg p) (p_read p)
              (p_write p) (p_append p) (<[Z.to_nat idx := v]> (p_tokens p)))
  else undefined TokensOutOfBounds.

(** The body of the loop for the word [w = words[i]], up to and
    including the [i++] of the [for]. *)
Definition parse_word (n_words : nat) (w : string) (p : parse_state)
    : M parse_state :=
  let i := p_i p in
  if (i =? Z.of_nat n_words - 1) && String.eqb w "&" then
    ret (Parse (i + 1) (p_n_tokens p) (p_op p + 1) true (p_read p)
           (p_write p) (p_append p) (p_tokens p))
  else if String.eqb w ">" then
    target <- word_slot (i + 1) ;;
    open_write target ;;;   (* and fclose *)
    ret (Parse (i + 1 + 1) (p_n_tokens p) (p_op p + 2) (p_bg p) (p_read p)
           target (p_append p) (p_tokens p))
  else if String.eqb w "<" then
    target <- word_slot (i + 1) ;;
    ret (Parse (i + 1 + 1) (p_n_tokens p) (p_op p + 2) (p_bg p) target
           (p_write p) (p_append p) (p_tokens p))
  else if String.eqb w ">>" then
    target <- word_slot (i + 1) ;;
    ret (Parse (i + 1 + 1) (p_n_tokens p) (p_op p + 2) (p_bg p) (p_read p)
           (p_write p) target (p_tokens p))
  else
    p' <- store_token (i - p_op p) (Some w) p ;;
    ret (Parse (i + 1) (p_n_tokens p + 1) (p_op p') (p_bg p') (p_read p')
           (p_write p') (p_append p') (p_tokens p')).

(** [for (i; i < n_words; i++) { ... }] *)
Fixpoint parse_loop (fuel : nat) (n_words : nat) (p : parse_state)
    : M parse_state :=
  if p_i p <? Z.of_nat n_words then
    match fuel with
    | O => out_of_fuel
    | S f =>
        w <- word_at (p_i p) ;;
        p' <- parse_word n_words w p ;;
        parse_loop f n_words p'
    end
  else ret p.

(** The parsing block: the loop, then the sentinel. [tokens] starts with
    no slot set. *)
Definition parse (n_words : nat) : M parse_state :=
  s <- get ;;
  let p0 := Parse 0 0 0 false None None None
              (replicate (MAX_WORDS s) None) in
  p <- parse_loop n_words n_words p0 ;;
  p' <- store_token (p_i p - p_op p) None p ;;
  ret (Parse (p_i p') (p_n_tokens p' + 1) (p_op p') (p_bg p') (p_read p')
         (p_write p') (p_append p') (p_tokens p')).

(** [tokens[k]] read after parsing. *)
Definition token (p : parse_state) (k : nat) : option string :=
  match p_tokens p !! k with
  | Some slot => slot
  | None => None
  end.

(** The argument vector [execvp] sees: the slots before the first NULL. *)
Fixpoint argv_of (tokens : list (option string)) : list string :=
  match tokens with
  | Some w :: r => w :: argv_of r
  | _ => []
  end.

(** ** Dispatch *)

(** What the kernel answers while one command runs: the result of [fork]
    and the status [waitpid] stores ([-13], the initial value of
    [child_exit], when [waitpid] fails). *)
Record answers := Answers { fork_pid : Z; child_exit : Z }.

(** The built-in [exit]; returning means [goto prompt]. *)
Definition builtin_exit (p : parse_state) : M unit :=
  if 3 <=? p_n_tokens p - 1 then
    set_errno E2BIG ;;; report_errno
  else if p_n_tokens p - 1 =? 2 then
    match token p 1 with
    | None => undefined NullPointer
    | Some arg =>
        if isdigit (deref arg) then exit (atoi arg)
        else set_errno EINVAL ;;; report_errno
    end
  else
    r <- expand "$?" ;;
    match r with
    | Some v => exit (atoi v)
    | None => undefined NullPointer
    end.

(** [chdir(path)]: 0 or -1. *)
Definition chdir (path : string) : M Z :=
  s <- get ;;
  let o := os s in
  match k_chdir (os_kernel o) (os_cwd o) path with
  | Some d => modify_os (os_set_cwd d) ;;; ret 0
  | None => set_errno ENOENT ;;; ret (-1)
  end.

(** [access(path, F_OK)]: 0 or -1. *)
Definition access_F (path : string) : M Z :=
  s <- get ;;
  let o := os s in
  if k_exists (os_kernel o) (os_cwd o) path then ret 0
  else set_errno ENOENT ;;; ret (-1).

(** The built-in [cd]. *)
Definition builtin_cd (p : parse_state) : M unit :=
  if 3 <=? p_n_tokens p - 1 then
    set_errno E2BIG ;;; report_errno
  else if p_n_tokens p - 1 =? 2 then
    match token p 1 with
    | None => undefined NullPointer
    | Some arg =>
        a <- access_F arg ;;
        if negb (a =? -1) then
          c <- chdir arg ;;
          if negb (c =? 0) then set_errno ENOENT ;;; report_errno
          else ret tt
        else set_errno ENOTDIR ;;; report_errno
    end
  else
    r <- expand "${HOME}" ;;
    match r with
    | None => undefined NullPointer
    | Some home =>
        c <- chdir home ;;
        if negb (c =? 0) then set_errno ENOENT ;;; report_errno
        else ret tt
    end.

(** The forked child: redirections, then [execvp]. The signal
    dispositions it restores are not part of the model. *)
Definition child (p : parse_state) (cmd : string) : M unit :=
  (match p_append p with
   | Some t => open_append (Some t) ;;; modify_os (os_set_stdout (Some t))
   | None => ret tt
   end) ;;;
  (match p_write p with
   | Some t => open_write (Some t) ;;; modify_os (os_set_stdout (Some t))
   | None => ret tt
   end) ;;;
  (match p_read p with
   | Some t => open_read (Some t) ;;; modify_os (os_set_stdin (Some t))
   | None => ret tt
   end) ;;;
  s <- get ;;
  if k_exec_ok (os_kernel (os s)) cmd
  then (fun s' => Execed (argv_of (p_tokens p)) s')
  else
    set_errno (k_exec_errno (os_kernel (os s)) cmd) ;;;
    report_errno ;;; exit EXIT_FAILURE.

(** The parent after [waitpid(fork_pid, &child_exit, WUNTRACED)]. *)
Definition wait_foreground (a : answers) : M unit :=
  if WIFSIGNALED (child_exit a) then
    modify (set_last_status (128 + WTERMSIG (child_exit a)))
  else if WIFSTOPPED (child_exit a) then
    modify_os (os_emit (ChildStopped (fork_pid a))) ;;;
    modify (set_last_bg_pid (fork_pid a)) ;;;
    modify (set_last_status (child_exit a)) ;;;
    modify_os (os_emit (SentCont (fork_pid a)))
  else
    modify (set_last_status (WEXITSTATUS (child_exit a))).

(** A command that is not a built-in. *)
Definition external (a : answers) (p : parse_state) (cmd : string) : M unit :=
  if fork_pid a =? -1 then
    s <- get ;;
    set_errno (k_fork_errno (os_kernel (os s))) ;;; report_errno
  else if fork_pid a =? 0 then child p cmd
  else if p_bg p then modify (set_last_bg_pid (fork_pid a))
  else wait_foreground a.

(** The execution block of [main]; returning means [goto prompt]. *)
Definition execute (a : answers) (p : parse_state) : M unit :=
  match token p 0 with
  | None => ret tt
  | Some cmd =>
      if String.eqb cmd "exit" then builtin_exit p
      else if String.eqb cmd "cd" then builtin_cd p
      else external a p cmd
  end.

(** [words[i] = expand(words[i])] for [i < n_words]. *)
Fixpoint expand_words (n : nat) (i : nat) : M unit :=
  match n with
  | O => ret tt
  | S k =>
      w <- word_at (Z.of_nat i) ;;
      exp_word <- expand w ;;
      modify (fun s => set_words (<[i := exp_word]> (words s)) s) ;;;
      expand_words k (S i)
  end.

(** One turn of the loop of [main] from the line [getline] returned:
    split, expand, parse, execute. *)
Definition front_end (line : string) : M parse_state :=
  n_words <- wordsplit line ;;
  expand_words n_words 0%nat ;;;
  parse n_words.

Definition run_line (a : answers) (line : string) : M unit :=
  p <- front_end line ;;
  execute a p.

(** ** Notions used to state the properties of expand *)

(** [token_at w]: when [w] begins with a parameter token, the character
    after the dollar sign and what follows the token. *)
Definition token_at (w : string) : option (ascii * string) :=
  match w with
  | String d (String k r) =>
      if Ascii.eqb d "$" then
        if Ascii.eqb k "$" || Ascii.eqb k "!" || Ascii.eqb k "?"
        then Some (k, r)
        else if Ascii.eqb k "{"
        then match strchr r "}" with
             | Some e => Some (k, next e)
             | None => None
             end
        else None
      else None
  | _ => None
  end.

(** The first parameter token of [w], found character by character. *)
Fixpoint scan_ref (w : string) : ascii * option string * option string :=
  match w with
  | EmptyString => (NUL, None, None)
  | String c r =>
      match token_at w with
      | Some (k, e) => (k, Some w, Some e)
      | None => scan_ref r
      end
  end.

(** [w] holds no parameter token. *)
Fixpoint token_free (w : string) : bool :=
  match w with
  | EmptyString => true
  | String c r =>
      match token_at w with
      | Some _ => false
      | None => token_free r
      end
  end.

(** What one substitution appends to [base]; [None] when [param_arg]
    cannot hold the name. *)
Definition subst_value (st : shell) (k : ascii) (s e : string)
    : option string :=
  if Ascii.eqb k "!" then
    Some (snprintf_d (n_digits_counter (last_bg_pid st)) (last_bg_pid st))
  else if Ascii.eqb k "$" then
    Some (snprintf_d (n_digits_counter (os_pid (os st))) (os_pid (os st)))
  else if Ascii.eqb k "?" then
    Some (if last_status st =? 0 then "0"
          else snprintf_d (n_digits_counter (last_status st)) (last_status st))
  else if Ascii.eqb k "{" then
    let d := Z.of_nat (String.length s) - Z.of_nat (String.length e) - 3 in
    if 64 <=? d then None
    else Some (default EmptyString
                 (os_env (os st) !! str_take (Z.to_nat d) (next (next s))))
  else Some EmptyString.

(** [expand] from the loop on: the loop and the final [build_str]. *)
Definition expand_rest (fuel : nat) (c : ascii) (start end_ : option string)
    : M (option string) :=
  start' <- expand_loop fuel c start end_ ;;
  build_str start' None.

(** [w] begins with a character that continues a dollar sign into a
    parameter. *)
Definition begins_param (w : string) : bool :=
  match w with
  | EmptyString => false
  | String k _ =>
      Ascii.eqb k "$" || Ascii.eqb k "!" || Ascii.eqb k "?" || Ascii.eqb k "{"
  end.

(** ** Notions used to state the properties of wordsplit *)

(** The cursor [c] of [wordsplit] stands in front of [s], the rest of
    the line. *)
Definition at_cursor (buf : list ascii) (c : nat) (s : string) : Prop :=
  drop c buf = (list_ascii_of_string s ++ [NUL])%list.

(** The longest prefix of [s] without white space, and what follows. *)
Fixpoint span_word (s : string) : string * string :=
  match s with
  | EmptyString => (EmptyString, EmptyString)
  | String a r =>
      if isspace a then (EmptyString, s)
      else let '(w, r') := span_word r in (String a w, r')
  end.

(** No byte of [s] is NUL or a backslash. *)
Fixpoint plain (s : string) : bool :=
  match s with
  | EmptyString => true
  | String a r => negb (Ascii.eqb a NUL) && negb (Ascii.eqb a "\") && plain r
  end.

Definition begins_hash (w : string) : bool := Ascii.eqb (deref w) "#".

(** The words in front of the first word that begins with [#]. *)
Fixpoint until_comment (ws : list string) : list string :=
  match ws with
  | [] => []
  | w :: r => if begins_hash w then [] else w :: until_comment r
  end.

(** The words [wordsplit] is to produce from a line: the runs of
    characters other than white space, in order, up to a comment, at most
    [max] of them. *)
Definition split_spec (max : nat) (line : string) : list string :=
  take max (until_comment (String.words line)).

(** The word collected so far, as [String.words_go] carries it. *)
Definition cur_of (w : string) : option string :=
  match w with
  | EmptyString => None
  | _ => Some (String.rev w)
  end.

(** [words[i] = ws[0]; words[i+1] = ws[1]; ...] *)
Fixpoint store_all (i : nat) (ws : list string) (arr : list (option string))
    : list (option string) :=
  match ws with
  | [] => arr
  | w :: r => store_all (S i) r (<[i := Some w]> arr)
  end.

(** [wordsplit] returns the number of specified words, stores them in
    the first slots of [words] and leaves the other slots alone. *)
Definition splits_as_specified (line : string) (st : shell) : Prop :=
  let out := split_spec (MAX_WORDS st) line in
  ∃ st', wordsplit line st = Ret (length out) st' ∧
         take (length out) (words st') = Some <$> out ∧
         drop (length out) (words st') = drop (length out) (words st).

(** ** Notions used to state the properties of the parsing loop *)

Definition is_redirect (w : string) : bool :=
  String.eqb w ">" || String.eqb w "<" || String.eqb w ">>".

(** Words that the loop consumes whole: plain words, and redirection
    operators each with the word after it. *)
Inductive items : list string → Prop :=
| items_nil : items []
| items_word (w : string) (ws : list string) :
    is_redirect w = false → items ws → items (w :: ws)
| items_redirect (o t : string) (ws : list string) :
    is_redirect o = true → items ws → items (o :: t :: ws).

(** The slots of [words] from [i] on hold [ws]. *)
Definition holds_from (st : shell) (i : nat) (ws : list string) : Prop :=
  ∀ (k : nat) (w : string),
    ws !! k = Some w → words st !! (i + k)%nat = Some (Some w).

(** The file [path] exists and is empty. *)
Definition file_empty (path : string) (st : shell) : Prop :=
  ∃ f, os_files (os st) !! path = Some f ∧ f_data f = EmptyString.

(** Every absent file may be created and every file at hand may be
    written: no [fopen] for writing fails. *)
Definition permissive (st : shell) : Prop :=
  (∀ path, k_creatable (os_kernel (os st)) path = true) ∧
  (∀ path f, os_files (os st) !! path = Some f → owner_writable f = true).

(** The state a run ended in, however it ended. *)
Definition state_of {A} (o : outcome A) : option shell :=
  match o with
  | Ret _ s | Exited _ s | Execed _ s | Undefined _ s => Some s
  | OutOfFuel => None
  end.

(** The tokens so far fill the first slots of [tokens]; [i - op] and
    [n_tokens] both count them. *)
Definition parse_inv (p : parse_state) : Prop :=
  ∃ toks : list string,
    p_tokens p =
      ((Some <$> toks) ++
       replicate (length (p_tokens p) - length toks) None)%list ∧
    (length toks <= length (p_tokens p))%nat ∧
    p_n_tokens p = Z.of_nat (length toks) ∧
    p_i p - p_op p = Z.of_nat (length toks).

(** [n_tokens] counts the argument vector and its sentinel (what the
    parsing block establishes). *)
Definition well_counted (p : parse_state) : Prop :=
  p_n_tokens p = Z.of_nat (length (argv_of (p_tokens p))) + 1.

(** ** How a child ends, as [waitpid] reports it *)

Inductive termination :=
| ExitedWith (code : Z)
| KilledBy (sig : Z) (core : bool).

(** Exit codes are bytes; the signals that end a process are numbered
    from 1, and 127 is kept for the stop encoding. *)
Definition valid_termination (t : termination) : Prop :=
  match t with
  | ExitedWith code => 0 <= code <= 255
  | KilledBy sig _ => 1 <= sig <= 126
  end.

Definition wait_status (t : termination) : Z :=
  match t with
  | ExitedWith code => W_EXITCODE code 0
  | KilledBy sig core => Z.lor sig (if core then WCOREFLAG else 0)
  end.

(** The status the shell is to record for it. *)
Definition mapped_status (t : termination) : Z :=
  match t with
  | ExitedWith code => code
  | KilledBy sig _ => 128 + sig
  end.

(** ** The prompt block of main *)

(** What the prompt block writes to [stderr] about a background child,
    and the signal it sends. *)
Inductive notice :=
| Done (pid code : Z)     (* "Child process %jd done. Exit status %d.\n" *)
| Signaled (pid sig : Z)  (* "Child process %jd done. Signaled %d.\n" *)
| Stopped (pid : Z)       (* "Child process %jd stopped. Continuing.\n" *)
| Continued (pid : Z).    (* kill(pid, SIGCONT) *)

(** The management of background processes at the prompt, after
    [waitpid(0, &bg_status, WNOHANG | WUNTRACED)] answered [bg_pid] and
    stored [bg_status]: three tests in a row, none of them an [else]. *)
Definition manage_bg (bg_pid bg_status : Z) : list notice :=
  if negb (bg_pid =? -1) && negb (bg_pid =? 0) then
    ((if WIFEXITED bg_status
      then [Done bg_pid (WEXITSTATUS bg_status)] else []) ++
     (if WIFSIGNALED bg_status
      then [Signaled bg_pid (WTERMSIG bg_status)] else []) ++
     (if WIFSTOPPED bg_status
      then [Stopped bg_pid; Continued bg_pid] else []))%list
  else [].

(** ** The loop of main *)

(** What [getline] gives at one turn of the loop. *)
Inductive input :=
| Line (l : string)  (* a line, with its newline if it has one *)
| Eof                (* -1 with [feof(input)] *)
| ReadError.         (* -1 with [ferror(input)] *)

(** One turn of the loop as the world outside the shell decides it: what
    [getline] reads, and what [fork] and [waitpid] answer for the
    command. *)
Record turn := Turn { t_input : input; t_answers : answers }.

(** The label [default_exit]: [exit(atoi(expand("$?")))]. *)
Definition default_exit : M unit :=
  r <- expand "$?" ;;
  match r with
  | Some v => exit (atoi v)
  | None => undefined NullPointer
  end.

(** From the label [prompt] to [getline]: [errno = 0], and in
    interactive mode the expansion of [${PS1}], written to [stderr]. The
    management of background children in front of it ([manage_bg]) writes
    to [stderr] and touches no variable of the shell. *)
Definition prompt (interactive : bool) : M unit :=
  set_errno 0 ;;;
  if interactive then expand "${PS1}" ;;; ret tt else ret tt.

(** The loop [for (;;)] of [main] over the turns given; it returns when
    they are used up. *)
Fixpoint main_loop (interactive : bool) (turns : list turn) : M unit :=
  match turns with
  | [] => ret tt
  | t :: rest =>
      prompt interactive ;;;
      match t_input t with
      | Eof => default_exit
      | ReadError => main_loop interactive rest
      | Line l => run_line (t_answers t) l ;;; main_loop interactive rest
      end
  end.

(** ** Notions used to state the properties of the expansion loop *)

(** The expansion of [w], when [expand] returns one. *)
Definition expansion (st : shell) (w : string) : option string :=
  match result_of (expand w st) with
  | Val v => v
  | _ => None
  end.

(** ** Notions used to state the properties of the redirections *)

(** [fopen] for writing is refused for [path]: the file is there and
    may not be written, or it is absent and may not be created. *)
Definition refused (path : string) (st : shell) : bool :=
  match os_files (os st) !! path with
  | Some f => negb (owner_writable f)
  | None => negb (k_creatable (os_kernel (os st)) path)
  end.

(** [fopen] for reading succeeds for [path]. *)
Definition readable (path : string) (st : shell) : bool :=
  match os_files (os st) !! path with
  | Some f => owner_readable f
  | None => false
  end.

(** The file a successful [open_write] ([trunc]) or [open_append]
    leaves at the target, given what was there. *)
Definition opened_file (trunc : bool) (old : option file) : file :=
  match old with
  | Some f => File (if trunc then EmptyString else f_data f) (f_mode f)
  | None => File EmptyString 511
  end.

(** Where the standard output of the child points after its
    redirections: [>] is set up after [>>] and wins. *)
Definition child_stdout (p : parse_state) (st : shell) : option string :=
  match p_write p, p_append p with
  | Some t, _ => Some t
  | None, Some t => Some t
  | None, None => os_stdout (os st)
  end.

Definition child_stdin (p : parse_state) (st : shell) : option string :=
  match p_read p with
  | Some t => Some t
  | None => os_stdin (os st)
  end.

(** ** Command lines as the parsing loop reads them *)

Inductive redirection := Input | Output | Appending.

Definition operator (r : redirection) : string :=
  match r with
  | Input => "<"
  | Output => ">"
  | Appending => ">>"
  end.

(** What the loop consumes in one turn: a word that goes to the command,
    or a redirection operator with the word after it. *)
Inductive item :=
| Arg (w : string)
| Redirect (r : redirection) (target : string).

Definition item_words (it : item) : list string :=
  match it with
  | Arg w => [w]
  | Redirect r t => [operator r; t]
  end.

(** The words of a command line: those of its items, and [&] last when
    the command is to run in the background. *)
Definition command_words (its : list item) (bg : bool) : list string :=
  (flat_map item_words its ++ (if bg then ["&"] else []))%list.

Definition args_of (its : list item) : list string :=
  omap (λ it, match it with Arg w => Some w | Redirect _ _ => None end) its.

Definition same_redirection (r r' : redirection) : bool :=
  match r, r' with
  | Input, Input | Output, Output | Appending, Appending => true
  | _, _ => false
  end.

(** The target of the last redirection [r] among the items, [acc] when
    there is none. *)
Fixpoint target_of (r : redirection) (its : list item) (acc : option string)
    : option string :=
  match its with
  | [] => acc
  | Arg _ :: rest => target_of r rest acc
  | Redirect r' t :: rest =>
      target_of r rest (if same_redirection r r' then Some t else acc)
  end.

Definition output_targets (its : list item) : list string :=
  omap (λ it, match it with Redirect Output t => Some t | _ => None end) its.

(** An argument is not spelled like a redirection operator. *)
Definition arg_ok (it : item) : bool :=
  match it with
  | Arg w => negb (is_redirect w)
  | Redirect _ _ => true
  end.

(** The last item is the argument [&]. *)
Fixpoint ends_in_amp (its : list item) : bool :=
  match its with
  | [] => false
  | it :: rest =>
      match rest with
      | [] => match it with Arg w => String.eqb w "&" | Redirect _ _ => false end
      | _ :: _ => ends_in_amp rest
      end
  end.

(** The items and the flag are what the words say: no argument is an
    operator, and an [&] that ends the line is the flag. *)
Definition proper (its : list item) (bg : bool) : bool :=
  forallb arg_ok its && (bg || negb (ends_in_amp its)).

(** The tokens stored so far are [toks], in the first slots of [tokens];
    [i - op] and [n_tokens] both count them. *)
Definition tokens_are (p : parse_state) (toks : list string) : Prop :=
  p_tokens p =
    ((Some <$> toks) ++
     replicate (length (p_tokens p) - length toks) None)%list ∧
  (length toks <= length (p_tokens p))%nat ∧
  p_n_tokens p = Z.of_nat (length toks) ∧
  p_i p - p_op p = Z.of_nat (length toks).

(** ** Notions used to state what wordsplit does with backslashes *)

(** No byte of [s] is NUL, as in any C string. *)
Fixpoint no_nul (s : string) : bool :=
  match s with
  | EmptyString => true
  | String a r => negb (Ascii.eqb a NUL) && no_nul r
  end.

(** The word at the head of [s] and what follows it: the word ends in
    front of white space that no backslash precedes; a backslash is
    dropped and the byte after it taken as it is. [None]: a backslash is
    the last byte of the line. *)
Fixpoint read_ref (s : string) : option (string * string) :=
  match s with
  | EmptyString => Some (EmptyString, EmptyString)
  | String a r =>
      if isspace a then Some (EmptyString, s)
      else if Ascii.eqb a "\" then
        match r with
        | EmptyString => None
        | String b r' =>
            match read_ref r' with
            | Some (w, rest) => Some (String b w, rest)
            | None => None
            end
        end
      else
        match read_ref r with
        | Some (w, rest) => Some (String a w, rest)
        | None => None
        end
  end.

(** The words of [s], a line without leading white space, when [room]
    slots are left: none at the end of the line, with no slot left, or in
    front of a word that begins with [#]. *)
Fixpoint split_ref (room : nat) (s : string) : option (list string) :=
  match room, s with
  | O, _ => Some []
  | _, EmptyString => Some []
  | S room', String a _ =>
      if Ascii.eqb a "#" then Some []
      else
        match read_ref s with
        | None => None
        | Some (w, rest) =>
            match split_ref room' (skip_spaces rest) with
            | Some ws => Some (w :: ws)
            | None => None
            end
        end
  end.

Definition wordsplit_ref (max : nat) (line : string) : option (list string) :=
  split_ref max (skip_spaces line).

(** ** Notions used to state the properties of whole lines *)

(** A word that the parsing loop takes for an argument wherever it
    stands: it is neither a redirection operator nor [&]. *)
Definition argument_word (v : string) : bool :=
  negb (is_redirect v) && negb (String.eqb v "&").

(** A line that holds no command: it is empty, blank, or a comment. *)
Definition no_command (line : string) : bool :=
  match skip_spaces line with
  | EmptyString => true
  | String a _ => Ascii.eqb a "#"
  end.

(** A turn the world can give: the status word of a stopped child is
    one [waitpid] stores, so it is not negative (the -13 that a failed
    [waitpid] leaves in [child_exit] is not of that kind), and the line is
    a C string. *)
Definition turn_ok (t : turn) : Prop :=
  (WIFSTOPPED (child_exit (t_answers t)) = true →
   0 <= child_exit (t_answers t)) ∧
  match t_input t with
  | Line l => no_nul l = true
  | _ => True
  end.

(** ** Notions used to state the properties of build_str *)

(** A call of [build_str] that appends the bytes of [piece]: they are
    handed over as a whole string ([rest = None], the call
    [build_str(piece, NULL)]) or as the range in front of [rest] inside
    the string [piece rest]. *)
Definition append_call (piece : string) (rest : option string)
    : M (option string) :=
  match rest with
  | None => build_str (Some piece) None
  | Some r => build_str (Some (piece +:+ r)) (Some r)
  end.

Fixpoint append_calls (calls : list (string * option string)) : M unit :=
  match calls with
  | [] => ret tt
  | (piece, rest) :: more => append_call piece rest ;;; append_calls more
  end.

Fixpoint pieces (calls : list (string * option string)) : string :=
  match calls with
  | [] => EmptyString
  | (piece, _) :: more => piece +:+ pieces more
  end.

(** ** Sample states *)

Definition sample_kernel : kernel :=
  Kernel (fun path => negb (String.prefix "/proc" path))
         (fun _ path => String.eqb path "/home/u" || String.eqb path "/tmp")
         (fun _ path => if String.eqb path "/home/u" || String.eqb path "/tmp"
                        then Some path else None)
         (fun cmd => String.eqb cmd "cat" || String.eqb cmd "echo")
         (fun path => if String.prefix "/proc" path then ENOENT else EACCES)
         (fun _ => ENOENT)
         EAGAIN.

Definition sample_os : os_state :=
  OS 4242 (<["HOME" := "/home/u"]> ∅) "/tmp"
     (<["notes.txt" := File "remember the milk" 420]> ∅)
     18 0 None None [] sample_kernel.

Definition sample_shell : shell :=
  Shell 0 0 (replicate MAX_WORDS_default None) None None sample_os.

Definition sample_answers : answers := Answers 4300 0.

(** The locals after parsing the words of [cat notes.txt]. *)
Definition sample_parse : parse_state :=
  Parse 2 3 0 false None None None
        (Some "cat" :: Some "notes.txt" :: replicate 1022 None).

(** The locals after parsing the words of [exit 1abc] and of [cd]. *)
Definition exit_1abc_parse : parse_state :=
  Parse 2 3 0 false None None None
        (Some "exit" :: Some "1abc" :: replicate 1022 None).

Definition cd_parse : parse_state :=
  Parse 1 2 0 false None None None (Some "cd" :: replicate 1023 None).

(** [words] after the line [cat notes.txt] and then the line [>]: the
    second line has one word, and slot 1 still holds a word of the first. *)
Definition stale_shell : shell :=
  set_words (Some ">" :: Some "notes.txt" :: replicate 1022 None)
            sample_shell.

(** [words] holding the three words of [cd > out.txt]. *)
Definition cd_redirect_shell : shell :=
  set_words (Some "cd" :: Some ">" :: Some "out.txt" :: replicate 1021 None)
            sample_shell.

(** The locals after parsing the words of [cat notes.txt &]. *)
Definition bg_parse : parse_state :=
  Parse 3 3 1 true None None None
        (Some "cat" :: Some "notes.txt" :: replicate 1022 None).

(** The locals after parsing [cat < notes.txt >> log.txt > out.txt]. *)
Definition redirected_parse : parse_state :=
  Parse 7 2 6 false (Some "notes.txt") (Some "out.txt") (Some "log.txt")
        (Some "cat" :: replicate 1023 None).

(** The locals after parsing [cat < missing.txt > out.txt]. *)
Definition missing_input_parse : parse_state :=
  Parse 5 2 4 false (Some "missing.txt") (Some "out.txt") None
        (Some "cat" :: replicate 1023 None).

(** [words] holding the words of [cat < notes.txt > out.txt &]. *)
Definition bg_redirect_shell : shell :=
  set_words (Some "cat" :: Some "<" :: Some "notes.txt" :: Some ">" ::
             Some "out.txt" :: Some "&" :: replicate 1018 None)
            sample_shell.

(** [words] holding the words of [cat > /proc/x notes.txt]; the sample
    kernel creates no file under [/proc]. *)
Definition refused_shell : shell :=
  set_words (Some "cat" :: Some ">" :: Some "/proc/x" :: Some "notes.txt" ::
             replicate 1020 None)
            sample_shell.

(** A shell built with [MAX_WORDS] 2, after the line [ls -l]. *)
Definition tiny_shell : shell :=
  Shell 0 0 [Some "ls"; Some "-l"] None None sample_os.

(** Three turns of a script: a comment, [cat notes.txt] run by a child
    that ends with status 3, and the end of the file. *)
Definition sample_script : list turn :=
  [Turn (Line "# list the notes
") sample_answers;
   Turn (Line "cat notes.txt
") (Answers 4300 (W_EXITCODE 3 0));
   Turn Eof sample_answers].

(** ** Proof steps that recur *)

(** A run known to have returned through [ret]. *)
Ltac inv_ret H := unfold ret in H; inversion H; subst.

(** * Properties *)

Example fmt_d_12345 : fmt_d 12345 = "12345".
Proof. reflexivity. Qed.
Example fmt_d_0 : fmt_d 0 = "0".
Proof. reflexivity. Qed.
Example fmt_d_neg : fmt_d (-13) = "-13".
Proof. reflexivity. Qed.
Example atoi_ex : atoi "  42abc" = 42.
Proof. reflexivity. Qed.

(** ** Decimal output *)

Lemma str_take_all (s : string) : str_take (String.length s) s = s.
Proof. induction s as [|a s IH]; simpl; [reflexivity | now rewrite IH]. Qed.

Lemma str_take_app (s t : string) : str_take (String.length s) (s +:+ t) = s.
Proof. induction s as [|a s IH]; simpl; [now destruct t | now rewrite IH]. Qed.

Lemma log2_div10_lt (v : Z) (f : nat) :
  0 < v → Z.log2 v < Z.of_nat (S f) → v / 10 ≠ 0 → 0 < v / 10 ∧ Z.log2 (v / 10) < Z.of_nat f.
Proof.
  intros Hv Hlog Hq.
  assert (H10 : 0 <= v / 10) by (apply Z.div_pos; lia).
  split; [lia|].
  assert (Hle : v / 10 <= v / 2).
  { apply Z.div_le_lower_bound; [lia|].
    assert (10 * (v / 10) <= v) by (apply Z.mul_div_le; lia).
    lia. }
  assert (Hl : Z.log2 (v / 10) <= Z.log2 (v / 2)) by (apply Z.log2_le_mono; exact Hle).
  assert (Hd : Z.log2 (v / 2) = Z.log2 v - 1).
  { rewrite <- Z.div2_div. rewrite Z.div2_spec. rewrite Z.log2_shiftr by lia.
    assert (0 < Z.log2 v).
    { apply Z.log2_pos. destruct (Z.eq_dec v 1) as [->|]; [now compute in Hq|lia]. }
    lia. }
  lia.
Qed.

Lemma fmt_u_length (f : nat) : ∀ v acc,
  String.length (fmt_u f v acc) = (ndigits f v + String.length acc)%nat.
Proof.
  induction f as [|f IH]; intros v acc; simpl; [reflexivity|].
  destruct (v / 10 =? 0); simpl; [reflexivity|].
  rewrite IH. simpl. lia.
Qed.

Lemma digit_char_value (d : Z) :
  0 <= d < 10 →
  isdigit (digit_char d) = true ∧
  Z.of_nat (nat_of_ascii (digit_char d)) - 48 = d.
Proof.
  intros Hd.
  assert (Hc : d = 0 ∨ d = 1 ∨ d = 2 ∨ d = 3 ∨ d = 4 ∨ d = 5 ∨ d = 6 ∨
               d = 7 ∨ d = 8 ∨ d = 9) by lia.
  destruct Hc as [->|[->|[->|[->|[->|[->|[->|[->|[->| ->]]]]]]]]];
    split; reflexivity.
Qed.

Lemma atoi_fmt_u (f : nat) : ∀ v acc a,
  0 <= v → Z.log2 v < Z.of_nat f →
  atoi_digits (fmt_u f v acc) a =
  atoi_digits acc (a * 10 ^ Z.of_nat (ndigits f v) + v).
Proof.
  induction f as [|f IH]; intros v acc a Hv Hlog.
  { pose proof (Z.log2_nonneg v). lia. }
  cbn [fmt_u ndigits].
  assert (Hm : 0 <= v mod 10 < 10) by (apply Z.mod_pos_bound; lia).
  destruct (digit_char_value _ Hm) as [Hdig Hval].
  pose proof (Z.div_mod v 10 ltac:(lia)) as Hdm.
  destruct (Z.eqb_spec (v / 10) 0) as [Hq|Hq].
  - cbn [atoi_digits]. rewrite Hdig, Hval. f_equal.
    change (Z.of_nat 1) with 1. lia.
  - assert (0 < v) by (destruct (Z.eq_dec v 0) as [->|]; [now compute in Hq|lia]).
    destruct (log2_div10_lt v f) as [Hpos Hlog']; [lia..|].
    rewrite IH by lia. cbn [atoi_digits]. rewrite Hdig, Hval. f_equal.
    rewrite Nat2Z.inj_succ, Z.pow_succ_r by lia. lia.
Qed.

Lemma n_digits_loop_zero (f : nat) (i : Z) : n_digits_loop f 0 i = i.
Proof. destruct f; reflexivity. Qed.

Lemma n_digits_loop_step (f : nat) (n i : Z) :
  n_digits_loop (S f) n i =
  if 0 <? n then n_digits_loop f (Z.quot n 10) (i + 1) else i.
Proof. reflexivity. Qed.

Lemma n_digits_loop_spec (f : nat) : ∀ v i,
  0 < v → Z.log2 v < Z.of_nat f →
  n_digits_loop (S f) v i = i + Z.of_nat (ndigits f v).
Proof.
  induction f as [|f IH]; intros v i Hv Hlog.
  { pose proof (Z.log2_nonneg v). lia. }
  rewrite n_digits_loop_step. cbn [ndigits].
  destruct (Z.ltb_spec 0 v) as [_|]; [|lia].
  rewrite Z.quot_div_nonneg by lia.
  destruct (Z.eqb_spec (v / 10) 0) as [Hq|Hq].
  - rewrite Hq, n_digits_loop_step. cbn. lia.
  - destruct (log2_div10_lt v f) as [Hpos Hlog']; [lia..|].
    rewrite IH by assumption. lia.
Qed.

Lemma digits_fuel_enough (v : Z) : Z.log2 v < Z.of_nat (digits_fuel v).
Proof.
  unfold digits_fuel. pose proof (Z.log2_nonneg v). lia.
Qed.

Lemma n_digits_counter_pos (v : Z) :
  0 < v → n_digits_counter v = 1 + Z.of_nat (String.length (fmt_d v)).
Proof.
  intros Hv. unfold n_digits_counter, fmt_d.
  destruct (Z.ltb_spec v 0) as [|_]; [lia|].
  rewrite n_digits_loop_spec by (auto using digits_fuel_enough).
  rewrite fmt_u_length. simpl String.length. lia.
Qed.

Lemma n_digits_counter_nonpos (v : Z) : v <= 0 → n_digits_counter v = 1.
Proof.
  intros Hv. unfold n_digits_counter. cbn [n_digits_loop].
  destruct (Z.ltb_spec 0 v); [lia | reflexivity].
Qed.

Lemma snprintf_d_pos (v : Z) :
  0 < v → snprintf_d (n_digits_counter v) v = fmt_d v.
Proof.
  intros Hv. unfold snprintf_d. rewrite n_digits_counter_pos by assumption.
  replace (1 + Z.of_nat (String.length (fmt_d v)) - 1)
    with (Z.of_nat (String.length (fmt_d v))) by lia.
  rewrite Nat2Z.id. apply str_take_all.
Qed.

Lemma snprintf_d_nonpos (v : Z) :
  v <= 0 → snprintf_d (n_digits_counter v) v = "".
Proof.
  intros Hv. unfold snprintf_d. rewrite n_digits_counter_nonpos by assumption.
  simpl. reflexivity.
Qed.

Lemma fmt_u_head_digit (f : nat) : ∀ v acc,
  0 <= v →
  (∃ c r, acc = String c r ∧ isdigit c = true) ∨ f ≠ O →
  ∃ c r, fmt_u f v acc = String c r ∧ isdigit c = true.
Proof.
  induction f as [|f IH]; intros v acc Hv Hacc.
  - destruct Hacc as [H|H]; [exact H | congruence].
  - cbn [fmt_u].
    assert (Hm : 0 <= v mod 10 < 10) by (apply Z.mod_pos_bound; lia).
    destruct (digit_char_value _ Hm) as [Hdig _].
    destruct (v / 10 =? 0); [eauto|].
    apply IH; [apply Z.div_pos; lia | left; eauto].
Qed.

Lemma atoi_fmt_d (v : Z) : atoi (fmt_d v) = v.
Proof.
  unfold fmt_d. destruct (Z.ltb_spec v 0) as [Hneg|Hpos].
  - unfold atoi. cbn [skip_spaces]. change (isspace "-") with false. cbv iota.
    change (Ascii.eqb "-" "-") with true. cbv iota.
    rewrite atoi_fmt_u by (auto using digits_fuel_enough; lia).
    cbn [atoi_digits]. lia.
  - destruct (fmt_u_head_digit (digits_fuel v) v "" Hpos) as (c & r & Heq & Hdig).
    { right. discriminate. }
    pose proof (atoi_fmt_u (digits_fuel v) v "" 0 Hpos (digits_fuel_enough v)) as Hat.
    rewrite Heq in *. unfold atoi. cbn [skip_spaces].
    assert (Hsp : isspace c = false).
    { unfold isdigit, isspace in *. destruct (nat_of_ascii c =? 32)%nat eqn:E1; simpl.
      - apply Nat.eqb_eq in E1. rewrite E1 in Hdig. discriminate.
      - apply andb_true_iff in Hdig as [H1 H2].
        apply Nat.leb_le in H1. apply andb_false_iff. right. apply Nat.leb_gt.
        apply Nat.leb_le in H2. lia. }
    rewrite Hsp.
    assert (Hm : Ascii.eqb c "-" = false ∧ Ascii.eqb c "+" = false).
    { split; apply Ascii.eqb_neq; intros ->; discriminate. }
    destruct Hm as [-> ->]. rewrite Hat. cbn. lia.
Qed.
(** ** Strings *)

Lemma str_app_cons (a : ascii) (s t : string) :
  String a s +:+ t = String a (s +:+ t).
Proof. reflexivity. Qed.

Lemma str_app_nil_l (s : string) : "" +:+ s = s.
Proof. reflexivity. Qed.

Lemma str_app_nil_r (s : string) : s +:+ "" = s.
Proof. induction s as [|a s IH]; [reflexivity | now rewrite str_app_cons, IH]. Qed.

Lemma str_app_assoc (s t u : string) : (s +:+ t) +:+ u = s +:+ (t +:+ u).
Proof.
  induction s as [|a s IH]; [reflexivity | now rewrite !str_app_cons, IH].
Qed.

Lemma str_app_length (s t : string) :
  String.length (s +:+ t) = (String.length s + String.length t)%nat.
Proof.
  induction s as [|a s IH]; [reflexivity|].
  rewrite str_app_cons. simpl. now rewrite IH.
Qed.

Lemma str_take_cons (n : nat) (a : ascii) (s : string) :
  str_take (S n) (String a s) = String a (str_take n s).
Proof. reflexivity. Qed.

(** ** param_scan *)

Lemma strchr_some (s : string) (c : ascii) (s1 : string) :
  strchr s c = Some s1 →
  ∃ r1 lit, s1 = String c r1 ∧ s = lit +:+ s1 ∧
            (String.length s1 <= String.length s)%nat.
Proof.
  induction s as [|a s IH]; simpl; [discriminate|].
  destruct (Ascii.eqb_spec a c) as [->|Hne]; intros H.
  - inversion H; subst. exists s, "". repeat split. simpl. lia.
  - destruct (IH H) as (r1 & lit & -> & Hs & Hlen).
    exists r1, (String a lit). rewrite str_app_cons, <- Hs. repeat split.
    simpl in *. lia.
Qed.

Lemma token_at_not_dollar (a : ascii) (r : string) :
  a ≠ "$"%char → token_at (String a r) = None.
Proof.
  intros Hne. unfold token_at. destruct r; [reflexivity|].
  destruct (Ascii.eqb_spec a "$"); [contradiction | reflexivity].
Qed.

Lemma scan_ref_strchr_none (w : string) :
  strchr w "$" = None → scan_ref w = (NUL, None, None).
Proof.
  induction w as [|a w IH]; [reflexivity|]. cbn [strchr].
  destruct (Ascii.eqb_spec a "$") as [->|Hne]; [discriminate|].
  intros H. cbn [scan_ref]. rewrite token_at_not_dollar by assumption. auto.
Qed.

Lemma scan_ref_strchr_some (w s1 : string) :
  strchr w "$" = Some s1 → scan_ref w = scan_ref s1.
Proof.
  induction w as [|a w IH]; [discriminate|]. cbn [strchr].
  destruct (Ascii.eqb_spec a "$") as [->|Hne]; intros H.
  - now inversion H.
  - cbn [scan_ref]. rewrite token_at_not_dollar by assumption. auto.
Qed.

Lemma token_at_some (w : string) (k : ascii) (e : string) :
  token_at w = Some (k, e) →
  k ≠ NUL ∧ (String.length e + 2 <= String.length w)%nat ∧
  ∃ r, w = String "$" (String k r).
Proof.
  unfold token_at. destruct w as [|d [|k' r]]; try discriminate.
  destruct (Ascii.eqb_spec d "$") as [->|]; [|discriminate].
  destruct (Ascii.eqb k' "$" || Ascii.eqb k' "!" || Ascii.eqb k' "?") eqn:Hs.
  - intros H; inversion H; subst. split; [|split; [simpl; lia | eauto]].
    intros ->. discriminate.
  - destruct (Ascii.eqb_spec k' "{") as [->|]; [|discriminate].
    destruct (strchr r "}") as [e'|] eqn:He; [|discriminate].
    intros H; inversion H; subst.
    destruct (strchr_some _ _ _ He) as (r1 & lit & -> & _ & Hlen).
    split; [discriminate|]. split; [simpl in *; lia | eauto].
Qed.

Lemma scan_loop_ref (n : nat) : ∀ (w : string) (f : nat),
  (String.length w <= n)%nat → (String.length w < f)%nat →
  scan_loop f w = Some (scan_ref w).
Proof.
  induction n as [|n IH]; intros w f Hn Hf.
  - destruct w; [|simpl in Hn; lia]. destruct f; [lia | reflexivity].
  - destruct f as [|f]; [lia|]. cbn [scan_loop].
    destruct w as [|a w]; [reflexivity|]. cbn [at_nul].
    destruct (strchr (String a w) "$") as [s1|] eqn:Hs.
    + rewrite (scan_ref_strchr_some _ _ Hs).
      destruct (strchr_some _ _ _ Hs) as (r1 & lit & -> & _ & Hlen).
      cbn [next deref]. cbn [scan_ref token_at].
      assert (Hrec : scan_loop f r1 = Some (scan_ref r1)).
      { apply IH; simpl in *; lia. }
      destruct r1 as [|k r]; [exact Hrec|].
      cbn [deref next]. change (Ascii.eqb "$" "$") with true. cbv iota.
      destruct (Ascii.eqb k "$" || Ascii.eqb k "!" || Ascii.eqb k "?");
        [reflexivity|].
      destruct (Ascii.eqb k "{"); [|exact Hrec].
      destruct (strchr r "}"); [reflexivity | exact Hrec].
    + now rewrite (scan_ref_strchr_none _ Hs).
Qed.

Lemma param_scan_spec (w : string) (st : shell) :
  param_scan (Some w) st =
  Ret (scan_ref w) (set_prev (snd (scan_ref w)) st).
Proof.
  unfold param_scan, bind, get.
  rewrite (scan_loop_ref (String.length w)) by lia.
  destruct (scan_ref w) as [[k s] e]. reflexivity.
Qed.

Lemma scan_ref_token_free (w : string) :
  token_free w = true → scan_ref w = (NUL, None, None).
Proof.
  induction w as [|a w IH]; [reflexivity|]. cbn [token_free scan_ref].
  destruct (token_at (String a w)) as [[k e]|]; [discriminate | exact IH].
Qed.

(** What [scan_ref] returns: nothing, or a token and the literal text in
    front of it. *)
Lemma scan_ref_shape (w : string) :
  scan_ref w = (NUL, None, None) ∨
  ∃ k s e lit, scan_ref w = (k, Some s, Some e) ∧ token_at s = Some (k, e) ∧
               w = lit +:+ s ∧
               str_take (String.length w - String.length s) w = lit.
Proof.
  induction w as [|a w IH]; [left; reflexivity|]. cbn [scan_ref].
  destruct (token_at (String a w)) as [[k e]|] eqn:Ht.
  - right. exists k, (String a w), e, "". rewrite Nat.sub_diag. auto.
  - destruct IH as [IH|(k & s & e & lit & Hs & Htok & Hw & Htake)];
      [left; exact IH|].
    right. exists k, s, e, (String a lit). rewrite Hs.
    split; [reflexivity|]. split; [exact Htok|].
    split; [now rewrite str_app_cons, <- Hw|].
    assert (Hlen : (String.length s <= String.length w)%nat).
    { pose proof (f_equal String.length Hw) as Hl.
      rewrite str_app_length in Hl. lia. }
    cbn [String.length].
    replace (S (String.length w) - String.length s)%nat
      with (S (String.length w - String.length s)) by lia.
    now rewrite str_take_cons, Htake.
Qed.
(** ** build_str and the substitutions *)

Lemma build_str_reset (st : shell) :
  build_str None None st = Ret (base st) (set_base None st).
Proof. reflexivity. Qed.

Lemma build_str_span (p e : string) (st : shell) :
  build_str (Some p) (Some e) st =
  let b' := Some (default "" (base st) +:+
                  str_take (String.length p - String.length e) p) in
  Ret b' (set_base b' st).
Proof. unfold build_str, bind, get, modify, ret. now destruct (base st). Qed.

Lemma build_str_whole (p : string) (st : shell) :
  build_str (Some p) None st =
  let b' := Some (default "" (base st) +:+ p) in
  Ret b' (set_base b' st).
Proof.
  unfold build_str, bind, get, modify, ret. rewrite str_take_all.
  now destruct (base st).
Qed.

Lemma token_at_kind (s : string) (k : ascii) (e : string) :
  token_at s = Some (k, e) →
  Ascii.eqb k "!" || Ascii.eqb k "$" || Ascii.eqb k "?" || Ascii.eqb k "{"
  = true.
Proof.
  unfold token_at. destruct s as [|d [|k' r]]; try discriminate.
  destruct (Ascii.eqb d "$"); [|discriminate].
  destruct (Ascii.eqb k' "$") eqn:E1, (Ascii.eqb k' "!") eqn:E2,
    (Ascii.eqb k' "?") eqn:E3; cbn [orb];
    try (intros H; inversion H; subst; rewrite ?E1, ?E2, ?E3;
         now rewrite ?orb_true_r).
  destruct (Ascii.eqb k' "{") eqn:E4; [|discriminate].
  destruct (strchr r "}"); [|discriminate].
  intros H; inversion H; subst. now rewrite E4, !orb_true_r.
Qed.

Lemma substitute_spec (k : ascii) (s e : string) (st : shell) :
  token_at s = Some (k, e) →
  substitute k (Some s) (Some e) st =
  match subst_value st k s e with
  | Some v => Ret tt (set_base (Some (default "" (base st) +:+ v)) st)
  | None => Undefined ParamArgOverflow st
  end.
Proof.
  intros Hk%token_at_kind.
  unfold substitute, subst_value, expand_braces, getenv.
  unfold bind at 1. unfold get at 1.
  destruct (Ascii.eqb k "!").
  { unfold bind. rewrite build_str_whole. reflexivity. }
  destruct (Ascii.eqb k "$").
  { unfold bind. rewrite build_str_whole. reflexivity. }
  destruct (Ascii.eqb k "?").
  { destruct (last_status st =? 0); unfold bind; rewrite build_str_whole;
      reflexivity. }
  destruct (Ascii.eqb k "{"); [|discriminate].
  destruct (64 <=? _); [reflexivity|].
  unfold bind, get, ret.
  destruct (os_env (os st) !! _); rewrite build_str_whole; reflexivity.
Qed.

(** ** expand *)

Lemma expand_unfold (w : string) (st : shell) :
  expand w st =
  let '(k, s, e) := scan_ref w in
  (build_str None None ;;; build_str (Some w) s ;;;
   expand_rest (S (String.length w)) k s e) (set_prev e st).
Proof.
  unfold expand. unfold bind at 1. rewrite param_scan_spec.
  destruct (scan_ref w) as [[k s] e]. reflexivity.
Qed.

(** [expand] overwrites both statics before it reads them. *)
Lemma expand_clear (w : string) (st : shell) :
  expand w st = expand w (set_base None (set_prev None st)).
Proof.
  rewrite !expand_unfold. destruct (scan_ref w) as [[k s] e].
  unfold bind at 1 3. rewrite !build_str_reset. reflexivity.
Qed.

Lemma expand_loop_nul (f : nat) (s e : option string) :
  expand_loop f NUL s e = ret s.
Proof. destruct f; reflexivity. Qed.

Lemma expand_token_free (w : string) (st : shell) :
  scan_ref w = (NUL, None, None) →
  expand w st = Ret (Some w) (set_base None (set_prev None st)).
Proof.
  intros H. rewrite expand_unfold, H.
  unfold bind at 1. rewrite build_str_reset.
  unfold bind at 1. rewrite build_str_whole. cbn zeta.
  unfold expand_rest, bind. rewrite expand_loop_nul. reflexivity.
Qed.

Lemma rmap_rmap {A B C} (f : A → B) (g : B → C) (r : result A) :
  rmap g (rmap f r) = rmap (fun a => g (f a)) r.
Proof. now destruct r. Qed.

Lemma rmap_ext {A B} (f g : A → B) (r : result A) :
  (∀ a, f a = g a) → rmap f r = rmap g r.
Proof. intros H. destruct r; simpl; congruence. Qed.

Lemma expand_rest_spec (n : nat) : ∀ k s0 e0 fuel st,
  (String.length e0 <= n)%nat → (String.length e0 < fuel)%nat →
  token_at s0 = Some (k, e0) →
  result_of (expand_rest fuel k (Some s0) (Some e0) st) =
  match subst_value st k s0 e0 with
  | None => Undef ParamArgOverflow
  | Some v =>
      rmap (fmap (String.app (default "" (base st) +:+ v)))
           (result_of (expand e0 st))
  end.
Proof.
  induction n as [|n IH]; intros k s0 e0 fuel st Hn Hf Htok.
  all: destruct fuel as [|f]; [lia|].
  all: unfold expand_rest; cbn [expand_loop].
  all: destruct (token_at_some _ _ _ Htok) as (Hk & _ & _).
  all: destruct (Ascii.eqb_spec k NUL) as [|_]; [contradiction|].
  all: unfold bind; rewrite (substitute_spec _ _ _ _ Htok).
  all: destruct (subst_value st k s0 e0) as [v|]; [|reflexivity].
  all: rewrite param_scan_spec.
  all: destruct (scan_ref_shape e0)
    as [Hnone|(k' & s' & e' & lit & Hscan & Htok' & He0 & Htake)].
  all: try (rewrite Hnone; rewrite (expand_token_free _ _ Hnone);
            cbv beta iota zeta; rewrite build_str_whole; cbv zeta;
            rewrite expand_loop_nul; cbn; now rewrite str_app_assoc).
  - exfalso. destruct (token_at_some _ _ _ Htok') as (_ & Hl & _).
    pose proof (f_equal String.length He0) as Hlen.
    rewrite str_app_length in Hlen. lia.
  - rewrite Hscan. cbn [snd]. cbv beta iota zeta.
    destruct (token_at_some _ _ _ Htok') as (_ & Hl & _).
    pose proof (f_equal String.length He0) as Hlen.
    rewrite str_app_length in Hlen.
    rewrite build_str_span. cbn zeta. rewrite Htake.
    match goal with
    | |- result_of (match expand_loop f k' (Some s') (Some e') ?st2 with _ => _ end) = _ =>
        pose proof (IH k' s' e' f st2 ltac:(lia) ltac:(lia) Htok') as IH1
    end.
    unfold expand_rest, bind in IH1. rewrite IH1. clear IH1.
    rewrite (expand_unfold e0 st), Hscan. cbv beta iota zeta.
    unfold bind. rewrite build_str_reset.
    rewrite build_str_span. cbn zeta. rewrite Htake.
    rewrite (IH k' s' e' (S (String.length e0))) by (assumption || simpl; lia).
    cbn [base set_base set_prev default].
    match goal with
    | |- match ?a with _ => _ end = rmap _ (match ?b with _ => _ end) =>
        change b with a; destruct a as [v'|]; [|reflexivity]
    end.
    rewrite rmap_rmap.
    match goal with
    | |- rmap _ (result_of (expand e' ?st2)) = rmap _ (result_of (expand e' ?st3)) =>
        rewrite (expand_clear e' st2), (expand_clear e' st3)
    end.
    cbn [set_base set_prev last_status last_bg_pid words prev base os].
    apply rmap_ext. intros [x|]; cbn; [|reflexivity].
    now rewrite !str_app_assoc.
Qed.
(** The three equations that determine [expand]. *)

Lemma expand_empty (st : shell) : result_of (expand "" st) = Val (Some "").
Proof. now rewrite expand_token_free. Qed.

Lemma expand_literal (c : ascii) (r : string) (st : shell) :
  token_at (String c r) = None →
  result_of (expand (String c r) st) =
  rmap (fmap (String c)) (result_of (expand r st)).
Proof.
  intros Hnone.
  assert (Hscan : scan_ref (String c r) = scan_ref r)
    by (cbn [scan_ref]; now rewrite Hnone).
  destruct (scan_ref_shape r)
    as [Hr|(k & s & e & lit & Hs & Htok & Hw & Htake)].
  - rewrite !expand_token_free by congruence. reflexivity.
  - destruct (token_at_some _ _ _ Htok) as (_ & Hl & _).
    pose proof (f_equal String.length Hw) as Hlen.
    rewrite str_app_length in Hlen.
    rewrite !expand_unfold, Hscan, Hs. cbv beta iota zeta.
    unfold bind. rewrite !build_str_reset, !build_str_span. cbv zeta.
    cbn [String.length].
    replace (S (String.length r) - String.length s)%nat
      with (S (String.length r - String.length s)) by lia.
    rewrite str_take_cons, Htake.
    rewrite (expand_rest_spec (String.length e)) by (assumption || simpl; lia).
    rewrite (expand_rest_spec (String.length e)) by (assumption || simpl; lia).
    cbn [base set_base set_prev default].
    match goal with
    | |- match ?a with _ => _ end = rmap _ (match ?b with _ => _ end) =>
        change b with a; destruct a as [v|]; [|reflexivity]
    end.
    rewrite rmap_rmap.
    match goal with
    | |- rmap _ (result_of (expand e ?st2)) = rmap _ (result_of (expand e ?st3)) =>
        rewrite (expand_clear e st2), (expand_clear e st3)
    end.
    cbn [set_base set_prev last_status last_bg_pid words prev base os].
    apply rmap_ext. intros [x|]; reflexivity.
Qed.

Lemma expand_token (w : string) (k : ascii) (e : string) (st : shell) :
  token_at w = Some (k, e) →
  result_of (expand w st) =
  match subst_value st k w e with
  | None => Undef ParamArgOverflow
  | Some v => rmap (fmap (String.app v)) (result_of (expand e st))
  end.
Proof.
  intros Htok.
  destruct (token_at_some _ _ _ Htok) as (_ & Hl & r & Hw).
  assert (Hscan : scan_ref w = (k, Some w, Some e)).
  { rewrite Hw at 1. cbn [scan_ref]. rewrite <- Hw. now rewrite Htok. }
  rewrite expand_unfold, Hscan. cbv beta iota zeta.
  unfold bind. rewrite !build_str_reset, !build_str_span.
  cbv beta iota zeta.
  rewrite (expand_rest_spec (String.length e)) by (assumption || simpl; lia).
  rewrite Nat.sub_diag.
  cbn [base set_base set_prev default].
  match goal with
  | |- match ?a with _ => _ end = match ?b with _ => _ end =>
      change a with b; destruct b as [v|]; [|reflexivity]
  end.
  match goal with
  | |- rmap _ (result_of (expand e ?st2)) = _ =>
      rewrite (expand_clear e st2), (expand_clear e st)
  end.
  cbn [set_base set_prev last_status last_bg_pid words prev base os].
  apply rmap_ext. intros [x|]; [|reflexivity].
  destruct w; reflexivity.
Qed.

(** [expand] terminates: the counters of its loops are never exhausted. *)
Lemma expand_total (n : nat) : ∀ (w : string) (st : shell),
  (String.length w <= n)%nat → result_of (expand w st) ≠ Fuel.
Proof.
  induction n as [|n IH]; intros w st Hn.
  - destruct w; [|simpl in Hn; lia]. now rewrite expand_empty.
  - destruct w as [|c r]; [now rewrite expand_empty|].
    destruct (token_at (String c r)) as [[k e]|] eqn:Htok.
    + rewrite (expand_token _ _ _ _ Htok).
      destruct (token_at_some _ _ _ Htok) as (_ & Hl & _).
      destruct (subst_value st k (String c r) e); [|discriminate].
      specialize (IH e st ltac:(simpl in *; lia)).
      destruct (result_of (expand e st)); simpl; congruence.
    + rewrite (expand_literal _ _ _ Htok).
      specialize (IH r st ltac:(simpl in *; lia)).
      destruct (result_of (expand r st)); simpl; congruence.
Qed.
(** ** Special parameters *)

Lemma bg_pid_value (st : shell) :
  snprintf_d (n_digits_counter (last_bg_pid st)) (last_bg_pid st) =
  if 0 <? last_bg_pid st then fmt_d (last_bg_pid st) else "".
Proof.
  destruct (Z.ltb_spec 0 (last_bg_pid st)).
  - now apply snprintf_d_pos.
  - now apply snprintf_d_nonpos.
Qed.

Lemma status_value (st : shell) :
  0 <= last_status st →
  (if last_status st =? 0 then "0"
   else snprintf_d (n_digits_counter (last_status st)) (last_status st)) =
  fmt_d (last_status st).
Proof.
  intros H. destruct (Z.eqb_spec (last_status st) 0) as [->|Hne].
  - reflexivity.
  - apply snprintf_d_pos. lia.
Qed.

Lemma expand_literal_prefix (pre w : string) (st : shell) :
  strchr pre "$" = None →
  result_of (expand (pre +:+ w) st) =
  rmap (fmap (String.app pre)) (result_of (expand w st)).
Proof.
  induction pre as [|a pre IH]; intros Hpre.
  - rewrite str_app_nil_l. destruct (result_of (expand w st)) as [[x|]| | | |];
      reflexivity.
  - cbn [strchr] in Hpre.
    destruct (Ascii.eqb_spec a "$") as [|Hne]; [discriminate|].
    rewrite str_app_cons, expand_literal by now apply token_at_not_dollar.
    rewrite IH by assumption. rewrite rmap_rmap.
    apply rmap_ext. intros [x|]; reflexivity.
Qed.

(** C2. A word without parameter tokens expands to itself; a dollar sign
    that is not followed by [$], [?], [!] or [{] is copied and expansion
    goes on behind it; so is [${] when no closing brace follows. *)
Theorem expand_identity_without_tokens (w : string) (st : shell) :
  (token_free w = true → result_of (expand w st) = Val (Some w)) ∧
  (begins_param w = false →
   result_of (expand (String "$" w) st) =
   rmap (fmap (String "$")) (result_of (expand w st))) ∧
  (strchr w "}" = None →
   result_of (expand ("${" +:+ w) st) =
   rmap (fmap (String.app "${")) (result_of (expand w st))).
Proof.
  split; [|split].
  - intros Hfree. now rewrite expand_token_free by now apply scan_ref_token_free.
  - intros Hb. apply expand_literal. destruct w as [|k r]; [reflexivity|].
    cbn [begins_param] in Hb. cbn [token_at].
    change (Ascii.eqb "$" "$") with true. cbv iota.
    destruct (Ascii.eqb k "$"), (Ascii.eqb k "!"), (Ascii.eqb k "?"),
      (Ascii.eqb k "{"); try discriminate; reflexivity.
  - intros Hclose.
    change ("${" +:+ w) with (String "$" (String "{" w)).
    rewrite expand_literal by (cbn; now rewrite Hclose).
    rewrite expand_literal by (now apply token_at_not_dollar).
    rewrite rmap_rmap. apply rmap_ext. intros [x|]; reflexivity.
Qed.

Lemma expand_identity_without_tokens_witness :
  (token_free "a$b${c" = true ∧ begins_param "a$b${c" = false ∧
   strchr "a$b${c" "}" = None) ∧
  result_of (expand "a$b${c" sample_shell) = Val (Some "a$b${c") ∧
  result_of (expand "$a$b${c" sample_shell) =
    rmap (fmap (String "$")) (result_of (expand "a$b${c" sample_shell)) ∧
  result_of (expand ("${" +:+ "a$b${c") sample_shell) =
    rmap (fmap (String.app "${")) (result_of (expand "a$b${c" sample_shell)).
Proof.
  split; [repeat split|].
  destruct (expand_identity_without_tokens "a$b${c" sample_shell)
    as (H1 & H2 & H3).
  split; [apply H1; reflexivity|].
  split; [apply H2; reflexivity | apply H3; reflexivity].
Defined.

(** C4. [$!] expands to the decimal last background PID once one is
    recorded and to nothing while [last_bg_pid] is 0, wherever the token
    stands and whatever follows it. *)
Theorem expand_bg_pid (pre post : string) (st : shell) :
  strchr pre "$" = None →
  let v := if 0 <? last_bg_pid st then fmt_d (last_bg_pid st) else "" in
  result_of (expand (pre +:+ "$!" +:+ post) st) =
  rmap (fmap (String.app (pre +:+ v))) (result_of (expand post st)) ∧
  result_of (expand "$!" st) = Val (Some v) ∧
  (last_bg_pid st = 0 → result_of (expand "$!" st) = Val (Some "")).
Proof.
  intros Hpre v.
  assert (Htok : ∀ r, result_of (expand ("$!" +:+ r) st) =
                      rmap (fmap (String.app v)) (result_of (expand r st))).
  { intros r. rewrite (expand_token _ "!" r) by reflexivity.
    unfold subst_value. change (Ascii.eqb "!" "!") with true. cbv iota.
    now rewrite bg_pid_value. }
  assert (Hone : result_of (expand "$!" st) = Val (Some v)).
  { change "$!" with ("$!" +:+ ""). rewrite Htok, expand_empty. cbn.
    now rewrite str_app_nil_r. }
  split; [|split].
  - rewrite expand_literal_prefix, Htok, rmap_rmap by assumption.
    apply rmap_ext. intros [x|]; cbn; [|reflexivity]. now rewrite str_app_assoc.
  - exact Hone.
  - intros H0. rewrite Hone. subst v. now rewrite H0.
Qed.

Lemma expand_bg_pid_witness :
  strchr "pid=" "$" = None ∧
  result_of (expand "pid=$!." (set_last_bg_pid 4300 sample_shell)) =
  Val (Some "pid=4300.").
Proof.
  split; [reflexivity|].
  change "pid=$!." with ("pid=" +:+ "$!" +:+ ".").
  rewrite (proj1 (expand_bg_pid "pid=" "." (set_last_bg_pid 4300 sample_shell)
                    eq_refl)).
  reflexivity.
Defined.

(** ** Named parameters *)

Lemma strchr_app_none (s t : string) (c : ascii) :
  strchr s c = None → strchr (s +:+ String c t) c = Some (String c t).
Proof.
  induction s as [|a s IH]; intros H.
  - rewrite str_app_nil_l. cbn. now rewrite Ascii.eqb_refl.
  - cbn [strchr] in H. rewrite str_app_cons. cbn [strchr].
    destruct (Ascii.eqb a c); [discriminate | auto].
Qed.

Lemma token_at_braces (name post : string) :
  strchr name "}" = None →
  token_at ("${" +:+ name +:+ "}" +:+ post) = Some ("{"%char, post).
Proof.
  intros H. change ("${" +:+ name +:+ "}" +:+ post)
    with (String "$" (String "{" (name +:+ String "}" post))).
  cbn [token_at]. change (Ascii.eqb "$" "$") with true.
  change (Ascii.eqb "{" "$" || Ascii.eqb "{" "!" || Ascii.eqb "{" "?")
    with false.
  change (Ascii.eqb "{" "{") with true. cbv iota.
  now rewrite strchr_app_none.
Qed.

Lemma braces_param_digits (name post : string) :
  Z.of_nat (String.length ("${" +:+ name +:+ "}" +:+ post)) -
  Z.of_nat (String.length post) - 3 = Z.of_nat (String.length name).
Proof.
  rewrite !str_app_length. cbn [String.length]. lia.
Qed.

(** A named parameter whose name fits [param_arg]: the value of the
    name in the environment of the state at hand, nothing when unset. *)
Lemma expand_named_parameter (name post : string) (st : shell) :
  strchr name "}" = None → (String.length name < 64)%nat →
  result_of (expand ("${" +:+ name +:+ "}" +:+ post) st) =
  rmap (fmap (String.app (default "" (os_env (os st) !! name))))
       (result_of (expand post st)).
Proof.
  intros Hname Hlen.
  rewrite (expand_token _ _ _ _ (token_at_braces name post Hname)).
  unfold subst_value.
  change (Ascii.eqb "{" "!") with false. change (Ascii.eqb "{" "$") with false.
  change (Ascii.eqb "{" "?") with false. change (Ascii.eqb "{" "{") with true.
  cbv iota zeta. rewrite braces_param_digits.
  destruct (Z.leb_spec 64 (Z.of_nat (String.length name))); [lia|].
  rewrite Nat2Z.id.
  change (next (next ("${" +:+ name +:+ "}" +:+ post)))
    with (name +:+ "}" +:+ post).
  now rewrite str_take_app.
Qed.

(** Setting the name in the environment shows in the next expansion:
    nothing is kept from one call to the next. *)
Lemma expand_sees_new_value (name v : string) (st : shell) :
  strchr name "}" = None → (String.length name < 64)%nat →
  result_of
    (expand ("${" +:+ name +:+ "}" +:+ "")
       (set_os (os_set_env (<[name := v]> (os_env (os st))) (os st)) st))
  = Val (Some v).
Proof.
  intros Hname Hlen. rewrite expand_named_parameter by assumption.
  cbn [os set_os os_env os_set_env]. rewrite lookup_insert_eq, expand_empty.
  cbn. now rewrite str_app_nil_r.
Qed.

(** C5. The code departs from the specification at long names: a name of
    64 bytes or more overruns [param_arg] or leaves it unterminated, and no
    lookup is defined. *)
Theorem expand_long_name_overflows (name post : string) (st : shell) :
  strchr name "}" = None → (64 <= String.length name)%nat →
  result_of (expand ("${" +:+ name +:+ "}" +:+ post) st) =
  Undef ParamArgOverflow.
Proof.
  intros Hname Hlen.
  rewrite (expand_token _ _ _ _ (token_at_braces name post Hname)).
  unfold subst_value.
  change (Ascii.eqb "{" "!") with false. change (Ascii.eqb "{" "$") with false.
  change (Ascii.eqb "{" "?") with false. change (Ascii.eqb "{" "{") with true.
  cbv iota zeta. rewrite braces_param_digits.
  destruct (Z.leb_spec 64 (Z.of_nat (String.length name))); [reflexivity|lia].
Qed.

Lemma expand_long_name_overflows_witness :
  result_of
    (expand
       "${AAAAAAAAAAAAAAAAAAAAAAAAAAAAAAAAAAAAAAAAAAAAAAAAAAAAAAAAAAAAAAAAAAAAAAAA}"
       sample_shell) = Undef ParamArgOverflow.
Proof.
  apply (expand_long_name_overflows
           "AAAAAAAAAAAAAAAAAAAAAAAAAAAAAAAAAAAAAAAAAAAAAAAAAAAAAAAAAAAAAAAAAAAAAAAA"
           "" sample_shell); [reflexivity | simpl; lia].
Defined.

(** ** Foreground status *)

Lemma wait_exited (code : Z) :
  0 <= code <= 255 →
  WIFSIGNALED (W_EXITCODE code 0) = false ∧
  WIFSTOPPED (W_EXITCODE code 0) = false ∧
  WEXITSTATUS (W_EXITCODE code 0) = code.
Proof.
  intros H. unfold WIFSIGNALED, WIFSTOPPED, WEXITSTATUS, W_EXITCODE.
  rewrite Z.lor_0_r, Z.shiftl_mul_pow2 by lia.
  change 127 with (Z.ones 7). change 255 with (Z.ones 8).
  rewrite !Z.land_ones by lia.
  change (2 ^ 7) with 128. change (2 ^ 8) with 256.
  assert (H1 : (code * 256) mod 128 = 0).
  { replace (code * 256) with (code * 2 * 128) by lia. apply Z.mod_mul. lia. }
  assert (H2 : (code * 256) mod 256 = 0) by (apply Z.mod_mul; lia).
  rewrite H1, H2. split; [reflexivity|]. split; [reflexivity|].
  change 65280 with (Z.shiftl 255 8).
  replace (code * 256) with (Z.shiftl code 8)
    by (rewrite Z.shiftl_mul_pow2; lia).
  rewrite <- Z.shiftl_land.
  rewrite Z.shiftr_shiftl_l, Z.sub_diag, Z.shiftl_0_r by lia.
  change 255 with (Z.ones 8). rewrite Z.land_ones by lia.
  apply Z.mod_small. change (2 ^ 8) with 256. lia.
Qed.

Lemma wait_signaled (sig : Z) (core : bool) :
  1 <= sig <= 126 →
  let status := Z.lor sig (if core then WCOREFLAG else 0) in
  WIFSIGNALED status = true ∧ WTERMSIG status = sig.
Proof.
  intros H status.
  assert (Hterm : Z.land status 127 = sig).
  { subst status. rewrite Z.land_lor_distr_l.
    assert (Hc : Z.land (if core then WCOREFLAG else 0) 127 = 0)
      by (destruct core; reflexivity).
    rewrite Hc, Z.lor_0_r. change 127 with (Z.ones 7).
    rewrite Z.land_ones by lia. apply Z.mod_small. change (2 ^ 7) with 128. lia. }
  unfold WIFSIGNALED, WTERMSIG. rewrite Hterm. split; [|reflexivity].
  cbv zeta. destruct (Z.leb_spec 128 (sig + 1)); [lia|].
  apply Z.ltb_lt. rewrite Z.shiftr_div_pow2 by lia. change (2 ^ 1) with 2.
  apply Z.div_str_pos. lia.
Qed.

(** C3. A foreground external command whose child ended: [last_status]
    is the exit code, or 128 plus the signal; [$?] then expands to its
    decimal string, which is "0" for status 0. *)
Theorem foreground_status_recorded (t : termination) (a : answers)
    (p : parse_state) (cmd : string) (st : shell) :
  valid_termination t →
  child_exit a = wait_status t →
  token p 0 = Some cmd → cmd ≠ "exit" → cmd ≠ "cd" →
  fork_pid a ≠ -1 → fork_pid a ≠ 0 → p_bg p = false →
  ∃ st', execute a p st = Ret tt st' ∧
         last_status st' = mapped_status t ∧
         result_of (expand "$?" st') = Val (Some (fmt_d (mapped_status t))) ∧
         (mapped_status t = 0 → result_of (expand "$?" st') = Val (Some "0")).
Proof.
  intros Hvalid Hstatus Htok Hexit Hcd Hfork1 Hfork0 Hbg.
  assert (Hrun : execute a p st = wait_foreground a st).
  { unfold execute. rewrite Htok.
    destruct (String.eqb_spec cmd "exit"); [contradiction|].
    destruct (String.eqb_spec cmd "cd"); [contradiction|].
    unfold external. destruct (Z.eqb_spec (fork_pid a) (-1)); [contradiction|].
    destruct (Z.eqb_spec (fork_pid a) 0); [contradiction|].
    now rewrite Hbg. }
  assert (Hrec : wait_foreground a st =
                 Ret tt (set_last_status (mapped_status t) st)).
  { unfold wait_foreground. rewrite Hstatus.
    destruct t as [code|sig core]; cbn [wait_status mapped_status].
    - destruct (wait_exited code Hvalid) as (-> & -> & ->). reflexivity.
    - destruct (wait_signaled sig core Hvalid) as (-> & ->). reflexivity. }
  exists (set_last_status (mapped_status t) st).
  split; [congruence|]. split; [reflexivity|].
  assert (Hnn : 0 <= mapped_status t)
    by (destruct t; cbn in *; lia).
  assert (Hexp : result_of (expand "$?" (set_last_status (mapped_status t) st))
                 = Val (Some (fmt_d (mapped_status t)))).
  { rewrite (expand_token "$?" "?" "") by reflexivity.
    unfold subst_value.
    change (Ascii.eqb "?" "!") with false. change (Ascii.eqb "?" "$") with false.
    change (Ascii.eqb "?" "?") with true. cbv iota.
    rewrite status_value by exact Hnn.
    rewrite expand_empty. cbn. now rewrite str_app_nil_r. }
  split; [exact Hexp|]. intros H0. rewrite Hexp, H0. reflexivity.
Qed.

Lemma foreground_status_recorded_witness :
  ∃ st', execute (Answers 4300 2) sample_parse sample_shell = Ret tt st' ∧
         last_status st' = 130 ∧
         result_of (expand "$?" st') = Val (Some "130") ∧
         (130 = 0 → result_of (expand "$?" st') = Val (Some "0")).
Proof.
  apply (foreground_status_recorded (KilledBy 2 false) (Answers 4300 2)
           sample_parse "cat" sample_shell).
  - simpl. lia.
  - reflexivity.
  - reflexivity.
  - discriminate.
  - discriminate.
  - discriminate.
  - discriminate.
  - reflexivity.
Defined.
(** ** The state expand leaves *)

Lemma expand_rest_state (fuel : nat) : ∀ k s0 e0 st v st',
  token_at s0 = Some (k, e0) →
  expand_rest fuel k (Some s0) (Some e0) st = Ret v st' →
  st' = set_base None (set_prev None st).
Proof.
  induction fuel as [|f IH]; intros k s0 e0 st v st' Htok.
  all: destruct (token_at_some _ _ _ Htok) as (Hk & _ & _).
  all: unfold expand_rest; cbn [expand_loop].
  all: destruct (Ascii.eqb_spec k NUL) as [|_]; [contradiction|].
  - discriminate.
  - unfold bind. rewrite (substitute_spec _ _ _ _ Htok).
    destruct (subst_value st k s0 e0) as [x|]; [|discriminate].
    rewrite param_scan_spec.
    destruct (scan_ref_shape e0)
      as [Hnone|(k' & s' & e' & lit & Hscan & Htok' & He0 & Htake)].
    + rewrite Hnone. cbv beta iota zeta. rewrite build_str_whole. cbv zeta.
      rewrite expand_loop_nul. cbn. intros H; inversion H; reflexivity.
    + rewrite Hscan. cbv beta iota zeta. rewrite build_str_span.
      cbv beta iota zeta. intros H.
      match type of H with
      | match expand_loop f k' (Some s') (Some e') ?st2 with _ => _ end = _ =>
          pose proof (IH k' s' e' st2 v st' Htok') as IH1
      end.
      unfold expand_rest, bind in IH1. rewrite (IH1 H). reflexivity.
Qed.

Lemma expand_ret (w : string) (st : shell) (v : option string) :
  result_of (expand w st) = Val v →
  expand w st = Ret v (set_base None (set_prev None st)).
Proof.
  intros Hres.
  destruct (expand w st) as [v' st'| | | |] eqn:E; try discriminate.
  cbn in Hres. inversion Hres; subst v'. f_equal.
  rewrite expand_unfold in E.
  destruct (scan_ref_shape w)
    as [Hnone|(k & s & e & lit & Hscan & Htok & Hw & Htake)].
  - rewrite Hnone in E. unfold bind in E.
    rewrite build_str_reset, build_str_whole in E. cbv zeta in E.
    unfold expand_rest, bind in E. rewrite expand_loop_nul in E.
    cbn in E. now inversion E.
  - rewrite Hscan in E. unfold bind in E.
    rewrite build_str_reset, build_str_span in E. cbv beta iota zeta in E.
    now rewrite (expand_rest_state _ _ _ _ _ _ _ Htok E).
Qed.

(** ** The built-ins *)

Lemma argv_of_token0 (p : parse_state) (cmd : string) (args : list string) :
  argv_of (p_tokens p) = cmd :: args → token p 0 = Some cmd.
Proof.
  unfold token. destruct (p_tokens p) as [|[w|] r]; cbn; try discriminate.
  congruence.
Qed.

Lemma argv_of_token1 (p : parse_state) (cmd arg : string)
    (args : list string) :
  argv_of (p_tokens p) = cmd :: arg :: args → token p 1 = Some arg.
Proof.
  unfold token. destruct (p_tokens p) as [|[w|] [|[w'|] r]]; cbn;
    try discriminate. congruence.
Qed.

Lemma execute_exit (a : answers) (p : parse_state) (args : list string)
    (st : shell) :
  argv_of (p_tokens p) = "exit" :: args →
  execute a p st = builtin_exit p st.
Proof.
  intros H. unfold execute. now rewrite (argv_of_token0 _ _ _ H).
Qed.

Lemma execute_cd (a : answers) (p : parse_state) (args : list string)
    (st : shell) :
  argv_of (p_tokens p) = "cd" :: args →
  execute a p st = builtin_cd p st.
Proof.
  intros H. unfold execute. now rewrite (argv_of_token0 _ _ _ H).
Qed.

(** [exit] alone ends the shell with the last foreground status. *)
Lemma exit_no_argument (a : answers) (p : parse_state) (st : shell) :
  well_counted p → argv_of (p_tokens p) = ["exit"] →
  0 <= last_status st →
  result_of (execute a p st) = Exit (last_status st).
Proof.
  intros Hc Hargv Hst. rewrite (execute_exit _ _ _ _ Hargv).
  unfold well_counted in Hc. rewrite Hargv in Hc.
  change (p_n_tokens p = 2) in Hc.
  unfold builtin_exit. rewrite Hc.
  change (3 <=? 2 - 1) with false. change (2 - 1 =? 2) with false.
  cbv iota. unfold bind.
  assert (Hexp : result_of (expand "$?" st) = Val (Some (fmt_d (last_status st)))).
  { rewrite (expand_token "$?" "?" "") by reflexivity.
    unfold subst_value.
    change (Ascii.eqb "?" "!") with false. change (Ascii.eqb "?" "$") with false.
    change (Ascii.eqb "?" "?") with true. cbv iota.
    rewrite status_value by exact Hst.
    rewrite expand_empty. cbn. now rewrite str_app_nil_r. }
  rewrite (expand_ret _ _ _ Hexp). cbn. now rewrite atoi_fmt_d.
Qed.

(** [exit] with two or more arguments reports E2BIG and returns to the
    prompt. *)
Lemma exit_too_many (a : answers) (p : parse_state) (x y : string)
    (args : list string) (st : shell) :
  well_counted p → argv_of (p_tokens p) = "exit" :: x :: y :: args →
  execute a p st =
  Ret tt (set_os (os_emit (ErrNo E2BIG) (os_set_errno E2BIG (os st))) st).
Proof.
  intros Hc Hargv. rewrite (execute_exit _ _ _ _ Hargv).
  unfold well_counted in Hc. rewrite Hargv in Hc. cbn [length] in Hc.
  unfold builtin_exit.
  destruct (Z.leb_spec 3 (p_n_tokens p - 1)); [reflexivity | lia].
Qed.

(** [exit] with one argument that does not begin with a digit reports
    EINVAL and returns to the prompt. *)
Lemma exit_not_a_number (a : answers) (p : parse_state) (arg : string)
    (st : shell) :
  well_counted p → argv_of (p_tokens p) = ["exit"; arg] →
  isdigit (deref arg) = false →
  execute a p st =
  Ret tt (set_os (os_emit (ErrNo EINVAL) (os_set_errno EINVAL (os st))) st).
Proof.
  intros Hc Hargv Hd. rewrite (execute_exit _ _ _ _ Hargv).
  unfold well_counted in Hc. rewrite Hargv in Hc.
  change (p_n_tokens p = 3) in Hc.
  unfold builtin_exit. rewrite Hc, (argv_of_token1 _ _ _ _ Hargv), Hd.
  reflexivity.
Qed.

(** C7. The code departs from the specification here: one argument that
    begins with a digit, its leading digits denoting a value that fits an
    [int], ends the shell with that value, whatever follows the digits;
    [exit 1abc] ends the shell with status 1 and reports nothing. *)
Theorem exit_accepts_leading_digit (a : answers) (p : parse_state)
    (d : ascii) (rest : string) (st : shell) :
  well_counted p → argv_of (p_tokens p) = ["exit"; String d rest] →
  isdigit d = true →
  atoi (String d rest) <= INT_MAX →
  execute a p st = Exited (atoi (String d rest)) st.
Proof.
  intros Hc Hargv Hd _. rewrite (execute_exit _ _ _ _ Hargv).
  unfold well_counted in Hc. rewrite Hargv in Hc.
  change (p_n_tokens p = 3) in Hc.
  unfold builtin_exit. rewrite Hc, (argv_of_token1 _ _ _ _ Hargv).
  cbn [deref]. rewrite Hd. reflexivity.
Qed.

Lemma exit_accepts_leading_digit_witness :
  execute sample_answers exit_1abc_parse sample_shell = Exited 1 sample_shell.
Proof.
  apply (exit_accepts_leading_digit sample_answers exit_1abc_parse "1" "abc"
           sample_shell); [reflexivity | reflexivity | reflexivity |].
  vm_compute. discriminate.
Defined.

(** The same from the line as typed. *)
Example exit_1abc_line :
  result_of (run_line sample_answers "exit 1abc" sample_shell) = Exit 1.
Proof. vm_compute. reflexivity. Qed.

Example exit_abc_line :
  os_log ∘ os <$> final_state (run_line sample_answers "exit abc" sample_shell)
  = Some [ErrNo EINVAL].
Proof. vm_compute. reflexivity. Qed.

(** C8. [cd] alone changes to the directory HOME names; [cd] with one
    argument that does not exist or cannot be entered reports an error and
    leaves the working directory alone; so does [cd] with two or more
    arguments, the error being E2BIG. In each case the shell goes back to
    the prompt. *)
Theorem cd_builtin (a : answers) (p : parse_state) (args : list string)
    (st : shell) :
  well_counted p → argv_of (p_tokens p) = "cd" :: args →
  let K := os_kernel (os st) in
  let cwd := os_cwd (os st) in
  match args with
  | [] =>
      ∀ home d,
        os_env (os st) !! "HOME" = Some home → k_chdir K cwd home = Some d →
        ∃ st', execute a p st = Ret tt st' ∧ os_cwd (os st') = d ∧
               os_log (os st') = os_log (os st)
  | [arg] =>
      k_exists K cwd arg = false ∨ k_chdir K cwd arg = None →
      ∃ st' e, execute a p st = Ret tt st' ∧ os_cwd (os st') = cwd ∧
               os_log (os st') = (os_log (os st) ++ [ErrNo e])%list
  | _ =>
      ∃ st', execute a p st = Ret tt st' ∧ os_cwd (os st') = cwd ∧
             os_log (os st') = (os_log (os st) ++ [ErrNo E2BIG])%list
  end.
Proof.
  intros Hc Hargv K cwd. rewrite (execute_cd _ _ _ _ Hargv).
  unfold well_counted in Hc. rewrite Hargv in Hc.
  unfold builtin_cd.
  destruct args as [|arg [|arg2 args]].
  - change (p_n_tokens p = 2) in Hc. rewrite Hc.
    change (3 <=? 2 - 1) with false. change (2 - 1 =? 2) with false.
    cbv iota. intros home d Hhome Hdir.
    assert (Hexp : result_of (expand "${HOME}" st) = Val (Some home)).
    { change "${HOME}" with ("${" +:+ "HOME" +:+ "}" +:+ "").
      rewrite expand_named_parameter by (reflexivity || simpl; lia).
      rewrite Hhome, expand_empty. cbn. now rewrite str_app_nil_r. }
    unfold bind at 1. rewrite (expand_ret _ _ _ Hexp).
    unfold chdir, bind, get. cbn [os set_base set_prev].
    fold K cwd. rewrite Hdir. cbn. eauto.
  - change (p_n_tokens p = 3) in Hc. rewrite Hc.
    change (3 <=? 3 - 1) with false. change (3 - 1 =? 2) with true.
    cbv iota. rewrite (argv_of_token1 _ _ _ _ Hargv).
    intros Hbad. unfold access_F, chdir, bind, get. fold K cwd.
    destruct (k_exists K cwd arg) eqn:Hex; cbn.
    + destruct Hbad as [Hbad|Hbad]; [discriminate|].
      fold K cwd. rewrite Hbad. cbn. eauto.
    + eauto.
  - cbn [length] in Hc.
    destruct (Z.leb_spec 3 (p_n_tokens p - 1)); [|lia]. cbn. eauto.
Qed.

Lemma cd_builtin_witness :
  ∃ st', execute sample_answers cd_parse sample_shell = Ret tt st' ∧
         os_cwd (os st') = "/home/u" ∧
         os_log (os st') = os_log (os sample_shell).
Proof.
  apply (cd_builtin sample_answers cd_parse [] sample_shell eq_refl eq_refl
           "/home/u" "/home/u"); reflexivity.
Defined.

Example cd_missing_line :
  (λ s, (os_cwd (os s), os_log (os s))) <$>
    final_state (run_line sample_answers "cd /nonexistent-path" sample_shell)
  = Some ("/tmp", [ErrNo ENOTDIR]).
Proof. vm_compute. reflexivity. Qed.
(** ** wordsplit *)

Lemma isspace_is_space (a : ascii) : isspace a = Ascii.is_space a.
Proof. destruct a as [[] [] [] [] [] [] [] []]; reflexivity. Qed.

Lemma cursor_start (line : string) : at_cursor (line_buffer line) 0 line.
Proof. reflexivity. Qed.

Section Cursor.

Variable buf : list ascii.

Lemma cursor_read (c : nat) (s : string) (st : shell) :
  at_cursor buf c s → read_line buf c st = Ret (deref s) st.
Proof.
  unfold at_cursor, read_line. intros H.
  assert (Hl : buf !! c = Some (deref s)).
  { rewrite <- (Nat.add_0_r c), <- lookup_drop, H. now destruct s. }
  now rewrite Hl.
Qed.

Lemma cursor_next (c : nat) (a : ascii) (r : string) :
  at_cursor buf c (String a r) → at_cursor buf (S c) r.
Proof.
  unfold at_cursor. intros H.
  change (S c) with (1 + c)%nat. rewrite Nat.add_comm, <- drop_drop, H.
  reflexivity.
Qed.

Lemma cursor_past_end (c : nat) (st : shell) :
  at_cursor buf c "" → read_line buf (S c) st = Undefined ReadPastLine st.
Proof.
  unfold at_cursor, read_line. intros H.
  assert (Hl : buf !! S c = None).
  { change (S c) with (1 + c)%nat.
    rewrite Nat.add_comm, <- lookup_drop, H. reflexivity. }
  now rewrite Hl.
Qed.

Lemma cursor_length (c : nat) (s : string) :
  at_cursor buf c s → (String.length s < length buf)%nat.
Proof.
  unfold at_cursor. intros H.
  assert (Hl : length (drop c buf) = S (String.length s)).
  { rewrite H, length_app. cbn [length].
    assert (length (list_ascii_of_string s) = String.length s)
      by (clear; induction s; simpl; congruence).
    lia. }
  rewrite length_drop in Hl. lia.
Qed.

Lemma cursor_fuel (c : nat) (s : string) :
  at_cursor buf c s → (String.length s < line_fuel buf)%nat.
Proof. intros H%cursor_length. unfold line_fuel. lia. Qed.

End Cursor.

Lemma skip_space_spec (s : string) : ∀ (buf : list ascii) (c fuel : nat)
    (st : shell),
  at_cursor buf c s → (String.length s < fuel)%nat →
  ∃ c', skip_space fuel buf c st = Ret c' st ∧
        at_cursor buf c' (skip_spaces s).
Proof.
  induction s as [|a r IH]; intros buf c fuel st Hc Hf.
  all: destruct fuel as [|f]; [lia|].
  all: cbn [skip_space]; unfold bind; rewrite (cursor_read _ _ _ _ Hc).
  - exists c. split; [reflexivity | exact Hc].
  - cbn [deref skip_spaces]. destruct (isspace a) eqn:Ha.
    + rewrite andb_true_r.
      destruct (Ascii.eqb_spec a NUL) as [->|_]; [discriminate|]. cbn [negb].
      apply IH; [now apply cursor_next in Hc | simpl in Hf; lia].
    + rewrite andb_false_r. exists c. split; [reflexivity | exact Hc].
Qed.

Lemma set_words_same (st : shell) : set_words (words st) st = st.
Proof. now destruct st. Qed.

Lemma span_word_length (s : string) :
  (String.length (snd (span_word s)) <= String.length s)%nat.
Proof.
  induction s as [|a r IH]; cbn [span_word]; [simpl; lia|].
  destruct (isspace a); [simpl; lia|].
  destruct (span_word r) as [w r']. simpl in *. lia.
Qed.

Lemma span_word_plain (s : string) :
  plain s = true → plain (snd (span_word s)) = true.
Proof.
  induction s as [|a r IH]; cbn [span_word plain]; [reflexivity|].
  intros H. destruct (isspace a); [exact H|].
  apply andb_true_iff in H as [_ H].
  destruct (span_word r) as [w r']. auto.
Qed.

Lemma read_word_spec (s : string) : ∀ (buf : list ascii) (c fuel wind : nat)
    (w : string) (st : shell),
  at_cursor buf c s → plain s = true → (String.length s < fuel)%nat →
  ∃ c', read_word fuel buf c wind w st =
        Ret c' (match fst (span_word s) with
                | EmptyString => st
                | run => set_words (<[wind := Some (w +:+ run)]> (words st)) st
                end) ∧
        at_cursor buf c' (snd (span_word s)).
Proof.
  induction s as [|a r IH]; intros buf c fuel wind w st Hc Hp Hf.
  all: destruct fuel as [|f]; [lia|].
  all: cbn [read_word]; unfold bind at 1; rewrite (cursor_read _ _ _ _ Hc).
  - exists c. split; [reflexivity | exact Hc].
  - cbn [deref span_word]. cbn [plain] in Hp.
    apply andb_true_iff in Hp as [Hp Hpr]. apply andb_true_iff in Hp as [Hn Hb].
    rewrite Hn. destruct (isspace a) eqn:Ha; cbn [negb andb].
    + exists c. split; [reflexivity | exact Hc].
    + apply negb_true_iff in Hb. rewrite Hb.
      unfold bind at 1. rewrite (cursor_read _ _ _ _ Hc). cbn [deref].
      unfold bind at 1. unfold store_char at 1. unfold bind at 1. cbn [modify ret].
      apply cursor_next in Hc.
      destruct (IH buf (S c) f wind (w +:+ String a "")
                  (set_words (<[wind:=Some (w +:+ String a "")]> (words st)) st)
                  Hc Hpr ltac:(simpl in Hf; lia)) as (c' & Hrun & Hc').
      exists c'. rewrite Hrun. destruct (span_word r) as [run rest].
      cbn [fst snd] in *. split; [|exact Hc']. f_equal.
      destruct run as [|b run]; [reflexivity|].
      cbn [words set_words]. rewrite list_insert_insert_eq.
      unfold set_words. cbn. now rewrite str_app_assoc.
Qed.

(** *** The words of a line *)

Lemma rev_app_app (s t acc : string) :
  String.rev_app (s +:+ t) acc = String.rev_app t (String.rev_app s acc).
Proof.
  revert acc. induction s as [|a s IH]; intros acc; [reflexivity|].
  rewrite str_app_cons. cbn [String.rev_app]. apply IH.
Qed.

Lemma rev_app_rev_app (s acc acc' : string) :
  String.rev_app (String.rev_app s acc) acc' =
  String.rev_app acc (s +:+ acc').
Proof.
  revert acc acc'. induction s as [|a s IH]; intros acc acc'; [reflexivity|].
  cbn [String.rev_app]. rewrite IH. reflexivity.
Qed.

Lemma rev_involutive (s : string) : String.rev (String.rev s) = s.
Proof.
  unfold String.rev. rewrite rev_app_rev_app. cbn. apply str_app_nil_r.
Qed.

Lemma rev_snoc (s : string) (a : ascii) :
  String.rev (s +:+ String a "") = String a (String.rev s).
Proof. unfold String.rev. now rewrite rev_app_app. Qed.

Lemma words_go_span (s : string) : ∀ w : string,
  String.words_go (cur_of w) s =
  (match w +:+ fst (span_word s) with
   | EmptyString => []
   | word => [word]
   end ++ String.words_go None (snd (span_word s)))%list.
Proof.
  induction s as [|a r IH]; intros w.
  - cbn [String.words_go span_word fst snd]. rewrite str_app_nil_r.
    destruct w as [|b w]; [reflexivity|].
    cbn [cur_of fmap option_fmap option_map option_list].
    now rewrite rev_involutive.
  - cbn [String.words_go span_word]. rewrite <- isspace_is_space.
    destruct (isspace a) eqn:Ha.
    + cbn [fst snd String.words_go]. rewrite <- isspace_is_space, Ha.
      rewrite str_app_nil_r.
      destruct w as [|b w]; [reflexivity|].
      cbn [cur_of fmap option_fmap option_map option_list].
      now rewrite rev_involutive.
    + assert (Hcur : Some (from_option (String a) (String a "") (cur_of w))
                     = cur_of (w +:+ String a "")).
      { destruct w as [|b w]; [reflexivity|].
        cbn [cur_of from_option]. rewrite str_app_cons. cbn [cur_of].
        now rewrite <- str_app_cons, rev_snoc. }
      rewrite Hcur, IH. destruct (span_word r) as [run rest].
      cbn [fst snd]. now rewrite str_app_assoc.
Qed.

Lemma words_skip_spaces (s : string) :
  String.words_go None s = String.words_go None (skip_spaces s).
Proof.
  induction s as [|a r IH]; [reflexivity|].
  cbn [String.words_go skip_spaces]. rewrite <- isspace_is_space.
  destruct (isspace a) eqn:Ha; [exact IH|].
  cbn [String.words_go]. now rewrite <- isspace_is_space, Ha.
Qed.

Lemma skip_spaces_idem (s : string) :
  skip_spaces (skip_spaces s) = skip_spaces s.
Proof.
  induction s as [|a r IH]; [reflexivity|]. cbn [skip_spaces].
  destruct (isspace a) eqn:Ha; [exact IH|]. cbn [skip_spaces]. now rewrite Ha.
Qed.

Lemma skip_spaces_plain (s : string) :
  plain s = true → plain (skip_spaces s) = true.
Proof.
  induction s as [|a r IH]; [reflexivity|]. cbn [skip_spaces plain].
  intros H. destruct (isspace a); [|exact H].
  apply andb_true_iff in H as [_ H]. auto.
Qed.

Lemma skip_spaces_length (s : string) :
  (String.length (skip_spaces s) <= String.length s)%nat.
Proof.
  induction s as [|a r IH]; [reflexivity|]. cbn [skip_spaces].
  destruct (isspace a); simpl; lia.
Qed.

Lemma split_nothing (wind : nat) (st : shell) :
  Ret wind st =
  Ret (wind + length (@nil string))%nat
      (set_words (store_all wind [] (words st)) st).
Proof. cbn [length store_all]. now rewrite Nat.add_0_r, set_words_same. Qed.

Lemma split_loop_spec (n : nat) : ∀ (s : string) (buf : list ascii)
    (c wind fuel : nat) (st : shell),
  (String.length s <= n)%nat → (String.length s < fuel)%nat →
  at_cursor buf c s → plain s = true → skip_spaces s = s →
  (wind <= MAX_WORDS st)%nat →
  split_loop fuel buf c wind st =
  let out := take (MAX_WORDS st - wind) (until_comment (String.words s)) in
  Ret (wind + length out)%nat (set_words (store_all wind out (words st)) st).
Proof.
  induction n as [|n IH]; intros s buf c wind fuel st Hn Hf Hc Hp Hsk Hw.
  all: destruct fuel as [|f]; [lia|].
  all: cbn [split_loop]; unfold bind at 1; rewrite (cursor_read _ _ _ _ Hc).
  all: destruct s as [|a r];
    [cbn [deref]; change (Ascii.eqb NUL NUL) with true; cbv iota zeta;
     change (String.words "") with (@nil string); cbn [until_comment];
     rewrite take_nil; exact (split_nothing _ _)|].
  { simpl in Hn. lia. }
  cbn [deref]. pose proof Hp as Hp0. cbn [plain] in Hp.
  apply andb_true_iff in Hp as [Hp Hpr]. apply andb_true_iff in Hp as [Hnul Hb].
  destruct (Ascii.eqb a NUL); [discriminate|].
  unfold bind at 1. cbn [get].
  assert (Hsp : isspace a = false).
  { cbn [skip_spaces] in Hsk. destruct (isspace a); [|reflexivity].
    exfalso. pose proof (skip_spaces_length r) as Hl. rewrite Hsk in Hl.
    simpl in Hl. lia. }
  pose proof (words_go_span (String a r) "") as Hwords.
  rewrite str_app_nil_l in Hwords. cbn [cur_of] in Hwords.
  fold (String.words (String a r)) in Hwords.
  destruct (read_word_spec (String a r) buf c (line_fuel buf) wind "" st Hc Hp0
              (cursor_fuel _ _ _ Hc)) as (c1 & Hrun & Hc1).
  pose proof (span_word_length (String a r)) as Hlen.
  pose proof (span_word_plain (String a r) Hp0) as Hplain.
  cbn [span_word] in Hwords, Hrun, Hc1, Hlen, Hplain. rewrite Hsp in *.
  destruct (span_word r) as [run rest] eqn:Hspan.
  cbn [fst snd] in *. rewrite str_app_nil_l in Hrun.
  destruct (Nat.eqb_spec wind (MAX_WORDS st)) as [->|Hne].
  { cbv zeta. rewrite Nat.sub_diag, take_0. exact (split_nothing _ _). }
  rewrite Hwords. cbn [until_comment app]. unfold begins_hash. cbn [deref].
  destruct (Ascii.eqb a "#").
  { cbv zeta. rewrite take_nil. exact (split_nothing _ _). }
  unfold bind at 1. rewrite Hrun.
  destruct (skip_space_spec rest buf c1 (line_fuel buf)
              (set_words (<[wind:=Some (String a run)]> (words st)) st) Hc1
              (cursor_fuel _ _ _ Hc1)) as (c2 & Hskip & Hc2).
  unfold bind at 1. rewrite Hskip.
  pose proof (skip_spaces_length rest) as Hl2.
  pose proof (span_word_length r) as Hl3. rewrite Hspan in Hl3. cbn [snd] in Hl3.
  rewrite (IH (skip_spaces rest));
    [|simpl in *; lia | simpl in *; lia | exact Hc2
     | now apply skip_spaces_plain | apply skip_spaces_idem
     | unfold MAX_WORDS in *; cbn [words set_words]; rewrite length_insert; lia].
  unfold String.words. rewrite <- words_skip_spaces.
  unfold MAX_WORDS. cbn [words set_words]. rewrite length_insert.
  fold (MAX_WORDS st).
  replace (MAX_WORDS st - wind)%nat with (S (MAX_WORDS st - S wind)) by lia.
  cbn [take store_all length]. cbv zeta. f_equal. lia.
Qed.

Lemma store_all_length (ws : list string) : ∀ i (arr : list (option string)),
  length (store_all i ws arr) = length arr.
Proof.
  induction ws as [|w r IH]; intros i arr; [reflexivity|].
  cbn [store_all]. now rewrite IH, length_insert.
Qed.

Lemma store_all_take (ws : list string) : ∀ i (arr : list (option string)),
  (i + length ws <= length arr)%nat →
  take (i + length ws) (store_all i ws arr) = (take i arr ++ (Some <$> ws))%list.
Proof.
  induction ws as [|w r IH]; intros i arr Hlen.
  - cbn [store_all length fmap list_fmap]. now rewrite Nat.add_0_r, app_nil_r.
  - cbn [store_all length] in *.
    replace (i + S (length r))%nat with (S i + length r)%nat by lia.
    rewrite IH by (rewrite length_insert; lia).
    rewrite (take_S_r _ _ (Some w)) by (apply list_lookup_insert_eq; lia).
    rewrite take_insert_ge by lia.
    rewrite fmap_cons, <- List.app_assoc. reflexivity.
Qed.

Lemma store_all_drop (ws : list string) : ∀ i (arr : list (option string)),
  drop (i + length ws) (store_all i ws arr) = drop (i + length ws) arr.
Proof.
  induction ws as [|w r IH]; intros i arr; [reflexivity|].
  cbn [store_all length].
  replace (i + S (length r))%nat with (S i + length r)%nat by lia.
  rewrite IH. apply drop_insert_lt. lia.
Qed.

(** C9, for lines without backslash (and without NUL, as in any C
    string): [wordsplit] produces the runs of characters other than white
    space, in order, up to the first word that begins with [#] and at most
    [MAX_WORDS] of them. *)
Theorem wordsplit_plain_lines (line : string) (st : shell) :
  plain line = true → splits_as_specified line st.
Proof.
  intros Hp. unfold splits_as_specified, split_spec, wordsplit. cbv zeta.
  destruct (skip_space_spec line (line_buffer line) 0
              (line_fuel (line_buffer line)) st (cursor_start line)
              (cursor_fuel _ _ _ (cursor_start line))) as (c & Hskip & Hc).
  unfold bind. rewrite Hskip.
  rewrite (split_loop_spec (String.length (skip_spaces line))
             (skip_spaces line) _ c 0%nat _ st (le_n _)
             (cursor_fuel _ _ _ Hc) Hc (skip_spaces_plain _ Hp)
             (skip_spaces_idem _)) by lia.
  cbv zeta. unfold String.words. rewrite <- words_skip_spaces.
  rewrite Nat.sub_0_r.
  set (out := take (MAX_WORDS st) (until_comment (String.words_go None line))).
  assert (Hlen : (length out <= length (words st))%nat).
  { subst out. rewrite length_take. unfold MAX_WORDS. lia. }
  eexists. split; [reflexivity|]. cbn [words set_words Nat.add].
  split.
  - now rewrite (store_all_take out 0).
  - apply (store_all_drop out 0).
Qed.

Lemma wordsplit_plain_lines_witness :
  plain "echo a b  c #d" = true ∧
  splits_as_specified "echo a b  c #d" sample_shell.
Proof.
  split; [reflexivity|].
  apply (wordsplit_plain_lines "echo a b  c #d" sample_shell). reflexivity.
Defined.

(** C9 does not extend to lines where a backslash hides white space: the
    line [a\ b] has the runs [a\] and [b], and [wordsplit] makes the one
    word [a b] of it. *)
Lemma wordsplit_escape_counterexample :
  ¬ splits_as_specified "a\ b" sample_shell.
Proof.
  unfold splits_as_specified. cbv zeta.
  change (split_spec (MAX_WORDS sample_shell) "a\ b") with ["a\"; "b"].
  intros (st' & Hrun & _).
  assert (H : result_of (wordsplit "a\ b" sample_shell) = Val 2%nat)
    by now rewrite Hrun.
  vm_compute in H. discriminate.
Qed.

Example wordsplit_escape_result :
  (λ s, take 2 (words s)) <$> final_state (wordsplit "a\ b" sample_shell)
  = Some [Some "a b"; None].
Proof. vm_compute. reflexivity. Qed.

Example wordsplit_echo :
  split_spec 1024 "echo a b  c" = ["echo"; "a"; "b"; "c"].
Proof. reflexivity. Qed.

Example wordsplit_comment_only :
  result_of (wordsplit "#comment and more" sample_shell) = Val 0%nat.
Proof. vm_compute. reflexivity. Qed.

(** *** A backslash at the end of the line *)

Lemma result_of_bind_undef {A B} (m : M A) (k : A → M B) (st : shell)
    (u : ub) :
  result_of (m st) = Undef u → result_of (bind m k st) = Undef u.
Proof. unfold bind. destruct (m st); cbn; congruence. Qed.

Lemma read_word_dangling (w : string) : ∀ (buf : list ascii)
    (c fuel wind : nat) (acc : string) (st : shell),
  at_cursor buf c (w +:+ "\") → plain w = true → fst (span_word w) = w →
  (String.length w + 1 < fuel)%nat →
  result_of (read_word fuel buf c wind acc st) = Undef ReadPastLine.
Proof.
  induction w as [|a r IH]; intros buf c fuel wind acc st Hc Hp Hw Hf.
  all: destruct fuel as [|f]; [lia|].
  all: rewrite ?str_app_nil_l, ?str_app_cons in Hc.
  all: cbn [read_word]; unfold bind at 1; rewrite (cursor_read _ _ _ _ Hc).
  - cbn [deref].
    change (negb (Ascii.eqb "\" NUL) && negb (isspace "\")) with true.
    change (Ascii.eqb "\" "\") with true. cbv iota.
    apply cursor_next in Hc.
    unfold bind at 1. rewrite (cursor_read _ _ _ _ Hc).
    unfold bind at 1. unfold store_char at 1. unfold bind at 1.
    cbn [modify ret].
    destruct f as [|f]; [simpl in Hf; lia|].
    cbn [read_word]. apply result_of_bind_undef.
    now rewrite (cursor_past_end _ _ _ Hc).
  - cbn [deref].
    cbn [plain] in Hp. apply andb_true_iff in Hp as [Hp Hpr].
    apply andb_true_iff in Hp as [Hn Hb].
    cbn [span_word] in Hw.
    destruct (isspace a) eqn:Ha; [discriminate|].
    destruct (span_word r) as [run rest] eqn:Hspan. cbn [fst] in Hw.
    rewrite Hn. cbn [negb andb]. apply negb_true_iff in Hb. rewrite Hb.
    unfold bind at 1. rewrite (cursor_read _ _ _ _ Hc). cbn [deref].
    unfold bind at 1. unfold store_char at 1. unfold bind at 1.
    cbn [modify ret].
    apply cursor_next in Hc.
    apply IH; [exact Hc | exact Hpr | cbn [fst]; congruence | simpl in Hf; lia].
Qed.

(** C10. The code departs from the specification here: when the last
    word of the line ends in a backslash, the cursor steps over the
    terminating NUL and the next test of the loop reads behind the line. *)
Theorem wordsplit_trailing_backslash (w : string) (st : shell) :
  plain w = true → fst (span_word w) = w → begins_hash w = false →
  (0 < MAX_WORDS st)%nat →
  result_of (wordsplit (w +:+ "\") st) = Undef ReadPastLine.
Proof.
  intros Hp Hw Hh Hmax. unfold wordsplit. cbv zeta.
  set (line := w +:+ "\"). set (buf := line_buffer line).
  assert (Hfirst : isspace (deref line) = false ∧
                   Ascii.eqb (deref line) NUL = false ∧
                   Ascii.eqb (deref line) "#" = false).
  { subst line. destruct w as [|a r]; [now rewrite str_app_nil_l|].
    rewrite str_app_cons. cbn [deref]. cbn [span_word] in Hw.
    cbn [plain] in Hp. apply andb_true_iff in Hp as [Hp _].
    apply andb_true_iff in Hp as [Hn _]. apply negb_true_iff in Hn.
    destruct (isspace a); [discriminate|]. auto. }
  destruct Hfirst as (Hsp & Hnul & Hhash).
  assert (Hskip : skip_spaces line = line).
  { destruct line as [|a r]; [reflexivity|]. cbn [deref] in Hsp.
    cbn [skip_spaces]. now rewrite Hsp. }
  destruct (skip_space_spec line buf 0 (line_fuel buf) st (cursor_start line)
              (cursor_fuel _ _ _ (cursor_start line))) as (c & Hrun & Hc).
  rewrite Hskip in Hc. unfold bind at 1. rewrite Hrun.
  pose proof (cursor_length _ _ _ Hc) as Hlen.
  assert (Hll : String.length line = (String.length w + 1)%nat)
    by (subst line; now rewrite str_app_length).
  unfold line_fuel at 1. cbn [split_loop]. unfold bind at 1. rewrite (cursor_read _ _ _ _ Hc), Hnul.
  unfold bind at 1. cbn [get].
  destruct (Nat.eqb_spec 0 (MAX_WORDS st)); [lia|]. rewrite Hhash.
  apply result_of_bind_undef.
  apply (read_word_dangling w);
    [exact Hc | exact Hp | exact Hw | unfold line_fuel; lia].
Qed.

Lemma wordsplit_trailing_backslash_witness :
  result_of (wordsplit "ls\" sample_shell) = Undef ReadPastLine.
Proof.
  apply (wordsplit_trailing_backslash "ls" sample_shell);
    [reflexivity | reflexivity | reflexivity | vm_compute; lia].
Defined.
(** ** The parsing loop *)

Lemma bind_ret_inv {A B} (m : M A) (k : A → M B) (st st' : shell) (b : B) :
  bind m k st = Ret b st' →
  ∃ a s1, m st = Ret a s1 ∧ k a s1 = Ret b st'.
Proof. unfold bind. destruct (m st); try discriminate. eauto. Qed.

Lemma bind_ret {A B} (m : M A) (k : A → M B) (st s1 : shell) (a : A) :
  m st = Ret a s1 → bind m k st = k a s1.
Proof. unfold bind. now intros ->. Qed.

Lemma word_slot_ret (i : Z) (st st' : shell) (slot : option string) :
  word_slot i st = Ret slot st' →
  st' = st ∧ 0 <= i ∧ words st !! Z.to_nat i = Some slot.
Proof.
  unfold word_slot, bind, get, ret, undefined.
  destruct (Z.leb_spec 0 i) as [H0|H0]; cbn [andb]; [|discriminate].
  destruct (i <? Z.of_nat (MAX_WORDS st)); [|discriminate].
  destruct (words st !! Z.to_nat i); [|discriminate].
  intros H; inversion H; subst. auto.
Qed.

Lemma word_slot_holds (i : Z) (st : shell) (slot : option string) :
  0 <= i → words st !! Z.to_nat i = Some slot →
  word_slot i st = Ret slot st.
Proof.
  intros Hi Hl. unfold word_slot, bind, get, ret.
  destruct (Z.leb_spec 0 i); [|lia]. cbn [andb].
  pose proof (lookup_lt_Some _ _ _ Hl) as Hlt.
  destruct (Z.ltb_spec i (Z.of_nat (MAX_WORDS st)));
    [|unfold MAX_WORDS in *; lia].
  now rewrite Hl.
Qed.

Lemma word_at_holds (i : Z) (st : shell) (w : string) :
  0 <= i → words st !! Z.to_nat i = Some (Some w) →
  word_at i st = Ret w st.
Proof.
  intros Hi Hl. unfold word_at, bind. now rewrite (word_slot_holds _ _ _ Hi Hl).
Qed.

(** What [fopen] for writing and [chmod] do to a successful
    [open_write]: the target is empty afterwards, every other file is as
    it was, and nothing but the operating system state changed. *)
Lemma open_write_ret (path : string) (st st' : shell) :
  open_write (Some path) st = Ret tt st' →
  words st' = words st ∧ last_status st' = last_status st ∧
  last_bg_pid st' = last_bg_pid st ∧
  os_log (os st') = os_log (os st) ∧ os_cwd (os st') = os_cwd (os st) ∧
  file_empty path st' ∧
  (∀ t, t ≠ path → os_files (os st') !! t = os_files (os st) !! t).
Proof.
  unfold open_write, open_out, access_W, fopen_out, chmod, file_empty.
  unfold bind, get, ret, set_errno, report_errno, modify_os, modify, exit.
  destruct (os_files (os st) !! path) as [f|] eqn:Hf.
  - destruct (owner_writable f) eqn:Hw; cbn; rewrite ?Hf, ?Hw; cbn.
    + intros H; inversion H; subst; cbn.
      repeat split; try reflexivity.
      * eexists. rewrite lookup_insert_eq. split; reflexivity.
      * intros t Ht. now rewrite lookup_insert_ne.
    + discriminate.
  - cbn. rewrite ?Hf.
    destruct (k_creatable (os_kernel (os st)) path); cbn; [|discriminate].
    rewrite lookup_insert_eq. cbn.
    intros H; inversion H; subst; cbn.
    repeat split; try reflexivity.
    * eexists. rewrite lookup_insert_eq. split; reflexivity.
    * intros t Ht. now rewrite !lookup_insert_ne.
Qed.

Lemma open_write_keeps_empty (path t : string) (st st' : shell) :
  open_write (Some path) st = Ret tt st' →
  file_empty t st → file_empty t st'.
Proof.
  intros Hrun Hempty.
  destruct (open_write_ret _ _ _ Hrun) as (_ & _ & _ & _ & _ & Hp & Hother).
  destruct (decide (t = path)) as [->|Hne]; [exact Hp|].
  unfold file_empty in *. now rewrite Hother.
Qed.

Lemma store_token_ret (idx : Z) (v : option string) (p p' : parse_state)
    (st st' : shell) :
  store_token idx v p st = Ret p' st' →
  st' = st ∧ 0 <= idx < Z.of_nat (length (p_tokens p)) ∧
  p' = Parse (p_i p) (p_n_tokens p) (p_op p) (p_bg p) (p_read p) (p_write p)
         (p_append p) (<[Z.to_nat idx := v]> (p_tokens p)).
Proof.
  unfold store_token, ret, undefined.
  destruct (Z.leb_spec 0 idx) as [H0|H0]; cbn [andb]; [|discriminate].
  destruct (Z.ltb_spec idx (Z.of_nat (length (p_tokens p)))) as [H1|H1];
    [|discriminate].
  intros H; inversion H; subst. repeat split; lia.
Qed.

(** One turn of the loop changes nothing but files, and keeps an empty
    file empty. *)
Lemma parse_word_frame (n : nat) (w t : string) (p p' : parse_state)
    (st st' : shell) :
  parse_word n w p st = Ret p' st' →
  words st' = words st ∧ (file_empty t st → file_empty t st') ∧
  p_i p < p_i p' ∧ length (p_tokens p') = length (p_tokens p).
Proof.
  unfold parse_word.
  destruct ((p_i p =? Z.of_nat n - 1) && String.eqb w "&").
  { unfold ret. intros H; inversion H; subst; cbn. repeat split; auto; lia. }
  destruct (String.eqb w ">").
  { intros (slot & s1 & Hslot & H)%bind_ret_inv.
    apply word_slot_ret in Hslot as (-> & _ & _).
    apply bind_ret_inv in H as ([] & s2 & Hopen & H).
    inv_ret H; cbn.
    destruct slot as [path|]; [|discriminate].
    destruct (open_write_ret _ _ _ Hopen) as (Hw & _).
    repeat split; auto; try lia. intros He.
    eapply open_write_keeps_empty; eauto. }
  destruct (String.eqb w "<").
  { intros (slot & s1 & Hslot & H)%bind_ret_inv.
    apply word_slot_ret in Hslot as (-> & _ & _).
    inv_ret H; cbn. repeat split; auto; lia. }
  destruct (String.eqb w ">>").
  { intros (slot & s1 & Hslot & H)%bind_ret_inv.
    apply word_slot_ret in Hslot as (-> & _ & _).
    inv_ret H; cbn. repeat split; auto; lia. }
  intros (p1 & s1 & Hstore & H)%bind_ret_inv.
  apply store_token_ret in Hstore as (-> & _ & ->).
  inv_ret H; cbn.
  rewrite length_insert. repeat split; auto; lia.
Qed.

Lemma parse_loop_frame (fuel : nat) : ∀ (n : nat) (t : string)
    (p p' : parse_state) (st st' : shell),
  parse_loop fuel n p st = Ret p' st' →
  words st' = words st ∧ (file_empty t st → file_empty t st').
Proof.
  induction fuel as [|f IH]; intros n t p p' st st'; cbn [parse_loop].
  all: destruct (p_i p <? Z.of_nat n);
    [|unfold ret; intros H; inversion H; subst; auto].
  - discriminate.
  - intros (w & s1 & Hw & H)%bind_ret_inv.
    apply bind_ret_inv in H as (p1 & s2 & Hstep & Hrest).
    unfold word_at in Hw. apply bind_ret_inv in Hw as (slot & s0 & Hslot & Hw).
    apply word_slot_ret in Hslot as (-> & _ & _).
    destruct slot; [|discriminate]. inv_ret Hw.
    destruct (parse_word_frame _ _ t _ _ _ _ Hstep) as (Hw1 & He1 & _).
    destruct (IH _ t _ _ _ _ Hrest) as (Hw2 & He2).
    split; [congruence | auto].
Qed.

Lemma holds_from_tail (st : shell) (i : nat) (w : string)
    (ws : list string) :
  holds_from st i (w :: ws) → holds_from st (S i) ws.
Proof.
  intros H k x Hk. specialize (H (S k) x Hk).
  now replace (S i + k)%nat with (i + S k)%nat by lia.
Qed.

Lemma holds_from_head (st : shell) (i : nat) (w : string)
    (ws : list string) :
  holds_from st i (w :: ws) → words st !! i = Some (Some w).
Proof.
  intros H. specialize (H 0%nat w eq_refl). now rewrite Nat.add_0_r in H.
Qed.

Lemma holds_from_words (st st' : shell) (i : nat) (ws : list string) :
  words st' = words st → holds_from st i ws → holds_from st' i ws.
Proof. unfold holds_from. intros ->. auto. Qed.

Lemma is_redirect_false (w : string) :
  is_redirect w = false →
  String.eqb w ">" = false ∧ String.eqb w "<" = false ∧
  String.eqb w ">>" = false.
Proof.
  unfold is_redirect.
  destruct (String.eqb w ">"), (String.eqb w "<"), (String.eqb w ">>");
    cbn; intros; try discriminate; auto.
Qed.

Lemma is_redirect_not_amp (w : string) :
  is_redirect w = true → String.eqb w "&" = false.
Proof.
  unfold is_redirect.
  destruct (String.eqb_spec w ">") as [->|]; [reflexivity|].
  destruct (String.eqb_spec w "<") as [->|]; [reflexivity|].
  destruct (String.eqb_spec w ">>") as [->|]; [reflexivity|]. discriminate.
Qed.

(** The loop, started in front of whole items that are followed by [>]
    and a word, opens that word for writing. *)
Lemma parse_loop_reaches (pre : list string) : items pre →
  ∀ (post : list string) (target : string) (fuel n : nat)
    (p p' : parse_state) (st st' : shell),
  0 <= p_i p →
  holds_from st (Z.to_nat (p_i p)) (pre ++ ">" :: target :: post) →
  p_i p + Z.of_nat (length (pre ++ ">" :: target :: post)) <= Z.of_nat n →
  parse_loop fuel n p st = Ret p' st' →
  file_empty target st'.
Proof.
  induction 1 as [|w ws Hw Hitems IH|o t ws Ho Hitems IH];
    intros post target fuel n p p' st st' Hi Hholds Hn Hrun.
  all: destruct fuel as [|f]; cbn [parse_loop] in Hrun.
  all: cbn [app length] in Hn; rewrite ?length_app in Hn; cbn [length] in Hn.
  all: destruct (Z.ltb_spec (p_i p) (Z.of_nat n)) as [Hlt|Hge]; try lia.
  all: try discriminate.
  all: pose proof (holds_from_head _ _ _ _ Hholds) as Hhead.
  all: unfold bind at 1 in Hrun; rewrite (word_at_holds _ _ _ Hi Hhead) in Hrun.
  all: apply bind_ret_inv in Hrun as (p1 & s1 & Hstep & Hrest).
  all: unfold parse_word in Hstep.
  all: destruct (Z.eqb_spec (p_i p) (Z.of_nat n - 1)) as [|_]; try lia.
  all: cbn [andb] in Hstep.
  - (* the operator itself *)
    cbn in Hstep.
    apply bind_ret_inv in Hstep as (slot & s0 & Hslot & Hstep).
    apply word_slot_ret in Hslot as (-> & _ & Hslot).
    pose proof (Hholds 1%nat target eq_refl) as Htarget.
    replace (Z.to_nat (p_i p + 1)) with (Z.to_nat (p_i p) + 1)%nat in Hslot
      by lia.
    rewrite Htarget in Hslot. inversion Hslot; subst slot.
    apply bind_ret_inv in Hstep as ([] & s2 & Hopen & Hstep).
    inv_ret Hstep.
    destruct (open_write_ret _ _ _ Hopen) as (_ & _ & _ & _ & _ & He & _).
    destruct (parse_loop_frame _ _ target _ _ _ _ Hrest) as (_ & Hkeep). auto.
  - (* a plain word *)
    destruct (is_redirect_false _ Hw) as (H1 & H2 & H3).
    rewrite H1, H2, H3 in Hstep.
    apply bind_ret_inv in Hstep as (p2 & s0 & Hstore & Hstep).
    apply store_token_ret in Hstore as (-> & _ & ->).
    inv_ret Hstep. cbn in Hrest.
    refine (IH post target f n _ p' s1 st' _ _ _ Hrest); cbn [p_i];
      [lia | | rewrite length_app; cbn [length]; lia].
    replace (Z.to_nat (p_i p + 1)) with (S (Z.to_nat (p_i p))) by lia.
    now apply holds_from_tail in Hholds.
  - (* an operator with its word *)
    assert (Hnext : ∀ s, words s = words st →
              holds_from s (Z.to_nat (p_i p + 1 + 1))
                (ws ++ ">" :: target :: post)).
    { intros s Hs. apply (holds_from_words st); [exact Hs|].
      replace (Z.to_nat (p_i p + 1 + 1)) with (S (S (Z.to_nat (p_i p))))
        by lia.
      now apply holds_from_tail, holds_from_tail in Hholds. }
    unfold is_redirect in Ho.
    destruct (String.eqb o ">").
    { apply bind_ret_inv in Hstep as (slot & s0 & Hslot & Hstep).
      apply word_slot_ret in Hslot as (-> & _ & _).
      apply bind_ret_inv in Hstep as ([] & s2 & Hopen & Hstep).
      inv_ret Hstep.
      destruct slot as [path|]; [|discriminate].
      destruct (open_write_ret _ _ _ Hopen) as (Hwords & _).
      refine (IH post target f n _ p' s1 st' _ _ _ Hrest); cbn [p_i];
        [lia | auto | rewrite length_app; cbn [length]; lia]. }
    destruct (String.eqb o "<").
    { apply bind_ret_inv in Hstep as (slot & s0 & Hslot & Hstep).
      apply word_slot_ret in Hslot as (-> & _ & _).
      inv_ret Hstep.
      refine (IH post target f n _ p' s1 st' _ _ _ Hrest); cbn [p_i];
        [lia | auto | rewrite length_app; cbn [length]; lia]. }
    destruct (String.eqb o ">>"); [|discriminate].
    apply bind_ret_inv in Hstep as (slot & s0 & Hslot & Hstep).
    apply word_slot_ret in Hslot as (-> & _ & _).
    inv_ret Hstep.
    refine (IH post target f n _ p' s1 st' _ _ _ Hrest); cbn [p_i];
      [lia | auto | rewrite length_app; cbn [length]; lia].
Qed.

Lemma expand_status_returns (st : shell) :
  ∃ v, expand "$?" st = Ret (Some v) (set_base None (set_prev None st)).
Proof.
  eexists. apply expand_ret.
  rewrite (expand_token "$?" "?" "") by reflexivity.
  unfold subst_value.
  change (Ascii.eqb "?" "!") with false. change (Ascii.eqb "?" "$") with false.
  change (Ascii.eqb "?" "?") with true. cbv iota.
  rewrite expand_empty. reflexivity.
Qed.

Lemma expand_home_returns (st : shell) :
  ∃ v, expand "${HOME}" st = Ret (Some v) (set_base None (set_prev None st)).
Proof.
  eexists. apply expand_ret.
  change "${HOME}" with ("${" +:+ "HOME" +:+ "}" +:+ "").
  rewrite expand_named_parameter by (reflexivity || simpl; lia).
  rewrite expand_empty. reflexivity.
Qed.

(** The built-ins and the empty command leave every file alone. *)
Lemma builtin_keeps_files (a : answers) (p : parse_state) (st s : shell) :
  token p 0 = None ∨ token p 0 = Some "exit" ∨ token p 0 = Some "cd" →
  state_of (execute a p st) = Some s →
  os_files (os s) = os_files (os st).
Proof.
  unfold execute. intros [->|[->| ->]].
  - cbn. intros H; now inversion H.
  - cbn [String.eqb Ascii.eqb Bool.eqb]. cbv iota. unfold builtin_exit.
    destruct (3 <=? p_n_tokens p - 1).
    { cbn. intros H; now inversion H. }
    destruct (p_n_tokens p - 1 =? 2).
    { destruct (token p 1) as [arg|]; [|cbn; intros H; now inversion H].
      destruct (isdigit (deref arg)); cbn; intros H; now inversion H. }
    destruct (expand_status_returns st) as (v & Hv).
    unfold bind. rewrite Hv. cbn. intros H; now inversion H.
  - cbn [String.eqb Ascii.eqb Bool.eqb]. cbv iota. unfold builtin_cd.
    destruct (3 <=? p_n_tokens p - 1).
    { cbn. intros H; now inversion H. }
    destruct (p_n_tokens p - 1 =? 2).
    { destruct (token p 1) as [arg|]; [|cbn; intros H; now inversion H].
      unfold access_F, chdir, bind, get.
      destruct (k_exists _ _ _); cbn.
      - destruct (k_chdir _ _ _); cbn; intros H; now inversion H.
      - intros H; now inversion H. }
    destruct (expand_home_returns st) as (v & Hv).
    unfold bind at 1. rewrite Hv.
    unfold chdir, bind, get. cbn [os set_base set_prev].
    destruct (k_chdir _ _ _); cbn; intros H; now inversion H.
Qed.

(** *** What the parsing block counts *)

Lemma argv_of_fill (toks : list string) (k : nat) :
  argv_of ((Some <$> toks) ++ replicate k None) = toks.
Proof.
  induction toks as [|w r IH]; cbn.
  - now destruct k.
  - now rewrite IH.
Qed.

Lemma parse_inv_store (p : parse_state) (toks : list string) (w : string) :
  p_tokens p =
    ((Some <$> toks) ++ replicate (length (p_tokens p) - length toks) None)%list →
  (length toks < length (p_tokens p))%nat →
  <[length toks := Some w]> (p_tokens p) =
    ((Some <$> (toks ++ [w])) ++
     replicate (length (p_tokens p) - length (toks ++ [w])) None)%list.
Proof.
  intros Hshape Hlt. rewrite Hshape at 1.
  replace (length (p_tokens p) - length toks)%nat
    with (S (length (p_tokens p) - length (toks ++ [w]))).
  2:{ rewrite length_app. cbn [length]. lia. }
  cbn [replicate].
  replace (length toks) with (length (Some <$> toks) + 0)%nat at 1
    by (rewrite length_fmap; lia).
  rewrite insert_app_r. cbn. rewrite fmap_app, <- List.app_assoc. reflexivity.
Qed.

Lemma parse_word_inv (n : nat) (w : string) (p p' : parse_state)
    (st st' : shell) :
  parse_word n w p st = Ret p' st' → parse_inv p → parse_inv p'.
Proof.
  unfold parse_word. intros Hstep (toks & Hshape & Hlen & Hcount & Hidx).
  destruct ((p_i p =? Z.of_nat n - 1) && String.eqb w "&").
  { inv_ret Hstep.
    exists toks. cbn. repeat split; auto; lia. }
  destruct (String.eqb w ">").
  { apply bind_ret_inv in Hstep as (slot & s1 & _ & Hstep).
    apply bind_ret_inv in Hstep as ([] & s2 & _ & Hstep).
    inv_ret Hstep.
    exists toks. cbn. repeat split; auto; lia. }
  destruct (String.eqb w "<").
  { apply bind_ret_inv in Hstep as (slot & s1 & _ & Hstep).
    inv_ret Hstep.
    exists toks. cbn. repeat split; auto; lia. }
  destruct (String.eqb w ">>").
  { apply bind_ret_inv in Hstep as (slot & s1 & _ & Hstep).
    inv_ret Hstep.
    exists toks. cbn. repeat split; auto; lia. }
  apply bind_ret_inv in Hstep as (p1 & s1 & Hstore & Hstep).
  apply store_token_ret in Hstore as (-> & Hrange & ->).
  inv_ret Hstep. cbn.
  exists (toks ++ [w])%list. cbn [p_tokens p_n_tokens p_i p_op].
  rewrite Hidx, Nat2Z.id in *. rewrite length_insert.
  rewrite length_app. cbn [length].
  split; [|repeat split; lia].
  rewrite (parse_inv_store p toks w Hshape) by lia.
  now rewrite length_app.
Qed.

Lemma parse_loop_inv (fuel : nat) : ∀ (n : nat) (p p' : parse_state)
    (st st' : shell),
  parse_loop fuel n p st = Ret p' st' → parse_inv p → parse_inv p'.
Proof.
  induction fuel as [|f IH]; intros n p p' st st'; cbn [parse_loop].
  all: destruct (p_i p <? Z.of_nat n);
    [|unfold ret; intros H; inversion H; subst; auto].
  - discriminate.
  - intros (w & s1 & _ & H)%bind_ret_inv.
    apply bind_ret_inv in H as (p1 & s2 & Hstep & Hrest).
    intros Hinv. eapply IH; [exact Hrest|].
    eapply parse_word_inv; eauto.
Qed.

(** After parsing, [n_tokens] is the length of the argument vector plus
    one for the sentinel. *)
Lemma parse_well_counted (n : nat) (p : parse_state) (st st' : shell) :
  parse n st = Ret p st' → well_counted p.
Proof.
  unfold parse. intros (s0 & s1 & Hget & Hrun)%bind_ret_inv.
  unfold get in Hget. inversion Hget; subst s0 s1.
  apply bind_ret_inv in Hrun as (p1 & s1 & Hloop & Hrun).
  apply bind_ret_inv in Hrun as (p2 & s2 & Hstore & Hrun).
  apply store_token_ret in Hstore as (-> & Hrange & ->).
  inv_ret Hrun. clear Hrun.
  apply parse_loop_inv in Hloop.
  2:{ exists []. cbn. rewrite length_replicate, Nat.sub_0_r.
      repeat split; lia. }
  destruct Hloop as (toks & Hshape & Hlen & Hcount & Hidx).
  unfold well_counted. cbn [p_tokens p_n_tokens].
  rewrite Hidx, Nat2Z.id in *.
  assert (Hsame : <[length toks := None]> (p_tokens p1) = p_tokens p1).
  { rewrite Hshape at 1 2.
    replace (length toks) with (length (Some <$> toks) + 0)%nat at 1
      by (rewrite length_fmap; lia).
    rewrite insert_app_r.
    destruct (length (p_tokens p1) - length toks)%nat eqn:E; [lia|].
    reflexivity. }
  rewrite Hsame, Hshape, argv_of_fill. lia.
Qed.

(** *** The parsing block terminates *)

Lemma result_of_bind_fuel {A B} (m : M A) (k : A → M B) (st : shell) :
  result_of (m st) ≠ Fuel →
  (∀ a s1, m st = Ret a s1 → result_of (k a s1) ≠ Fuel) →
  result_of (bind m k st) ≠ Fuel.
Proof.
  unfold bind. destruct (m st); cbn; intros H1 H2; auto; discriminate.
Qed.

Lemma word_slot_no_fuel (i : Z) (st : shell) :
  result_of (word_slot i st) ≠ Fuel.
Proof.
  unfold word_slot, bind, get, ret, undefined.
  destruct ((0 <=? i) && (i <? Z.of_nat (MAX_WORDS st))); [|discriminate].
  destruct (words st !! Z.to_nat i); discriminate.
Qed.

Lemma open_write_no_fuel (target : option string) (st : shell) :
  result_of (open_write target st) ≠ Fuel.
Proof.
  destruct target as [path|]; [|discriminate].
  unfold open_write, open_out, access_W, fopen_out, chmod.
  unfold bind, get, ret, set_errno, report_errno, modify_os, modify, exit.
  destruct (os_files (os st) !! path) as [f|] eqn:Hf.
  - destruct (owner_writable f) eqn:Hw; cbn; rewrite ?Hf, ?Hw; cbn;
      discriminate.
  - cbn. rewrite ?Hf.
    destruct (k_creatable (os_kernel (os st)) path); cbn; [|discriminate].
    rewrite lookup_insert_eq. cbn. discriminate.
Qed.

Lemma parse_word_no_fuel (n : nat) (w : string) (p : parse_state)
    (st : shell) :
  result_of (parse_word n w p st) ≠ Fuel.
Proof.
  unfold parse_word.
  destruct ((p_i p =? Z.of_nat n - 1) && String.eqb w "&"); [discriminate|].
  destruct (String.eqb w ">").
  { apply result_of_bind_fuel; [apply word_slot_no_fuel|]. intros slot s1 _.
    apply result_of_bind_fuel; [apply open_write_no_fuel|]. discriminate. }
  destruct (String.eqb w "<").
  { apply result_of_bind_fuel; [apply word_slot_no_fuel|]. discriminate. }
  destruct (String.eqb w ">>").
  { apply result_of_bind_fuel; [apply word_slot_no_fuel|]. discriminate. }
  apply result_of_bind_fuel; [|discriminate].
  unfold store_token. destruct (_ && _); discriminate.
Qed.

Create HintDb no_fuel.
#[local] Hint Resolve word_slot_no_fuel open_write_no_fuel
  parse_word_no_fuel : no_fuel.

Lemma parse_loop_total (fuel : nat) : ∀ (n : nat) (p : parse_state)
    (st : shell),
  Z.of_nat n - p_i p <= Z.of_nat fuel →
  result_of (parse_loop fuel n p st) ≠ Fuel.
Proof.
  induction fuel as [|f IH]; intros n p st Hfuel; cbn [parse_loop].
  all: destruct (Z.ltb_spec (p_i p) (Z.of_nat n)); [|discriminate].
  - lia.
  - apply result_of_bind_fuel.
    { unfold word_at. apply result_of_bind_fuel; [auto with no_fuel|].
      intros [w|] s1 _; discriminate. }
    intros w s1 _. apply result_of_bind_fuel; [auto with no_fuel|].
    intros p1 s2 Hstep.
    destruct (parse_word_frame _ _ "" _ _ _ _ Hstep) as (_ & _ & Hadv & _).
    apply IH. lia.
Qed.

Lemma parse_total (n : nat) (st : shell) : result_of (parse n st) ≠ Fuel.
Proof.
  unfold parse. apply result_of_bind_fuel; [discriminate|].
  intros s0 s1 _. apply result_of_bind_fuel.
  { apply parse_loop_total. cbn [p_i]. lia. }
  intros p1 s2 _. apply result_of_bind_fuel; [|discriminate].
  unfold store_token. destruct (_ && _); discriminate.
Qed.

(** *** The parsing block returns when no file refuses to open *)

Lemma open_write_permissive (path : string) (st : shell) :
  permissive st →
  ∃ st1, open_write (Some path) st = Ret tt st1 ∧ permissive st1 ∧
         words st1 = words st.
Proof.
  intros [Hcreate Hwrite].
  unfold open_write, open_out, access_W, fopen_out, chmod, permissive.
  unfold bind, get, ret, set_errno, report_errno, modify_os, modify, exit.
  destruct (os_files (os st) !! path) as [f|] eqn:Hf.
  - pose proof (Hwrite _ _ Hf) as Hw. rewrite Hw. cbn. rewrite Hf, Hw. cbn.
    eexists. split; [reflexivity|]. cbn. split; [|reflexivity].
    split; [exact Hcreate|]. intros q g.
    destruct (decide (path = q)) as [<-|Hne].
    + rewrite lookup_insert_eq. intros Hg; inversion Hg; subst. exact Hw.
    + rewrite lookup_insert_ne by assumption. apply Hwrite.
  - cbn. rewrite Hf, Hcreate. cbn. rewrite lookup_insert_eq. cbn.
    eexists. split; [reflexivity|]. cbn. split; [|reflexivity].
    split; [exact Hcreate|]. intros q g.
    destruct (decide (path = q)) as [<-|Hne].
    + rewrite lookup_insert_eq. intros Hg; inversion Hg; subst. reflexivity.
    + rewrite !lookup_insert_ne by assumption. apply Hwrite.
Qed.

Lemma store_token_holds (idx : Z) (v : option string) (p : parse_state)
    (st : shell) :
  0 <= idx < Z.of_nat (length (p_tokens p)) →
  store_token idx v p st =
  Ret (Parse (p_i p) (p_n_tokens p) (p_op p) (p_bg p) (p_read p) (p_write p)
         (p_append p) (<[Z.to_nat idx := v]> (p_tokens p))) st.
Proof.
  intros Hidx. unfold store_token.
  destruct (Z.leb_spec 0 idx); [|lia].
  destruct (Z.ltb_spec idx (Z.of_nat (length (p_tokens p)))); [|lia].
  reflexivity.
Qed.

Lemma parse_loop_returns (ws : list string) : items ws →
  ∀ (fuel n : nat) (p : parse_state) (st : shell),
  0 <= p_i p → 0 <= p_op p → parse_inv p →
  holds_from st (Z.to_nat (p_i p)) ws →
  p_i p + Z.of_nat (length ws) = Z.of_nat n →
  (n < length (p_tokens p))%nat → (length ws <= fuel)%nat →
  permissive st →
  ∃ p' st', parse_loop fuel n p st = Ret p' st' ∧ parse_inv p' ∧
            0 <= p_i p' - p_op p' < Z.of_nat (length (p_tokens p')).
Proof.
  induction 1 as [|w ws Hw Hitems IH|o t ws Ho Hitems IH];
    intros fuel n p st Hi Hop Hinv Hholds Hn Hlen Hfuel Hperm.
  - assert (Hdone : parse_loop fuel n p st = Ret p st).
    { destruct fuel; cbn [parse_loop];
        (destruct (Z.ltb_spec (p_i p) (Z.of_nat n)); [cbn in Hn; lia|]);
        reflexivity. }
    exists p, st. split; [exact Hdone|]. split; [exact Hinv|].
    destruct Hinv as (toks & _ & Hl & _ & Hidx). cbn in Hn. lia.
  - cbn [length] in Hn, Hfuel. destruct fuel as [|f]; [lia|].
    cbn [parse_loop].
    destruct (Z.ltb_spec (p_i p) (Z.of_nat n)); [|lia].
    rewrite (bind_ret _ _ _ _ _
               (word_at_holds _ _ _ Hi (holds_from_head _ _ _ _ Hholds))).
    assert (Hstep : ∃ p1, parse_word n w p st = Ret p1 st ∧
                          p_i p1 = p_i p + 1 ∧ 0 <= p_op p1 ∧
                          length (p_tokens p1) = length (p_tokens p)).
    { unfold parse_word.
      destruct ((p_i p =? Z.of_nat n - 1) && String.eqb w "&").
      { eexists. split; [reflexivity|]. cbn. repeat split; lia. }
      destruct (is_redirect_false _ Hw) as (-> & -> & ->).
      destruct Hinv as (toks & _ & Hl & _ & Hidx).
      assert (Hr : 0 <= p_i p - p_op p < Z.of_nat (length (p_tokens p)))
        by lia.
      rewrite (bind_ret _ _ _ _ _ (store_token_holds _ (Some w) p st Hr)).
      eexists. split; [reflexivity|]. cbn. rewrite length_insert.
      repeat split; lia. }
    destruct Hstep as (p1 & Hstep & Hi1 & Hop1 & Hlen1).
    rewrite (bind_ret _ _ _ _ _ Hstep).
    apply IH; try lia.
    + eapply parse_word_inv; eauto.
    + rewrite Hi1. replace (Z.to_nat (p_i p + 1)) with (S (Z.to_nat (p_i p)))
        by lia. now apply holds_from_tail in Hholds.
    + exact Hperm.
  - cbn [length] in Hn, Hfuel. destruct fuel as [|f]; [lia|].
    cbn [parse_loop].
    destruct (Z.ltb_spec (p_i p) (Z.of_nat n)); [|lia].
    rewrite (bind_ret _ _ _ _ _
               (word_at_holds _ _ _ Hi (holds_from_head _ _ _ _ Hholds))).
    pose proof (Hholds 1%nat t eq_refl) as Ht.
    assert (Hslot : word_slot (p_i p + 1) st = Ret (Some t) st).
    { apply word_slot_holds; [lia|].
      now replace (Z.to_nat (p_i p + 1)) with (Z.to_nat (p_i p) + 1)%nat
        by lia. }
    assert (Hstep : ∃ p1 st1, parse_word n o p st = Ret p1 st1 ∧
                          p_i p1 = p_i p + 1 + 1 ∧ 0 <= p_op p1 ∧
                          length (p_tokens p1) = length (p_tokens p) ∧
                          permissive st1 ∧ words st1 = words st).
    { unfold parse_word. rewrite (is_redirect_not_amp _ Ho), andb_false_r.
      unfold is_redirect in Ho.
      destruct (String.eqb o ">").
      { rewrite (bind_ret _ _ _ _ _ Hslot).
        destruct (open_write_permissive t st Hperm) as (st1 & Hopen & Hp1 & Hw1).
        rewrite (bind_ret _ _ _ _ _ Hopen).
        eexists _, _. split; [reflexivity|]. cbn.
        split; [lia|]. split; [lia|]. split; [reflexivity|]. split; assumption. }
      destruct (String.eqb o "<").
      { rewrite (bind_ret _ _ _ _ _ Hslot).
        eexists _, _. split; [reflexivity|]. cbn.
        split; [lia|]. split; [lia|]. split; [reflexivity|]. split; auto. }
      destruct (String.eqb o ">>"); [|discriminate].
      rewrite (bind_ret _ _ _ _ _ Hslot).
      eexists _, _. split; [reflexivity|]. cbn.
      split; [lia|]. split; [lia|]. split; [reflexivity|]. split; auto. }
    destruct Hstep as (p1 & st1 & Hstep & Hi1 & Hop1 & Hlen1 & Hperm1 & Hw1).
    rewrite (bind_ret _ _ _ _ _ Hstep).
    apply IH; try lia.
    + eapply parse_word_inv; eauto.
    + apply (holds_from_words st); [exact Hw1|]. rewrite Hi1.
      replace (Z.to_nat (p_i p + 1 + 1)) with (S (S (Z.to_nat (p_i p))))
        by lia.
      now apply holds_from_tail, holds_from_tail in Hholds.
    + exact Hperm1.
Qed.

Lemma items_app (xs ys : list string) :
  items xs → items ys → items (xs ++ ys).
Proof.
  induction 1; intros Hys; cbn; [exact Hys | |].
  - apply items_word; auto.
  - apply items_redirect; auto.
Qed.

(** Whole items, room in the arrays and no file that refuses: the
    parsing block returns. *)
Lemma parse_returns (ws : list string) (st : shell) :
  items ws → holds_from st 0 ws → (length ws < MAX_WORDS st)%nat →
  permissive st →
  ∃ p st', parse (length ws) st = Ret p st'.
Proof.
  intros Hitems Hholds Hroom Hperm. unfold parse.
  rewrite (bind_ret get _ st st st eq_refl).
  set (p0 := Parse 0 0 0 false None None None (replicate (MAX_WORDS st) None)).
  destruct (parse_loop_returns ws Hitems (length ws) (length ws) p0 st)
    as (p1 & st1 & Hloop & Hinv & Hidx); cbn [p_i p_op p_tokens p0];
    rewrite ?length_replicate; try lia; auto.
  { exists []. cbn. rewrite length_replicate, Nat.sub_0_r. repeat split; lia. }
  rewrite (bind_ret _ _ _ _ _ Hloop).
  rewrite (bind_ret _ _ _ _ _ (store_token_holds _ _ _ _ Hidx)).
  eexists _, _. reflexivity.
Qed.

(** *** Redirection of output happens while parsing *)

(** C6. When the words hold [>] and a word after whole items, the
    parsing block has created or emptied the file of that name by the time
    it returns, before anything is dispatched, and a built-in or an empty
    command that follows leaves the file as parsing left it. The block
    always terminates, and it returns whenever the words after the target
    are whole items too, the arrays have room and no file refuses to
    open. *)
Theorem redirect_truncates_at_parse_time (pre post : list string)
    (target : string) (st : shell) :
  items pre →
  holds_from st 0 (pre ++ ">" :: target :: post) →
  let n := length (pre ++ ">" :: target :: post) in
  (∀ (p : parse_state) (st' : shell),
     parse n st = Ret p st' →
     file_empty target st' ∧
     ∀ (a : answers) (s : shell),
       token p 0 = None ∨ token p 0 = Some "exit" ∨ token p 0 = Some "cd" →
       state_of (execute a p st') = Some s →
       file_empty target s) ∧
  result_of (parse n st) ≠ Fuel ∧
  (items post → (n < MAX_WORDS st)%nat → permissive st →
   ∃ p st', parse n st = Ret p st').
Proof.
  intros Hitems Hholds n. split; [|split].
  - intros p st' Hrun.
    assert (Hempty : file_empty target st').
    { unfold parse in Hrun.
      apply bind_ret_inv in Hrun as (s0 & s1 & Hget & Hrun).
      unfold get in Hget. inversion Hget; subst s0 s1.
      apply bind_ret_inv in Hrun as (p1 & s1 & Hloop & Hrun).
      apply bind_ret_inv in Hrun as (p2 & s2 & Hstore & Hrun).
      apply store_token_ret in Hstore as (-> & _ & _).
      inv_ret Hrun.
      refine (parse_loop_reaches pre Hitems post target _ _ _ p1 st st' _ _ _
                Hloop); cbn [p_i]; [lia | exact Hholds | lia]. }
    split; [exact Hempty|].
    intros a s Hkind Hs. unfold file_empty in *.
    now rewrite (builtin_keeps_files _ _ _ _ Hkind Hs).
  - apply parse_total.
  - intros Hpost Hroom Hperm. apply parse_returns; auto.
    apply items_app; [exact Hitems|].
    apply items_redirect; [reflexivity | exact Hpost].
Qed.

Lemma redirect_truncates_at_parse_time_witness :
  ∃ p st', parse 3 cd_redirect_shell = Ret p st' ∧
           file_empty "out.txt" st' ∧
           ∀ (a : answers) (s : shell),
             token p 0 = None ∨ token p 0 = Some "exit" ∨
             token p 0 = Some "cd" →
             state_of (execute a p st') = Some s →
             file_empty "out.txt" s.
Proof.
  destruct (redirect_truncates_at_parse_time ["cd"] [] "out.txt"
              cd_redirect_shell) as (Hret & _ & _).
  - apply items_word; [reflexivity | apply items_nil].
  - intros [|[|[|k]]] w Hk; cbn in Hk; inversion Hk; reflexivity.
  - destruct (parse 3 cd_redirect_shell) as [p st'| | | |] eqn:Hrun;
      try (vm_compute in Hrun; discriminate).
    exists p, st'. split; [reflexivity|]. apply Hret. exact Hrun.
Defined.

Example cd_redirect_line :
  (λ s, (os_files (os s) !! "out.txt", os_cwd (os s))) <$>
    final_state (run_line sample_answers "cd > out.txt" sample_shell)
  = Some (Some (File "" 511), "/home/u").
Proof. vm_compute. reflexivity. Qed.

(** *** A redirection operator as the last word *)

(** The sentinel goes into a slot of [tokens]: its index is not
    negative. *)
Lemma sentinel_index_in_range (n : nat) (p : parse_state) (st st' : shell) :
  parse n st = Ret p st' →
  0 <= p_i p - p_op p < Z.of_nat (length (p_tokens p)).
Proof.
  unfold parse. intros (s0 & s1 & Hget & Hrun)%bind_ret_inv.
  apply bind_ret_inv in Hrun as (p1 & s2 & Hloop & Hrun).
  apply bind_ret_inv in Hrun as (p2 & s3 & Hstore & Hrun).
  apply store_token_ret in Hstore as (-> & Hrange & ->).
  inv_ret Hrun. cbn. now rewrite length_insert.
Qed.

(** C1. The code departs from the specification here: when [>] is the
    last word, the loop takes the slot behind the word sequence for the
    target. A word of an earlier line that is still in that slot names the
    file that is emptied; no error is reported and an empty command
    results. *)
Theorem parse_dangling_redirection (target : string) (f : file)
    (st : shell) :
  words st !! 0%nat = Some (Some ">") →
  words st !! 1%nat = Some (Some target) →
  os_files (os st) !! target = Some f → owner_writable f = true →
  ∃ p st', parse 1 st = Ret p st' ∧
           p_write p = Some target ∧ token p 0 = None ∧
           os_files (os st') !! target = Some (File "" (f_mode f)) ∧
           os_log (os st') = os_log (os st).
Proof.
  intros H0 H1 Hf Hw.
  assert (Hmax : (2 <= MAX_WORDS st)%nat).
  { apply lookup_lt_Some in H1. unfold MAX_WORDS. lia. }
  set (st1 := set_os (os_set_files
                (<[target := File "" (f_mode f)]> (os_files (os st)))
                (os st)) st).
  assert (Hopen : open_write (Some target) st = Ret tt st1).
  { unfold open_write, open_out, access_W, fopen_out.
    unfold bind, get, ret, modify_os, modify. rewrite Hf, Hw. cbn.
    now rewrite Hf, Hw. }
  set (p0 := Parse 0 0 0 false None None None (replicate (MAX_WORDS st) None)).
  set (p1 := Parse 2 0 2 false None (Some target) None
               (replicate (MAX_WORDS st) None)).
  assert (Hstep : parse_word 1 ">" p0 st = Ret p1 st1).
  { unfold parse_word. cbn [p_i p0].
    change ((0 =? Z.of_nat 1 - 1) && String.eqb ">" "&") with false.
    change (String.eqb ">" ">") with true. cbv iota.
    rewrite (bind_ret _ _ _ _ _ (word_slot_holds (0 + 1) st (Some target)
                                   ltac:(lia) H1)).
    rewrite (bind_ret _ _ _ _ _ Hopen). reflexivity. }
  assert (Hloop : parse_loop 1 1 p0 st = Ret p1 st1).
  { cbn [parse_loop p_i p0]. change (0 <? Z.of_nat 1) with true. cbv iota.
    rewrite (bind_ret _ _ _ _ _ (word_at_holds 0 st ">" ltac:(lia) H0)).
    rewrite (bind_ret _ _ _ _ _ Hstep). reflexivity. }
  exists (Parse 2 1 2 false None (Some target) None
            (replicate (MAX_WORDS st) None)), st1.
  split.
  - unfold parse. rewrite (bind_ret get _ st st st eq_refl). fold p0.
    rewrite (bind_ret _ _ _ _ _ Hloop).
    unfold store_token. cbn [p_i p_op p1 p_tokens].
    rewrite length_replicate. change (2 - 2) with 0.
    destruct (Z.ltb_spec 0 (Z.of_nat (MAX_WORDS st))) as [_|]; [|lia].
    cbn [Z.leb Z.compare andb]. unfold bind, ret. cbn [p_i p_n_tokens p_op
      p_bg p_read p_write p_append p_tokens].
    f_equal. f_equal. change (Z.to_nat 0) with 0%nat.
    destruct (MAX_WORDS st); [lia | reflexivity].
  - cbn [p_write]. split; [reflexivity|]. split.
    + unfold token. cbn [p_tokens].
      destruct (MAX_WORDS st); [lia | reflexivity].
    + subst st1. cbn. split; [apply lookup_insert_eq | reflexivity].
Qed.

Lemma parse_dangling_redirection_witness :
  ∃ p st', parse 1 stale_shell = Ret p st' ∧
           p_write p = Some "notes.txt" ∧ token p 0 = None ∧
           os_files (os st') !! "notes.txt" = Some (File "" 420) ∧
           os_log (os st') = os_log (os stale_shell).
Proof.
  apply (parse_dangling_redirection "notes.txt" (File "remember the milk" 420)
           stale_shell); reflexivity.
Defined.

(** The two lines as typed: the second empties the file the first
    named. *)
Example dangling_redirection_lines :
  (λ s, (take 2 (words s), os_files (os s) !! "notes.txt", os_log (os s))) <$>
    final_state
      ((run_line sample_answers "cat notes.txt" ;;;
        run_line sample_answers ">") sample_shell)
  = Some ([Some ">"; Some "notes.txt"], Some (File "" 420), []).
Proof. vm_compute. reflexivity. Qed.

(** With the last word in the last slot of [words], the slot behind it
    is outside the array. *)
Example dangling_redirection_full_array :
  result_of (run_line sample_answers "echo >"
               (set_words [None; None] sample_shell))
  = Undef WordsOutOfBounds.
Proof. vm_compute. reflexivity. Qed.

(** ** The samples are what the lines give *)

Example sample_parse_from_line :
  result_of (front_end "cat notes.txt" sample_shell) = Val sample_parse.
Proof. vm_compute. reflexivity. Qed.

Example exit_1abc_parse_from_line :
  result_of (front_end "exit 1abc" sample_shell) = Val exit_1abc_parse.
Proof. vm_compute. reflexivity. Qed.

Example cd_parse_from_line :
  result_of (front_end "cd" sample_shell) = Val cd_parse.
Proof. vm_compute. reflexivity. Qed.

Example stale_shell_from_lines :
  words <$>
    final_state
      ((run_line sample_answers "cat notes.txt" ;;;
        n <- wordsplit ">" ;; expand_words n 0%nat) sample_shell)
  = Some (words stale_shell).
Proof. vm_compute. reflexivity. Qed.

Example cd_redirect_shell_from_line :
  words <$>
    final_state
      ((n <- wordsplit "cd > out.txt" ;; expand_words n 0%nat) sample_shell)
  = Some (words cd_redirect_shell).
Proof. vm_compute. reflexivity. Qed.

(** ** Every turn of the loop of main terminates *)

Lemma read_line_no_fuel (buf : list ascii) (c : nat) (st : shell) :
  result_of (read_line buf c st) ≠ Fuel.
Proof. unfold read_line. destruct (buf !! c); discriminate. Qed.

Lemma read_line_ret (buf : list ascii) (c : nat) (a : ascii)
    (st st' : shell) :
  read_line buf c st = Ret a st' → st' = st ∧ buf !! c = Some a.
Proof.
  unfold read_line. destruct (buf !! c); [|discriminate].
  intros H; inv_ret H. auto.
Qed.

#[local] Hint Resolve read_line_no_fuel : no_fuel.

Lemma skip_space_total (fuel : nat) : ∀ (buf : list ascii) (c : nat)
    (st : shell),
  (length buf - c < fuel)%nat →
  result_of (skip_space fuel buf c st) ≠ Fuel.
Proof.
  induction fuel as [|f IH]; intros buf c st Hf; [lia|].
  cbn [skip_space]. apply result_of_bind_fuel; [auto with no_fuel|].
  intros a s1 (-> & Hl)%read_line_ret. apply lookup_lt_Some in Hl.
  destruct (_ && _); [|discriminate]. apply IH. lia.
Qed.

Lemma skip_space_advance (fuel : nat) : ∀ (buf : list ascii) (c c' : nat)
    (st st' : shell),
  skip_space fuel buf c st = Ret c' st' →
  (c <= c')%nat ∧
  ∀ a, buf !! c = Some a → isspace a = true → (c < c')%nat.
Proof.
  induction fuel as [|f IH]; intros buf c c' st st'; [discriminate|].
  cbn [skip_space]. intros (a & s1 & (-> & Hl)%read_line_ret & H)%bind_ret_inv.
  destruct (negb (Ascii.eqb a NUL) && isspace a) eqn:Hcond.
  - apply IH in H as [Hle _]. split; [lia|]. intros; lia.
  - inv_ret H. split; [lia|]. intros b Hb Hsp.
    rewrite Hl in Hb. inversion Hb; subst b. rewrite Hsp in Hcond.
    destruct (Ascii.eqb_spec a NUL) as [->|]; discriminate.
Qed.

Lemma read_word_total (fuel : nat) : ∀ (buf : list ascii) (c wind : nat)
    (w : string) (st : shell),
  (length buf - c < fuel)%nat →
  result_of (read_word fuel buf c wind w st) ≠ Fuel.
Proof.
  induction fuel as [|f IH]; intros buf c wind w st Hf; [lia|].
  cbn [read_word]. apply result_of_bind_fuel; [auto with no_fuel|].
  intros a s1 (-> & Hl)%read_line_ret. apply lookup_lt_Some in Hl.
  destruct (_ && _); [|discriminate].
  apply result_of_bind_fuel; [auto with no_fuel|].
  intros b s1 (-> & Hl1)%read_line_ret.
  apply result_of_bind_fuel; [discriminate|].
  intros w' s1 _. apply IH. destruct (Ascii.eqb a "\"); lia.
Qed.

Lemma read_word_advance (fuel : nat) : ∀ (buf : list ascii)
    (c wind c' : nat) (w : string) (st st' : shell),
  read_word fuel buf c wind w st = Ret c' st' →
  ∀ a, buf !! c = Some a →
       if negb (Ascii.eqb a NUL) && negb (isspace a)
       then (c < c')%nat else c' = c.
Proof.
  induction fuel as [|f IH]; intros buf c wind c' w st st'; [discriminate|].
  cbn [read_word]. intros (a & s1 & (-> & Hl)%read_line_ret & H)%bind_ret_inv.
  intros a' Ha'. rewrite Hl in Ha'. inversion Ha'; subst a'.
  destruct (negb (Ascii.eqb a NUL) && negb (isspace a)); [|now inv_ret H].
  apply bind_ret_inv in H as (b & s1 & (-> & Hl1)%read_line_ret & H).
  apply bind_ret_inv in H as (w' & s1 & _ & H).
  destruct (buf !! S (if Ascii.eqb a "\" then S c else c)) as [x|] eqn:Hx.
  - specialize (IH _ _ _ _ _ _ _ H x Hx).
    destruct (_ && _), (Ascii.eqb a "\"); lia.
  - destruct f; [discriminate|]. cbn [read_word] in H.
    apply bind_ret_inv in H as (y & s2 & (_ & Hy)%read_line_ret & _).
    congruence.
Qed.

Lemma split_loop_total (fuel : nat) : ∀ (buf : list ascii) (c wind : nat)
    (st : shell),
  (length buf - c < fuel)%nat →
  result_of (split_loop fuel buf c wind st) ≠ Fuel.
Proof.
  induction fuel as [|f IH]; intros buf c wind st Hf; [lia|].
  cbn [split_loop]. apply result_of_bind_fuel; [auto with no_fuel|].
  intros a s1 (-> & Hl)%read_line_ret.
  destruct (Ascii.eqb_spec a NUL) as [|Hnul]; [discriminate|].
  apply result_of_bind_fuel; [discriminate|]. intros s0 s1 Hget.
  unfold get in Hget. inversion Hget; subst s0 s1.
  destruct (_ =? _)%nat; [discriminate|].
  destruct (Ascii.eqb a "#"); [discriminate|].
  apply result_of_bind_fuel.
  { apply read_word_total. unfold line_fuel. lia. }
  intros c1 s1 Hword. apply result_of_bind_fuel.
  { apply skip_space_total. unfold line_fuel. lia. }
  intros c2 s2 Hskip. apply IH.
  pose proof (read_word_advance _ _ _ _ _ _ _ _ Hword a Hl) as Hadv.
  destruct (skip_space_advance _ _ _ _ _ _ Hskip) as [Hle Hsp].
  apply lookup_lt_Some in Hl as Hlt.
  apply Ascii.eqb_neq in Hnul. rewrite Hnul in Hadv. cbn [negb andb] in Hadv.
  destruct (isspace a) eqn:Ha; cbn [negb] in Hadv.
  - subst c1. specialize (Hsp a Hl Ha). lia.
  - lia.
Qed.

(** [wordsplit] terminates on every line. *)
Lemma wordsplit_total (line : string) (st : shell) :
  result_of (wordsplit line st) ≠ Fuel.
Proof.
  unfold wordsplit. cbv zeta. apply result_of_bind_fuel.
  { apply skip_space_total. unfold line_fuel. lia. }
  intros c s1 _. apply split_loop_total. unfold line_fuel. lia.
Qed.

Lemma word_at_no_fuel (i : Z) (st : shell) :
  result_of (word_at i st) ≠ Fuel.
Proof.
  unfold word_at. apply result_of_bind_fuel; [auto with no_fuel|].
  intros [w|] s1 _; discriminate.
Qed.

Lemma expand_no_fuel (w : string) (st : shell) :
  result_of (expand w st) ≠ Fuel.
Proof. exact (expand_total (String.length w) w st (le_n _)). Qed.

#[local] Hint Resolve word_at_no_fuel expand_no_fuel wordsplit_total
  parse_total : no_fuel.

Lemma expand_words_total (n : nat) : ∀ (i : nat) (st : shell),
  result_of (expand_words n i st) ≠ Fuel.
Proof.
  induction n as [|n IH]; intros i st; [discriminate|].
  cbn [expand_words]. apply result_of_bind_fuel; [auto with no_fuel|].
  intros w s1 _. apply result_of_bind_fuel; [auto with no_fuel|].
  intros v s2 _. apply result_of_bind_fuel; [discriminate|].
  intros [] s3 _. apply IH.
Qed.

Lemma open_out_no_fuel (trunc : bool) (target : option string)
    (st : shell) :
  result_of (open_out trunc target st) ≠ Fuel.
Proof.
  destruct target as [path|]; [|discriminate].
  unfold open_out, access_W, fopen_out, chmod.
  unfold bind, get, ret, set_errno, report_errno, modify_os, modify, exit.
  destruct (os_files (os st) !! path) as [f|] eqn:Hf.
  - destruct (owner_writable f) eqn:Hw; cbn; rewrite ?Hf, ?Hw; cbn;
      discriminate.
  - cbn. rewrite ?Hf.
    destruct (k_creatable (os_kernel (os st)) path); cbn; [|discriminate].
    rewrite lookup_insert_eq. cbn. discriminate.
Qed.

Lemma open_read_no_fuel (target : option string) (st : shell) :
  result_of (open_read target st) ≠ Fuel.
Proof.
  destruct target as [path|]; [|discriminate].
  unfold open_read, fopen_in, bind, get, ret, set_errno, report_errno,
    modify_os, modify, exit.
  destruct (os_files (os st) !! path) as [f|]; [|discriminate].
  destruct (owner_readable f); discriminate.
Qed.

Lemma execute_total (a : answers) (p : parse_state) (st : shell) :
  result_of (execute a p st) ≠ Fuel.
Proof.
  unfold execute. destruct (token p 0) as [cmd|]; [|discriminate].
  destruct (String.eqb cmd "exit").
  { unfold builtin_exit. destruct (3 <=? _); [discriminate|].
    destruct (_ =? 2).
    - destruct (token p 1) as [arg|]; [|discriminate].
      destruct (isdigit _); discriminate.
    - apply result_of_bind_fuel; [auto with no_fuel|].
      intros [v|] s1 _; discriminate. }
  destruct (String.eqb cmd "cd").
  { unfold builtin_cd. destruct (3 <=? _); [discriminate|].
    destruct (_ =? 2).
    - destruct (token p 1) as [arg|]; [|discriminate].
      unfold access_F, chdir, bind, get.
      destruct (k_exists _ _ _); cbn; [|discriminate].
      destruct (k_chdir _ _ _); discriminate.
    - apply result_of_bind_fuel; [auto with no_fuel|].
      intros [v|] s1 _; [|discriminate].
      unfold chdir, bind, get. destruct (k_chdir _ _ _); discriminate. }
  unfold external. destruct (_ =? -1); [discriminate|].
  destruct (fork_pid a =? 0).
  { unfold child. apply result_of_bind_fuel.
    { destruct (p_append p); [|discriminate].
      apply result_of_bind_fuel; [apply open_out_no_fuel | discriminate]. }
    intros [] s1 _. apply result_of_bind_fuel.
    { destruct (p_write p); [|discriminate].
      apply result_of_bind_fuel; [apply open_out_no_fuel | discriminate]. }
    intros [] s2 _. apply result_of_bind_fuel.
    { destruct (p_read p); [|discriminate].
      apply result_of_bind_fuel; [apply open_read_no_fuel | discriminate]. }
    intros [] s3 _. unfold bind, get.
    destruct (k_exec_ok _ _); discriminate. }
  destruct (p_bg p); [discriminate|].
  unfold wait_foreground. destruct (WIFSIGNALED _); [discriminate|].
  destruct (WIFSTOPPED _); discriminate.
Qed.

(** One turn of the loop of [main] terminates, whatever the line: the
    counters of the model are never exhausted. *)
Lemma run_line_total (a : answers) (line : string) (st : shell) :
  result_of (run_line a line st) ≠ Fuel.
Proof.
  unfold run_line, front_end.
  apply result_of_bind_fuel; [|intros; apply execute_total].
  apply result_of_bind_fuel; [auto with no_fuel|]. intros n s1 _.
  apply result_of_bind_fuel; [apply expand_words_total|]. intros [] s2 _.
  auto with no_fuel.
Qed.

(** * Properties of the rest of the code *)

(** ** The sample states of this part, from their lines *)

Example bg_parse_from_line :
  result_of (front_end "cat notes.txt &" sample_shell) = Val bg_parse.
Proof. vm_compute. reflexivity. Qed.

Example redirected_parse_from_line :
  result_of (front_end "cat < notes.txt >> log.txt > out.txt" sample_shell)
  = Val redirected_parse.
Proof. vm_compute. reflexivity. Qed.

Example missing_input_parse_from_line :
  result_of (front_end "cat < missing.txt > out.txt" sample_shell)
  = Val missing_input_parse.
Proof. vm_compute. reflexivity. Qed.

Example bg_redirect_shell_from_line :
  words <$>
    final_state
      ((n <- wordsplit "cat < notes.txt > out.txt &" ;; expand_words n 0%nat)
         sample_shell)
  = Some (words bg_redirect_shell).
Proof. vm_compute. reflexivity. Qed.

Example refused_shell_from_line :
  words <$>
    final_state
      ((n <- wordsplit "cat > /proc/x notes.txt" ;; expand_words n 0%nat)
         sample_shell)
  = Some (words refused_shell).
Proof. vm_compute. reflexivity. Qed.

Example tiny_shell_from_line :
  final_state
    ((n <- wordsplit "ls -l" ;; expand_words n 0%nat)
       (Shell 0 0 [None; None] None None sample_os))
  = Some tiny_shell.
Proof. vm_compute. reflexivity. Qed.

(** ** The wait status *)

(** The low seven bits of a status word decide which of the three tests
    of <sys/wait.h> holds. *)
Lemma termsig_range (status : Z) : 0 <= WTERMSIG status <= 127.
Proof.
  unfold WTERMSIG.
  change (Z.land status 127) with (Z.land status (Z.ones 7)).
  rewrite Z.land_ones by lia. change (2 ^ 7) with 128.
  pose proof (Z.mod_pos_bound status 128). lia.
Qed.

Lemma wifsignaled_iff (status : Z) :
  WIFSIGNALED status = true ↔ 1 <= WTERMSIG status <= 126.
Proof.
  pose proof (termsig_range status) as Hr. unfold WIFSIGNALED.
  fold (WTERMSIG status). cbv zeta.
  destruct (Z.leb_spec 128 (WTERMSIG status + 1)) as [H|H].
  - assert (E : WTERMSIG status = 127) by lia. rewrite E.
    split; [discriminate | lia].
  - rewrite Z.ltb_lt, Z.shiftr_div_pow2 by lia. change (2 ^ 1) with 2.
    split; intros H1.
    + destruct (Z.eq_dec (WTERMSIG status) 0) as [E|E]; [|lia].
      rewrite E in H1. change ((0 + 1) / 2) with 0 in H1. lia.
    + apply Z.div_str_pos. lia.
Qed.

Lemma wifstopped_termsig (status : Z) :
  WIFSTOPPED status = true → WTERMSIG status = 127.
Proof.
  unfold WIFSTOPPED, WTERMSIG. intros H%Z.eqb_eq.
  replace 127 with (Z.land 255 127) at 1 by reflexivity.
  rewrite Z.land_assoc, H. reflexivity.
Qed.

Lemma wexitstatus_range (status : Z) : 0 <= WEXITSTATUS status <= 255.
Proof.
  unfold WEXITSTATUS. rewrite Z.shiftr_land.
  change (Z.shiftr 65280 8) with (Z.ones 8).
  rewrite Z.land_ones by lia. change (2 ^ 8) with 256.
  pose proof (Z.mod_pos_bound (Z.shiftr status 8) 256). lia.
Qed.

Lemma stopcode_tests (sig : Z) :
  0 <= sig →
  WIFSTOPPED (W_STOPCODE sig) = true ∧ WIFSIGNALED (W_STOPCODE sig) = false ∧
  WIFEXITED (W_STOPCODE sig) = false ∧ W_STOPCODE sig = sig * 256 + 127.
Proof.
  intros Hs.
  assert (Hlow : Z.land (W_STOPCODE sig) 255 = 127).
  { unfold W_STOPCODE. rewrite Z.land_lor_distr_l.
    change 255 with (Z.ones 8). rewrite (Z.land_ones (Z.shiftl sig 8)) by lia.
    rewrite Z.shiftl_mul_pow2, Z.mod_mul by lia. reflexivity. }
  assert (Hst : WIFSTOPPED (W_STOPCODE sig) = true)
    by (unfold WIFSTOPPED; now rewrite Hlow).
  pose proof (wifstopped_termsig _ Hst) as Ht.
  split; [exact Hst|]. split; [|split].
  - destruct (WIFSIGNALED (W_STOPCODE sig)) eqn:E; [|reflexivity].
    apply wifsignaled_iff in E. lia.
  - unfold WIFEXITED. rewrite Ht. reflexivity.
  - unfold W_STOPCODE. rewrite Z.shiftl_mul_pow2 by lia.
    change (2 ^ 8) with 256.
    rewrite <- Z.add_nocarry_lor; [reflexivity|].
    change 127 with (Z.ones 7). rewrite Z.land_ones by lia.
    change (2 ^ 7) with 128.
    replace (sig * 256) with (sig * 2 * 128) by lia. apply Z.mod_mul. lia.
Qed.

Lemma termination_tests (t : termination) :
  valid_termination t →
  WIFSTOPPED (wait_status t) = false ∧
  match t with
  | ExitedWith code =>
      WIFEXITED (wait_status t) = true ∧ WIFSIGNALED (wait_status t) = false ∧
      WEXITSTATUS (wait_status t) = code
  | KilledBy sig _ =>
      WIFEXITED (wait_status t) = false ∧ WIFSIGNALED (wait_status t) = true ∧
      WTERMSIG (wait_status t) = sig
  end.
Proof.
  intros Hv. destruct t as [code|sig core]; cbn [wait_status].
  - destruct (wait_exited code Hv) as (Hsig & Hstop & Hcode).
    split; [exact Hstop|]. split; [|split; assumption].
    unfold WIFEXITED, WTERMSIG, W_EXITCODE.
    rewrite Z.lor_0_r, Z.shiftl_mul_pow2 by lia.
    change 127 with (Z.ones 7). rewrite Z.land_ones by lia.
    replace (code * 2 ^ 8) with (code * 2 * 2 ^ 7) by lia.
    now rewrite Z.mod_mul by lia.
  - destruct (wait_signaled sig core Hv) as (Hsig & Hterm).
    cbn [valid_termination] in Hv.
    split; [|split; [|split; assumption]].
    + destruct (WIFSTOPPED _) eqn:E; [|reflexivity].
      apply wifstopped_termsig in E. cbn zeta in Hterm. lia.
    + unfold WIFEXITED. cbn zeta in Hterm. rewrite Hterm.
      apply Z.eqb_neq. cbn in Hv. lia.
Qed.

(** The prompt block reports a background child that changed state: its
    exit code when it exited, the signal when it was killed (core dumped
    or not), and for a stopped child the notice and SIGCONT. It writes
    nothing when [waitpid] answered 0 or -1, and whatever the status word
    no two of its three tests hold: at most one report per turn. *)
Theorem manage_bg_reports (pid status : Z) :
  (pid = 0 ∨ pid = -1 → manage_bg pid status = []) ∧
  (pid ≠ 0 → pid ≠ -1 →
   (∀ t, valid_termination t →
      manage_bg pid (wait_status t) =
      [match t with
       | ExitedWith code => Done pid code
       | KilledBy sig _ => Signaled pid sig
       end]) ∧
   (∀ sig, 0 <= sig →
      manage_bg pid (W_STOPCODE sig) = [Stopped pid; Continued pid])) ∧
  (manage_bg pid status = [] ∨
   (∃ code, manage_bg pid status = [Done pid code] ∧ 0 <= code <= 255) ∨
   (∃ sig, manage_bg pid status = [Signaled pid sig] ∧ 1 <= sig <= 126) ∨
   manage_bg pid status = [Stopped pid; Continued pid]).
Proof.
  split; [|split].
  - intros [-> | ->]; reflexivity.
  - intros H0 H1.
    assert (Hgo : negb (pid =? -1) && negb (pid =? 0) = true).
    { destruct (Z.eqb_spec pid (-1)); [contradiction|].
      destruct (Z.eqb_spec pid 0); [contradiction|]. reflexivity. }
    split.
    + intros t Hv. unfold manage_bg. rewrite Hgo.
      destruct (termination_tests t Hv) as (Hstop & Ht).
      rewrite Hstop. destruct t as [code|sig core];
        destruct Ht as (-> & -> & ->); reflexivity.
    + intros sig Hs. unfold manage_bg. rewrite Hgo.
      destruct (stopcode_tests sig Hs) as (-> & -> & -> & _). reflexivity.
  - unfold manage_bg.
    destruct (negb (pid =? -1) && negb (pid =? 0)); [|now left].
    pose proof (termsig_range status) as Hr.
    destruct (WIFSTOPPED status) eqn:Hstop.
    + pose proof (wifstopped_termsig _ Hstop) as Ht.
      assert (Hsig : WIFSIGNALED status = false).
      { destruct (WIFSIGNALED status) eqn:E; [|reflexivity].
        apply wifsignaled_iff in E. lia. }
      unfold WIFEXITED. rewrite Hsig, Ht. cbn. now right; right; right.
    + destruct (WIFSIGNALED status) eqn:Hsig.
      * apply wifsignaled_iff in Hsig.
        unfold WIFEXITED. destruct (Z.eqb_spec (WTERMSIG status) 0); [lia|].
        cbn. right; right; left. eauto.
      * destruct (WIFEXITED status); cbn; [|now left].
        right; left. eexists. split; [reflexivity|].
        apply wexitstatus_range.
Qed.

Lemma manage_bg_reports_witness :
  manage_bg 4301 (wait_status (KilledBy 9 true)) = [Signaled 4301 9] ∧
  manage_bg 4301 (W_STOPCODE 20) = [Stopped 4301; Continued 4301].
Proof.
  destruct (manage_bg_reports 4301 0) as (_ & H & _).
  destruct (H ltac:(discriminate) ltac:(discriminate)) as (Hterm & Hstop).
  split.
  - apply (Hterm (KilledBy 9 true)). simpl. lia.
  - apply Hstop. lia.
Defined.

(** ** What the special parameters expand to *)

Lemma expand_status (st : shell) :
  0 <= last_status st →
  result_of (expand "$?" st) = Val (Some (fmt_d (last_status st))).
Proof.
  intros Hnn. rewrite (expand_token "$?" "?" "") by reflexivity.
  unfold subst_value.
  change (Ascii.eqb "?" "!") with false. change (Ascii.eqb "?" "$") with false.
  change (Ascii.eqb "?" "?") with true. cbv iota.
  rewrite status_value by exact Hnn.
  rewrite expand_empty. cbn. now rewrite str_app_nil_r.
Qed.

Lemma expand_last_bg (st : shell) :
  0 < last_bg_pid st →
  result_of (expand "$!" st) = Val (Some (fmt_d (last_bg_pid st))).
Proof.
  intros Hpos. rewrite (expand_token "$!" "!" "") by reflexivity.
  unfold subst_value. change (Ascii.eqb "!" "!") with true. cbv iota.
  rewrite bg_pid_value. destruct (Z.ltb_spec 0 (last_bg_pid st)); [|lia].
  rewrite expand_empty. cbn. now rewrite str_app_nil_r.
Qed.

(** ** External commands in the parent *)

Lemma execute_external (a : answers) (p : parse_state) (cmd : string)
    (st : shell) :
  token p 0 = Some cmd → cmd ≠ "exit" → cmd ≠ "cd" →
  execute a p st = external a p cmd st.
Proof.
  intros Htok Hexit Hcd. unfold execute. rewrite Htok.
  destruct (String.eqb_spec cmd "exit"); [contradiction|].
  destruct (String.eqb_spec cmd "cd"); [contradiction|]. reflexivity.
Qed.

Lemma external_parent (a : answers) (p : parse_state) (cmd : string)
    (st : shell) :
  fork_pid a ≠ -1 → fork_pid a ≠ 0 →
  external a p cmd st =
  if p_bg p then Ret tt (set_last_bg_pid (fork_pid a) st)
  else wait_foreground a st.
Proof.
  intros H1 H0. unfold external.
  destruct (Z.eqb_spec (fork_pid a) (-1)); [contradiction|].
  destruct (Z.eqb_spec (fork_pid a) 0); [contradiction|].
  now destruct (p_bg p).
Qed.

(** A command that ends in [&]: the parent does not wait. It records the
    child in [last_bg_pid] and changes nothing else, whatever the child
    does; [$!] then expands to the decimal string of the child's PID and
    [$?] to what it expanded to before. *)
Theorem background_pid_recorded (a : answers) (p : parse_state)
    (cmd : string) (st : shell) :
  token p 0 = Some cmd → cmd ≠ "exit" → cmd ≠ "cd" →
  0 < fork_pid a → p_bg p = true →
  let st' := set_last_bg_pid (fork_pid a) st in
  execute a p st = Ret tt st' ∧
  result_of (expand "$!" st') = Val (Some (fmt_d (fork_pid a))) ∧
  result_of (expand "$?" st') = result_of (expand "$?" st).
Proof.
  intros Htok Hexit Hcd Hpid Hbg st'.
  split; [|split].
  - rewrite (execute_external _ _ _ _ Htok Hexit Hcd).
    rewrite external_parent by lia. now rewrite Hbg.
  - now apply expand_last_bg.
  - rewrite !(expand_token "$?" "?" "") by reflexivity.
    unfold subst_value.
    change (Ascii.eqb "?" "!") with false.
    change (Ascii.eqb "?" "$") with false.
    change (Ascii.eqb "?" "?") with true. cbv iota.
    now rewrite !expand_empty.
Qed.

Lemma background_pid_recorded_witness :
  execute sample_answers bg_parse sample_shell =
  Ret tt (set_last_bg_pid 4300 sample_shell) ∧
  result_of (expand "$!" (set_last_bg_pid 4300 sample_shell)) =
  Val (Some "4300") ∧
  result_of (expand "$?" (set_last_bg_pid 4300 sample_shell)) =
  result_of (expand "$?" sample_shell).
Proof.
  apply (background_pid_recorded sample_answers bg_parse "cat" sample_shell).
  - reflexivity.
  - discriminate.
  - discriminate.
  - reflexivity.
  - reflexivity.
Defined.

(** A foreground child that was stopped: the shell writes the notice,
    records the child as the background process, keeps the status word
    [waitpid] stored (the signal times 256 plus 127, not 128 plus the
    signal) as [last_status] and sends SIGCONT. *)
Theorem foreground_stop_recorded (sig : Z) (a : answers) (p : parse_state)
    (cmd : string) (st : shell) :
  0 <= sig → child_exit a = W_STOPCODE sig →
  token p 0 = Some cmd → cmd ≠ "exit" → cmd ≠ "cd" →
  0 < fork_pid a → p_bg p = false →
  ∃ st', execute a p st = Ret tt st' ∧
         last_status st' = sig * 256 + 127 ∧
         last_bg_pid st' = fork_pid a ∧
         os_log (os st') =
           (os_log (os st) ++
            [ChildStopped (fork_pid a); SentCont (fork_pid a)])%list ∧
         result_of (expand "$?" st') = Val (Some (fmt_d (sig * 256 + 127))) ∧
         result_of (expand "$!" st') = Val (Some (fmt_d (fork_pid a))).
Proof.
  intros Hsig Hstatus Htok Hexit Hcd Hpid Hbg.
  destruct (stopcode_tests sig Hsig) as (Hstop & Hsignaled & _ & Hword).
  rewrite (execute_external _ _ _ _ Htok Hexit Hcd).
  rewrite external_parent, Hbg by lia.
  unfold wait_foreground. rewrite Hstatus, Hsignaled, Hstop.
  unfold bind, modify_os, modify.
  eexists. split; [reflexivity|].
  cbn [last_status last_bg_pid os os_log set_last_status set_last_bg_pid
       set_os os_emit].
  split; [exact Hword|]. split; [reflexivity|].
  split; [now rewrite <- app_assoc|].
  split.
  - rewrite expand_status; cbn [last_status set_last_status set_os];
      [now rewrite Hword | lia].
  - now rewrite expand_last_bg.
Qed.

Lemma foreground_stop_recorded_witness :
  ∃ st', execute (Answers 4300 5247) sample_parse sample_shell = Ret tt st' ∧
         last_status st' = 20 * 256 + 127 ∧
         last_bg_pid st' = 4300 ∧
         os_log (os st') =
           (os_log (os sample_shell) ++
            [ChildStopped 4300; SentCont 4300])%list ∧
         result_of (expand "$?" st') = Val (Some (fmt_d (20 * 256 + 127))) ∧
         result_of (expand "$!" st') = Val (Some (fmt_d 4300)).
Proof.
  apply (foreground_stop_recorded 20 (Answers 4300 5247) sample_parse "cat"
           sample_shell).
  - lia.
  - reflexivity.
  - reflexivity.
  - discriminate.
  - discriminate.
  - reflexivity.
  - reflexivity.
Defined.

(** Whatever status word [waitpid] stored for a foreground child that
    was not stopped (the initial -13 of a failed [waitpid] included), the
    status the shell records is a byte, nothing else changes, and [$?]
    expands to its decimal string. *)
Theorem foreground_status_is_a_byte (a : answers) (p : parse_state)
    (cmd : string) (st : shell) :
  token p 0 = Some cmd → cmd ≠ "exit" → cmd ≠ "cd" →
  fork_pid a ≠ -1 → fork_pid a ≠ 0 → p_bg p = false →
  WIFSTOPPED (child_exit a) = false →
  ∃ v, execute a p st = Ret tt (set_last_status v st) ∧ 0 <= v <= 255 ∧
       result_of (expand "$?" (set_last_status v st)) = Val (Some (fmt_d v)).
Proof.
  intros Htok Hexit Hcd H1 H0 Hbg Hstop.
  rewrite (execute_external _ _ _ _ Htok Hexit Hcd).
  rewrite external_parent, Hbg by assumption.
  unfold wait_foreground. rewrite Hstop.
  destruct (WIFSIGNALED (child_exit a)) eqn:Hsig.
  - apply wifsignaled_iff in Hsig.
    exists (128 + WTERMSIG (child_exit a)).
    split; [reflexivity|]. split; [lia|].
    apply expand_status. cbn [last_status set_last_status]. lia.
  - pose proof (wexitstatus_range (child_exit a)) as Hr.
    exists (WEXITSTATUS (child_exit a)).
    split; [reflexivity|]. split; [lia|].
    apply expand_status. cbn [last_status set_last_status]. lia.
Qed.

Lemma foreground_status_is_a_byte_witness :
  ∃ v, execute (Answers 4300 (-13)) sample_parse sample_shell =
       Ret tt (set_last_status v sample_shell) ∧ 0 <= v <= 255 ∧
       result_of (expand "$?" (set_last_status v sample_shell)) =
       Val (Some (fmt_d v)).
Proof.
  apply (foreground_status_is_a_byte (Answers 4300 (-13)) sample_parse "cat"
           sample_shell).
  - reflexivity.
  - discriminate.
  - discriminate.
  - discriminate.
  - discriminate.
  - reflexivity.
  - reflexivity.
Defined.

(** ** The files behind the redirections *)

Lemma open_out_accepted (trunc : bool) (path : string) (st : shell) :
  refused path st = false →
  ∃ o', open_out trunc (Some path) st = Ret tt (set_os o' st) ∧
        os_files o' =
          <[path := opened_file trunc (os_files (os st) !! path)]>
            (os_files (os st)) ∧
        os_log o' = os_log (os st) ∧ os_cwd o' = os_cwd (os st) ∧
        os_env o' = os_env (os st) ∧ os_pid o' = os_pid (os st) ∧
        os_kernel o' = os_kernel (os st) ∧ os_umask o' = os_umask (os st) ∧
        os_stdin o' = os_stdin (os st) ∧ os_stdout o' = os_stdout (os st).
Proof.
  unfold refused, open_out, access_W, fopen_out, chmod.
  unfold bind, get, ret, set_errno, report_errno, modify_os, modify, exit.
  destruct (os_files (os st) !! path) as [f|] eqn:Hf.
  - intros Hw%negb_false_iff. rewrite Hw. cbn. rewrite Hf, Hw. cbn.
    eexists. split; [reflexivity|]. cbn.
    repeat split. now destruct trunc, f.
  - intros Hc%negb_false_iff. cbn. rewrite Hf, Hc. cbn.
    rewrite lookup_insert_eq. cbn.
    eexists. split; [reflexivity|]. cbn.
    repeat split. now rewrite insert_insert_eq.
Qed.

Lemma open_out_refused (trunc : bool) (path : string) (st : shell) :
  refused path st = true →
  ∃ o', open_out trunc (Some path) st = Exited EXIT_FAILURE (set_os o' st) ∧
        os_files o' = os_files (os st) ∧
        os_log o' =
          (os_log (os st) ++
           [ErrNo (k_open_errno (os_kernel (os st)) path)])%list.
Proof.
  unfold refused, open_out, access_W, fopen_out, chmod.
  unfold bind, get, ret, set_errno, report_errno, modify_os, modify, exit.
  destruct (os_files (os st) !! path) as [f|] eqn:Hf.
  - intros Hw%negb_true_iff. rewrite Hw. cbn. rewrite Hf, Hw. cbn.
    eexists. split; [reflexivity|]. cbn. split; reflexivity.
  - intros Hc%negb_true_iff. cbn. rewrite Hf, Hc. cbn.
    eexists. split; [reflexivity|]. cbn. split; reflexivity.
Qed.

Lemma opened_file_writable (trunc : bool) (old : option file) :
  (∀ f, old = Some f → owner_writable f = true) →
  owner_writable (opened_file trunc old) = true.
Proof.
  destruct old as [f|]; cbn; [|reflexivity].
  intros H. specialize (H f eq_refl). now destruct f.
Qed.

(** An accepted [fopen] for writing leaves every target acceptable that
    was, and every readable file readable. *)
Lemma open_out_keeps (trunc : bool) (path : string) (st : shell)
    (o' : os_state) :
  refused path st = false →
  os_files o' =
    <[path := opened_file trunc (os_files (os st) !! path)]>
      (os_files (os st)) →
  os_kernel o' = os_kernel (os st) →
  (∀ q, refused q st = false → refused q (set_os o' st) = false) ∧
  (∀ q, refused q st = true → q ≠ path → refused q (set_os o' st) = true) ∧
  (∀ q, readable q st = true → readable q (set_os o' st) = true).
Proof.
  intros Hok Hfiles Hk. unfold refused, readable in *. cbn [os set_os].
  rewrite Hfiles, Hk. split; [|split]; intros q.
  - destruct (decide (q = path)) as [->|Hne].
    + intros _. rewrite lookup_insert_eq. apply negb_false_iff.
      apply opened_file_writable. intros f Hf. rewrite Hf in Hok.
      now apply negb_false_iff.
    + now rewrite lookup_insert_ne.
  - intros Hq Hne. now rewrite lookup_insert_ne.
  - destruct (decide (q = path)) as [->|Hne].
    + rewrite lookup_insert_eq.
      destruct (os_files (os st) !! path) as [[d m]|]; [|discriminate].
      now destruct trunc.
    + now rewrite lookup_insert_ne.
Qed.

Lemma open_read_readable (path : string) (st : shell) :
  readable path st = true → open_read (Some path) st = Ret tt st.
Proof.
  unfold readable, open_read, fopen_in, bind, get, ret.
  destruct (os_files (os st) !! path) as [f|]; [|discriminate].
  now intros ->.
Qed.


(** What a redirection of output does to its target when [fopen] is not
    refused, for [>] ([open_write]) and [>>] ([open_append]): a file that
    is there keeps its permission bits, and keeps its bytes under [>>]
    while [>] empties it; an absent file is created empty with the bits
    0777, whatever the umask. No other file changes, and nothing is
    written to [stderr]. *)
Theorem output_target_after_open (trunc : bool) (path : string)
    (st : shell) :
  refused path st = false →
  ∃ st', (if trunc then open_write else open_append) (Some path) st =
         Ret tt st' ∧
         os_files (os st') !! path =
           Some (match os_files (os st) !! path with
                 | Some f => File (if trunc then "" else f_data f) (f_mode f)
                 | None => File "" 511
                 end) ∧
         (∀ q, q ≠ path → os_files (os st') !! q = os_files (os st) !! q) ∧
         os_log (os st') = os_log (os st).
Proof.
  intros Hok.
  destruct (open_out_accepted trunc path st Hok)
    as (o' & Hrun & Hfiles & Hlog & _).
  exists (set_os o' st). split; [now destruct trunc|]. cbn [os set_os].
  rewrite Hfiles. split; [|split; [|exact Hlog]].
  - now rewrite lookup_insert_eq.
  - intros q Hq. now rewrite lookup_insert_ne.
Qed.

Lemma output_target_after_open_witness :
  ∃ st', open_append (Some "notes.txt") sample_shell = Ret tt st' ∧
         os_files (os st') !! "notes.txt" =
           Some (File "remember the milk" 420) ∧
         (∀ q, q ≠ "notes.txt" →
               os_files (os st') !! q = os_files (os sample_shell) !! q) ∧
         os_log (os st') = os_log (os sample_shell).
Proof.
  apply (output_target_after_open false "notes.txt" sample_shell).
  reflexivity.
Defined.

(** ** The child *)

Lemma child_unfold (p : parse_state) (cmd : string) :
  child p cmd =
  ((match p_append p with
    | Some t => open_append (Some t) ;;; modify_os (os_set_stdout (Some t))
    | None => ret tt
    end) ;;;
   (match p_write p with
    | Some t => open_write (Some t) ;;; modify_os (os_set_stdout (Some t))
    | None => ret tt
    end) ;;;
   (match p_read p with
    | Some t => open_read (Some t) ;;; modify_os (os_set_stdin (Some t))
    | None => ret tt
    end) ;;;
   s <- get ;;
   if k_exec_ok (os_kernel (os s)) cmd
   then (fun s' => Execed (argv_of (p_tokens p)) s')
   else
     set_errno (k_exec_errno (os_kernel (os s)) cmd) ;;;
     report_errno ;;; exit EXIT_FAILURE).
Proof. reflexivity. Qed.

(** The state of the child after its redirections of output. *)
Lemma child_outputs (p : parse_state) (st : shell) :
  (∀ t, p_append p = Some t → refused t st = false) →
  (∀ t, p_write p = Some t → refused t st = false) →
  ∃ o',
    ((match p_append p with
      | Some t => open_append (Some t) ;;; modify_os (os_set_stdout (Some t))
      | None => ret tt
      end) ;;;
     (match p_write p with
      | Some t => open_write (Some t) ;;; modify_os (os_set_stdout (Some t))
      | None => ret tt
      end)) st = Ret tt (set_os o' st) ∧
    os_stdout o' = child_stdout p st ∧ os_stdin o' = os_stdin (os st) ∧
    os_log o' = os_log (os st) ∧ os_kernel o' = os_kernel (os st) ∧
    (∀ t, p_write p = Some t → file_empty t (set_os o' st)) ∧
    (∀ t, p_append p = Some t → is_Some (os_files o' !! t)) ∧
    (∀ q, readable q st = true → readable q (set_os o' st) = true) ∧
    (∀ q, p_append p ≠ Some q → p_write p ≠ Some q →
          os_files o' !! q = os_files (os st) !! q).
Proof.
  intros Ha Hw. unfold child_stdout.
  assert (Hset : ∀ o1 o2, set_os o2 (set_os o1 st) = set_os o2 st)
    by reflexivity.
  (* the state after [>>] *)
  assert (Happ : ∃ o1,
    (match p_append p with
     | Some t => open_append (Some t) ;;; modify_os (os_set_stdout (Some t))
     | None => ret tt
     end) st = Ret tt (set_os o1 st) ∧
    os_stdout o1 = match p_append p with
                   | Some t => Some t
                   | None => os_stdout (os st)
                   end ∧
    os_stdin o1 = os_stdin (os st) ∧ os_log o1 = os_log (os st) ∧
    os_kernel o1 = os_kernel (os st) ∧
    (∀ t, p_append p = Some t → is_Some (os_files o1 !! t)) ∧
    (∀ q, refused q st = false → refused q (set_os o1 st) = false) ∧
    (∀ q, readable q st = true → readable q (set_os o1 st) = true) ∧
    (∀ q, p_append p ≠ Some q → os_files o1 !! q = os_files (os st) !! q)).
  { destruct (p_append p) as [t|].
    - destruct (open_out_accepted false t st (Ha t eq_refl))
        as (o1 & Hrun & Hf & Hl & _ & _ & _ & Hk & _ & Hin & Hout).
      destruct (open_out_keeps false t st o1 (Ha t eq_refl) Hf Hk)
        as (Hkeep & _ & Hread).
      exists (os_set_stdout (Some t) o1).
      unfold open_append. rewrite (bind_ret _ _ _ _ _ Hrun).
      split; [reflexivity|]. cbn [os_stdout os_stdin os_log os_kernel
                                    os_files os_set_stdout].
      repeat split; try assumption.
      + intros t' Ht'. inversion Ht'; subst t'. rewrite Hf.
        rewrite lookup_insert_eq. eauto.
      + intros q Hq. rewrite Hf. rewrite lookup_insert_ne; congruence.
    - exists (os st). destruct st as [a b c d e o]; cbn.
      repeat split; auto. intros t Ht; discriminate. }
  destruct Happ as (o1 & Hrun1 & Hout1 & Hin1 & Hlog1 & Hk1 & Hex1 & Hkeep1
                       & Hread1 & Hoth1).
  rewrite (bind_ret _ _ _ _ _ Hrun1).
  destruct (p_write p) as [t|] eqn:Hpw.
  - assert (Hok : refused t (set_os o1 st) = false)
      by (apply Hkeep1, Hw; reflexivity).
    destruct (open_out_accepted true t (set_os o1 st) Hok)
      as (o2 & Hrun & Hf & Hl & _ & _ & _ & Hk & _ & Hin & Hout).
    cbn [os set_os] in Hf, Hl, Hk, Hin, Hout.
    destruct (open_out_keeps true t (set_os o1 st) o2 Hok Hf Hk)
      as (_ & _ & Hread).
    rewrite Hset in Hrun.
    exists (os_set_stdout (Some t) o2).
    unfold open_write. rewrite (bind_ret _ _ _ _ _ Hrun).
    split; [reflexivity|]. cbn [os_stdout os_stdin os_log os_kernel
                                  os_files os_set_stdout].
    repeat split; try congruence.
    + intros t' Ht'. inversion Ht'; subst t'. unfold file_empty.
      cbn [os set_os os_files os_set_stdout]. rewrite Hf, lookup_insert_eq.
      eexists. split; [reflexivity|].
      now destruct (os_files o1 !! t) as [[d m]|].
    + intros t' Ht'. rewrite Hf.
      destruct (decide (t = t')) as [->|Hne];
        [rewrite lookup_insert_eq; eauto|].
      rewrite lookup_insert_ne by assumption. now apply Hex1.
    + intros q Hq. specialize (Hread q (Hread1 q Hq)).
      rewrite Hset in Hread. exact Hread.
    + intros q Hqa Hqw. rewrite Hf.
      rewrite lookup_insert_ne by congruence. now apply Hoth1.
  - exists o1. split; [reflexivity|].
    repeat split; try assumption.
    + intros t Ht; discriminate.
    + intros q Hqa _. now apply Hoth1.
Qed.

Lemma bind_assoc {A B C} (m : M A) (k : A → M B) (h : B → M C)
    (st : shell) :
  bind (bind m k) h st = bind m (fun a => bind (k a) h) st.
Proof. unfold bind. now destruct (m st). Qed.

(** The child of a command whose redirections all open and whose
    program is found: [execvp] gets the tokens before the sentinel; the
    standard output is the target of [>], or that of [>>] when there is
    no [>]; the standard input is the target of [<]; the target of [>] is
    empty, that of [>>] exists, and nothing was reported. *)
Theorem child_redirects_then_execs (p : parse_state) (cmd : string)
    (st : shell) :
  (∀ t, p_append p = Some t → refused t st = false) →
  (∀ t, p_write p = Some t → refused t st = false) →
  (∀ t, p_read p = Some t → readable t st = true) →
  k_exec_ok (os_kernel (os st)) cmd = true →
  ∃ st', child p cmd st = Execed (argv_of (p_tokens p)) st' ∧
         os_stdout (os st') = child_stdout p st ∧
         os_stdin (os st') = child_stdin p st ∧
         (∀ t, p_write p = Some t → file_empty t st') ∧
         (∀ t, p_append p = Some t → is_Some (os_files (os st') !! t)) ∧
         os_log (os st') = os_log (os st).
Proof.
  intros Ha Hw Hr Hexec.
  destruct (child_outputs p st Ha Hw)
    as (o' & Hrun & Hout & Hin & Hlog & Hk & Hempty & Hex & Hread & _).
  rewrite child_unfold, <- bind_assoc.
  rewrite (bind_ret _ _ _ _ _ Hrun).
  unfold child_stdin.
  destruct (p_read p) as [t|].
  - specialize (Hread t (Hr t eq_refl)).
    unfold bind at 1. unfold bind at 1.
    rewrite (open_read_readable _ _ Hread).
    unfold modify_os, modify, bind, get. cbn [os set_os os_kernel os_set_stdin].
    rewrite Hk, Hexec.
    eexists. split; [reflexivity|].
    cbn [os set_os os_stdout os_stdin os_log os_files os_set_stdin].
    unfold file_empty in *. cbn [os set_os os_files os_set_stdin] in *.
    repeat split; auto.
  - unfold bind, ret, get. cbn [os set_os]. rewrite Hk, Hexec.
    eexists. split; [reflexivity|]. cbn [os set_os].
    repeat split; auto.
Qed.

Lemma child_redirects_then_execs_witness :
  ∃ st', child redirected_parse "cat" sample_shell = Execed ["cat"] st' ∧
         os_stdout (os st') = Some "out.txt" ∧
         os_stdin (os st') = Some "notes.txt" ∧
         (∀ t, Some "out.txt" = Some t → file_empty t st') ∧
         (∀ t, Some "log.txt" = Some t → is_Some (os_files (os st') !! t)) ∧
         os_log (os st') = [].
Proof.
  apply (child_redirects_then_execs redirected_parse "cat" sample_shell).
  - intros t Ht. inversion Ht. reflexivity.
  - intros t Ht. inversion Ht. reflexivity.
  - intros t Ht. inversion Ht. reflexivity.
  - reflexivity.
Defined.



(** ** The parsing loop, turn by turn *)

Lemma parse_loop_exit (fuel n : nat) (p : parse_state) (st : shell) :
  Z.of_nat n <= p_i p → parse_loop fuel n p st = Ret p st.
Proof.
  intros H. destruct fuel; cbn [parse_loop];
    destruct (Z.ltb_spec (p_i p) (Z.of_nat n)); try lia; reflexivity.
Qed.

Lemma parse_loop_word (fuel n : nat) (p : parse_state) (w : string)
    (st : shell) :
  0 <= p_i p < Z.of_nat n →
  words st !! Z.to_nat (p_i p) = Some (Some w) →
  is_redirect w = false → (p_i p = Z.of_nat n - 1 → w ≠ "&") →
  0 <= p_i p - p_op p < Z.of_nat (length (p_tokens p)) →
  parse_loop (S fuel) n p st =
  parse_loop fuel n
    (Parse (p_i p + 1) (p_n_tokens p + 1) (p_op p) (p_bg p) (p_read p)
       (p_write p) (p_append p)
       (<[Z.to_nat (p_i p - p_op p) := Some w]> (p_tokens p))) st.
Proof.
  intros Hi Hw Hred Hamp Hidx. cbn [parse_loop].
  destruct (Z.ltb_spec (p_i p) (Z.of_nat n)); [|lia].
  rewrite (bind_ret _ _ _ _ _ (word_at_holds _ _ _ (proj1 Hi) Hw)).
  assert (Hbg : (p_i p =? Z.of_nat n - 1) && String.eqb w "&" = false).
  { destruct (Z.eqb_spec (p_i p) (Z.of_nat n - 1)); [|reflexivity].
    destruct (String.eqb_spec w "&"); [now exfalso; apply Hamp|reflexivity]. }
  destruct (is_redirect_false _ Hred) as (H1 & H2 & H3).
  unfold parse_word. rewrite Hbg, H1, H2, H3.
  rewrite bind_assoc.
  rewrite (bind_ret _ _ _ _ _ (store_token_holds _ _ _ _ Hidx)).
  reflexivity.
Qed.

Lemma parse_loop_amp (fuel n : nat) (p : parse_state) (st : shell) :
  0 <= p_i p → p_i p = Z.of_nat n - 1 →
  words st !! Z.to_nat (p_i p) = Some (Some "&") →
  parse_loop (S fuel) n p st =
  Ret (Parse (p_i p + 1) (p_n_tokens p) (p_op p + 1) true (p_read p)
         (p_write p) (p_append p) (p_tokens p)) st.
Proof.
  intros Hi Hlast Hw. cbn [parse_loop].
  destruct (Z.ltb_spec (p_i p) (Z.of_nat n)); [|lia].
  rewrite (bind_ret _ _ _ _ _ (word_at_holds _ _ _ Hi Hw)).
  unfold parse_word.
  destruct (Z.eqb_spec (p_i p) (Z.of_nat n - 1)); [|contradiction].
  cbn [andb String.eqb Ascii.eqb Bool.eqb].
  unfold bind, ret. apply parse_loop_exit. cbn [p_i]. lia.
Qed.

Lemma operator_is_redirect (r : redirection) : is_redirect (operator r) = true.
Proof. now destruct r. Qed.

Lemma parse_loop_redirect (fuel n : nat) (p : parse_state)
    (r : redirection) (slot : option string) (st : shell) :
  0 <= p_i p < Z.of_nat n →
  words st !! Z.to_nat (p_i p) = Some (Some (operator r)) →
  words st !! Z.to_nat (p_i p + 1) = Some slot →
  parse_loop (S fuel) n p st =
  match r with
  | Output =>
      (open_write slot ;;;
       parse_loop fuel n
         (Parse (p_i p + 1 + 1) (p_n_tokens p) (p_op p + 2) (p_bg p)
            (p_read p) slot (p_append p) (p_tokens p))) st
  | Input =>
      parse_loop fuel n
        (Parse (p_i p + 1 + 1) (p_n_tokens p) (p_op p + 2) (p_bg p)
           slot (p_write p) (p_append p) (p_tokens p)) st
  | Appending =>
      parse_loop fuel n
        (Parse (p_i p + 1 + 1) (p_n_tokens p) (p_op p + 2) (p_bg p)
           (p_read p) (p_write p) slot (p_tokens p)) st
  end.
Proof.
  intros Hi Hw Hslot. cbn [parse_loop].
  destruct (Z.ltb_spec (p_i p) (Z.of_nat n)); [|lia].
  rewrite (bind_ret _ _ _ _ _ (word_at_holds _ _ _ (proj1 Hi) Hw)).
  unfold parse_word.
  rewrite (is_redirect_not_amp _ (operator_is_redirect r)), andb_false_r.
  assert (Hs : word_slot (p_i p + 1) st = Ret slot st)
    by (apply word_slot_holds; [lia | exact Hslot]).
  destruct r; cbn [operator String.eqb Ascii.eqb Bool.eqb].
  - rewrite bind_assoc, (bind_ret _ _ _ _ _ Hs). reflexivity.
  - rewrite bind_assoc, (bind_ret _ _ _ _ _ Hs).
    rewrite bind_assoc. unfold bind. now destruct (open_write slot st).
  - rewrite bind_assoc, (bind_ret _ _ _ _ _ Hs). reflexivity.
Qed.

Lemma set_os_same (st : shell) : st = set_os (os st) st.
Proof. now destruct st. Qed.

Lemma tokens_are_store (p : parse_state) (toks : list string) (w : string) :
  tokens_are p toks → (length toks < length (p_tokens p))%nat →
  tokens_are
    (Parse (p_i p + 1) (p_n_tokens p + 1) (p_op p) (p_bg p) (p_read p)
       (p_write p) (p_append p)
       (<[Z.to_nat (p_i p - p_op p) := Some w]> (p_tokens p)))
    (toks ++ [w]).
Proof.
  intros (Hshape & Hle & Hn & Hidx) Hlt. unfold tokens_are.
  cbn [p_tokens p_n_tokens p_i p_op].
  rewrite Hidx, Nat2Z.id, length_insert, length_app. cbn [length].
  split; [|lia].
  pose proof (parse_inv_store p toks w Hshape Hlt) as H.
  now rewrite length_app in H.
Qed.

Lemma tokens_are_skip (p : parse_state) (toks : list string)
    (rd wr ap : option string) :
  tokens_are p toks →
  tokens_are
    (Parse (p_i p + 1 + 1) (p_n_tokens p) (p_op p + 2) (p_bg p) rd wr ap
       (p_tokens p))
    toks.
Proof.
  intros (Hshape & Hle & Hn & Hidx). unfold tokens_are.
  cbn [p_tokens p_n_tokens p_i p_op]. repeat split; auto; lia.
Qed.

Lemma holds_from_in_range (st : shell) (i : nat) (w : string)
    (ws : list string) :
  holds_from st i (w :: ws) → (i < MAX_WORDS st)%nat.
Proof.
  intros H%holds_from_head. now apply lookup_lt_Some in H.
Qed.

Lemma permissive_not_refused (st : shell) (q : string) :
  permissive st → refused q st = false.
Proof.
  intros [Hc Hw]. unfold refused.
  destruct (os_files (os st) !! q) as [f|] eqn:Hf.
  - now rewrite (Hw _ _ Hf).
  - now rewrite Hc.
Qed.

(** The loop over the words of some items: the arguments go to [tokens]
    in order, each redirection sets its local, and the targets of [>] are
    opened for writing. *)
Lemma parse_loop_prefix (its : list item) :
  ∀ (rest : list string) (fuel n : nat) (p : parse_state)
    (toks : list string) (st : shell),
  forallb arg_ok its = true →
  (rest = [] →
   p_i p + Z.of_nat (length (flat_map item_words its)) = Z.of_nat n →
   ends_in_amp its = false) →
  0 <= p_i p → 0 <= p_op p → tokens_are p toks →
  length (p_tokens p) = MAX_WORDS st →
  holds_from st (Z.to_nat (p_i p)) (flat_map item_words its ++ rest) →
  p_i p + Z.of_nat (length (flat_map item_words its ++ rest)) <= Z.of_nat n →
  (length its <= fuel)%nat →
  Forall (λ t, refused t st = false) (output_targets its) →
  ∃ p' st',
    parse_loop fuel n p st = parse_loop (fuel - length its) n p' st' ∧
    tokens_are p' (toks ++ args_of its) ∧
    p_i p' = p_i p + Z.of_nat (length (flat_map item_words its)) ∧
    0 <= p_op p' ∧
    length (p_tokens p') = length (p_tokens p) ∧
    p_bg p' = p_bg p ∧
    p_read p' = target_of Input its (p_read p) ∧
    p_write p' = target_of Output its (p_write p) ∧
    p_append p' = target_of Appending its (p_append p) ∧
    st' = set_os (os st') st ∧
    (output_targets its = [] → st' = st) ∧
    (∀ q, refused q st = false → refused q st' = false) ∧
    (∀ q, refused q st = true → q ∉ output_targets its →
          refused q st' = true) ∧
    (∀ t, file_empty t st → file_empty t st') ∧
    (∀ t, t ∈ output_targets its → file_empty t st') ∧
    os_log (os st') = os_log (os st) ∧
    (∀ q, q ∉ output_targets its →
          os_files (os st') !! q = os_files (os st) !! q) ∧
    os_kernel (os st') = os_kernel (os st).
Proof.
  induction its as [|it its IH];
    intros rest fuel n p toks st Hok Hamp Hi Hop Htoks Hlen Hholds Hn Hfuel
      Hacc.
  - exists p, st. rewrite Nat.sub_0_r, app_nil_r. cbn.
    repeat split; auto; try lia; try apply Htoks.
    + apply set_os_same.
    + intros t Ht. inversion Ht.
  - destruct fuel as [|f]; [cbn in Hfuel; lia|].
    cbn [forallb] in Hok. apply andb_true_iff in Hok as [Hit Hok].
    assert (Hlen_it : (0 < length (item_words it))%nat)
      by (destruct it; cbn; lia).
    assert (Hamp' : rest = [] →
              p_i p + Z.of_nat (length (item_words it)) +
                Z.of_nat (length (flat_map item_words its)) = Z.of_nat n →
              ends_in_amp its = false).
    { intros Hr Hend. destruct its as [|it' its']; [reflexivity|].
      apply (Hamp Hr). cbn [flat_map] in *. rewrite !length_app in *. lia. }
    assert (Hsolo : rest = [] → its = [] →
              p_i p + Z.of_nat (length (item_words it)) = Z.of_nat n →
              ends_in_amp [it] = false).
    { intros Hr -> Hend. apply (Hamp Hr). cbn [flat_map].
      rewrite app_nil_r. exact Hend. }
    clear Hamp.
    cbn [flat_map] in Hholds, Hn. rewrite <- app_assoc in Hholds, Hn.
    rewrite !length_app in Hn.
    destruct it as [w|r t]; cbn [item_words app length] in Hholds, Hn, Hamp', Hsolo.
    + (* an argument *)
      pose proof (holds_from_head _ _ _ _ Hholds) as Hw.
      pose proof (holds_from_in_range _ _ _ _ Hholds) as Hrange.
      destruct Htoks as (Hshape & Hle & Hnt & Hidx).
      assert (Htok_lt : (length toks < length (p_tokens p))%nat) by lia.
      rewrite (parse_loop_word f n p w st); try lia; try assumption.
      2:{ now apply negb_true_iff. }
      2:{ intros Hlast ->.
          assert (Hits : its = []).
          { destruct its as [|[w'|r' t'] its']; [reflexivity| |];
              cbn in Hn; rewrite ?length_app in Hn; cbn in Hn; lia. }
          subst its. cbn in Hn.
          assert (Hrest : rest = [])
            by (destruct rest; [reflexivity|cbn in Hn; lia]).
          specialize (Hsolo Hrest eq_refl). cbn in Hsolo.
          specialize (Hsolo ltac:(lia)). discriminate. }
      set (p1 := Parse (p_i p + 1) (p_n_tokens p + 1) (p_op p) (p_bg p)
                   (p_read p) (p_write p) (p_append p)
                   (<[Z.to_nat (p_i p - p_op p) := Some w]> (p_tokens p))).
      assert (Q1 : rest = [] →
                p_i p1 + Z.of_nat (length (flat_map item_words its)) =
                  Z.of_nat n → ends_in_amp its = false)
        by (intros Hr Hend; apply Hamp'; [exact Hr | cbn [p_i p1] in Hend; lia]).
      assert (Q2 : 0 <= p_i p1) by (cbn; lia).
      assert (Q3 : 0 <= p_op p1) by (cbn; lia).
      assert (Q4 : tokens_are p1 (toks ++ [w]))
        by (apply tokens_are_store; [repeat split; assumption | assumption]).
      assert (Q5 : length (p_tokens p1) = MAX_WORDS st)
        by (cbn; now rewrite length_insert).
      assert (Q6 : holds_from st (Z.to_nat (p_i p1))
                     (flat_map item_words its ++ rest)).
      { cbn [p_i p1].
        replace (Z.to_nat (p_i p + 1)) with (S (Z.to_nat (p_i p))) by lia.
        eapply holds_from_tail, Hholds. }
      assert (Q7 : p_i p1 +
                   Z.of_nat (length (flat_map item_words its ++ rest)) <=
                   Z.of_nat n)
        by (cbn [p_i p1]; rewrite length_app; lia).
      assert (Q8 : (length its <= f)%nat) by (cbn in Hfuel; lia).
      destruct (IH rest f n p1 (toks ++ [w])%list st Hok Q1 Q2 Q3 Q4 Q5 Q6 Q7
                  Q8 Hacc)
        as (p' & st' & Hrun & H1 & H2 & H3 & H4 & H5 & H6 & H7 & H8 & H9
            & H10 & H11 & H12 & H13 & H14 & H15 & H16 & H17).
      exists p', st'. split; [exact Hrun|].
      cbn [p_i p_op p_tokens p_bg p_read p_write p_append p1] in *.
      cbn [args_of omap target_of output_targets length flat_map item_words
           app].
      fold (args_of its). fold (output_targets its).
      rewrite <- app_assoc in H1. cbn [app] in H1.
      rewrite length_insert in H4.
      split; [exact H1|]. split; [lia|].
      repeat split; auto.
    + (* a redirection *)
      pose proof (holds_from_head _ _ _ _ Hholds) as Hw.
      pose proof (holds_from_head _ _ _ _ (holds_from_tail _ _ _ _ Hholds))
        as Ht.
      replace (S (Z.to_nat (p_i p))) with (Z.to_nat (p_i p + 1)) in Ht by lia.
      rewrite (parse_loop_redirect f n p r (Some t) st); try assumption.
      2:{ lia. }
      assert (Hholds' : holds_from st (Z.to_nat (p_i p + 1 + 1))
                          (flat_map item_words its ++ rest)).
      { replace (Z.to_nat (p_i p + 1 + 1)) with (S (S (Z.to_nat (p_i p))))
          by lia.
        eapply holds_from_tail, holds_from_tail, Hholds. }
      assert (Q8 : (length its <= f)%nat) by (cbn in Hfuel; lia).
      assert (Hstep : ∀ rd wr ap (s1 : shell),
        words s1 = words st →
        Forall (λ t, refused t s1 = false) (output_targets its) →
        let p1 := Parse (p_i p + 1 + 1) (p_n_tokens p) (p_op p + 2) (p_bg p)
                    rd wr ap (p_tokens p) in
        ∃ p' st',
          parse_loop f n p1 s1 = parse_loop (f - length its) n p' st' ∧
          tokens_are p' (toks ++ args_of its) ∧
          p_i p' = p_i p + 1 + 1 +
                   Z.of_nat (length (flat_map item_words its)) ∧
          0 <= p_op p' ∧
          length (p_tokens p') = length (p_tokens p) ∧
          p_bg p' = p_bg p ∧
          p_read p' = target_of Input its rd ∧
          p_write p' = target_of Output its wr ∧
          p_append p' = target_of Appending its ap ∧
          st' = set_os (os st') s1 ∧
          (output_targets its = [] → st' = s1) ∧
          (∀ q, refused q s1 = false → refused q st' = false) ∧
          (∀ q, refused q s1 = true → q ∉ output_targets its →
                refused q st' = true) ∧
          (∀ t, file_empty t s1 → file_empty t st') ∧
          (∀ t, t ∈ output_targets its → file_empty t st') ∧
          os_log (os st') = os_log (os s1) ∧
          (∀ q, q ∉ output_targets its →
                os_files (os st') !! q = os_files (os s1) !! q) ∧
          os_kernel (os st') = os_kernel (os s1)).
      { intros rd wr ap s1 Hwords Hacc1 p1.
        apply (IH rest f n p1 toks s1 Hok); subst p1;
          cbn [p_i p_op p_tokens]; try lia; try assumption.
        - intros Hr Hend. apply Hamp'; [exact Hr | lia].
        - now apply tokens_are_skip.
        - unfold MAX_WORDS in *. now rewrite Hwords.
        - eapply holds_from_words; [exact Hwords | exact Hholds'].
        - rewrite length_app. lia. }
      destruct r.
      * (* < *)
        destruct (Hstep (Some t) (p_write p) (p_append p) st eq_refl Hacc)
          as (p' & st' & Hrun & H1 & H2 & H3 & H4 & H5 & H6 & H7 & H8 & H9
              & H10 & H11 & H12 & H13 & H14 & H15 & H16 & H17).
        exists p', st'. split; [exact Hrun|].
        cbn [args_of omap target_of output_targets length flat_map item_words
             app same_redirection].
        fold (args_of its). fold (output_targets its).
        split; [exact H1|]. split; [lia|].
        repeat split; auto.
      * (* > *)
        cbn [output_targets omap] in Hacc. fold (output_targets its) in Hacc.
        apply Forall_cons in Hacc as [Hacc_t Hacc].
        destruct (open_out_accepted true t st Hacc_t)
          as (o1 & Hopen & Hfiles & Hlog & _ & _ & _ & Hk & _).
        destruct (open_out_keeps true t st o1 Hacc_t Hfiles Hk)
          as (Hkeep & Hstay & _).
        change (open_out true) with open_write in Hopen.
        rewrite (bind_ret _ _ _ _ _ Hopen).
        destruct (open_write_ret _ _ _ Hopen) as (Hwords & _ & _ & _ & _
                                                   & Hempty & Hframe).
        assert (Hacc1 : Forall (λ q, refused q (set_os o1 st) = false)
                          (output_targets its)).
        { eapply Forall_impl; [exact Hacc|]. intros q Hq. now apply Hkeep. }
        destruct (Hstep (p_read p) (Some t) (p_append p) (set_os o1 st)
                    eq_refl Hacc1)
          as (p' & st' & Hrun & H1 & H2 & H3 & H4 & H5 & H6 & H7 & H8 & H9
              & H10 & H11 & H12 & H13 & H14 & H15 & H16 & H17).
        exists p', st'. split; [exact Hrun|].
        cbn [args_of omap target_of output_targets length flat_map item_words
             app same_redirection].
        fold (args_of its). fold (output_targets its).
        cbn [os set_os os_log] in H15.
        split; [exact H1|]. split; [lia|].
        split; [exact H3|]. split; [exact H4|]. split; [exact H5|].
        split; [exact H6|]. split; [exact H7|]. split; [exact H8|].
        split; [rewrite H9; reflexivity|].
        split; [intros Hnil; discriminate|].
        split; [intros q Hq; now apply H11, Hkeep|].
        split.
        { intros q Hq Hnot. apply H12.
          - apply Hstay; [exact Hq|]. intros ->. apply Hnot. left.
          - intros Hin. apply Hnot. now right. }
        split.
        { intros q Hq. apply H13.
          eapply open_write_keeps_empty; [exact Hopen | exact Hq]. }
        split;
          [intros q [->|Hq]%elem_of_cons; [now apply H13 | now apply H14]|].
        split; [congruence|].
        split.
        { intros q Hq. rewrite H16 by (intros Hin; apply Hq; now right).
          apply Hframe. intros ->. apply Hq. left. }
        rewrite H17. exact Hk.
      * (* >> *)
        destruct (Hstep (p_read p) (p_write p) (Some t) st eq_refl Hacc)
          as (p' & st' & Hrun & H1 & H2 & H3 & H4 & H5 & H6 & H7 & H8 & H9
              & H10 & H11 & H12 & H13 & H14 & H15 & H16 & H17).
        exists p', st'. split; [exact Hrun|].
        cbn [args_of omap target_of output_targets length flat_map item_words
             app same_redirection].
        fold (args_of its). fold (output_targets its).
        split; [exact H1|]. split; [lia|].
        repeat split; auto.
Qed.

(** ** What the parsing block makes of a command line *)

Lemma items_length (its : list item) :
  (length its <= length (flat_map item_words its))%nat.
Proof.
  induction its as [|[w|r t] its IH]; cbn [flat_map item_words length app];
    lia.
Qed.

Lemma holds_from_app (st : shell) (i : nat) (xs ys : list string) :
  holds_from st i (xs ++ ys) → holds_from st (i + length xs) ys.
Proof.
  intros H k w Hk. rewrite <- Nat.add_assoc. apply H.
  now rewrite lookup_app_r, Nat.add_comm, Nat.add_sub by lia.
Qed.

Lemma sentinel_keeps (toks : list string) (k : nat) :
  <[length toks := None]>
    ((Some <$> toks) ++ replicate k (None : option string))%list =
  ((Some <$> toks) ++ replicate k None)%list.
Proof.
  rewrite insert_app_r_alt by (rewrite length_fmap; lia).
  now rewrite insert_replicate.
Qed.

(** The first state of the parsing block. *)
Lemma parse_unfold (n : nat) (st : shell) :
  parse n st =
  (p <- parse_loop n n
          (Parse 0 0 0 false None None None (replicate (MAX_WORDS st) None)) ;;
   p' <- store_token (p_i p - p_op p) None p ;;
   ret (Parse (p_i p') (p_n_tokens p' + 1) (p_op p') (p_bg p') (p_read p')
          (p_write p') (p_append p') (p_tokens p'))) st.
Proof. reflexivity. Qed.

Lemma tokens_are_start (k : nat) :
  tokens_are (Parse 0 0 0 false None None None (replicate k None)) [].
Proof.
  unfold tokens_are. cbn. rewrite length_replicate, Nat.sub_0_r.
  repeat split; lia.
Qed.

(** The parsing block on the words of a command. *)
Lemma parse_command (its : list item) (bg : bool) (st : shell) :
  proper its bg = true →
  holds_from st 0 (command_words its bg) →
  (length (command_words its bg) < MAX_WORDS st)%nat →
  Forall (λ t, refused t st = false) (output_targets its) →
  ∃ p st',
    parse (length (command_words its bg)) st = Ret p st' ∧
    p_tokens p =
      ((Some <$> args_of its) ++
       replicate (MAX_WORDS st - length (args_of its)) None)%list ∧
    (length (args_of its) < MAX_WORDS st)%nat ∧
    p_n_tokens p = Z.of_nat (length (args_of its)) + 1 ∧
    p_bg p = bg ∧
    p_read p = target_of Input its None ∧
    p_write p = target_of Output its None ∧
    p_append p = target_of Appending its None ∧
    st' = set_os (os st') st ∧
    (∀ t, t ∈ output_targets its → file_empty t st') ∧
    (output_targets its = [] → st' = st).
Proof.
  intros Hproper Hholds Hroom Hacc.
  apply andb_true_iff in Hproper as [Hok Hamp].
  set (n := length (command_words its bg)) in *.
  rewrite parse_unfold.
  set (p0 := Parse 0 0 0 false None None None (replicate (MAX_WORDS st) None)).
  pose proof (items_length its) as Hil.
  assert (Hn : n = (length (flat_map item_words its) +
                    (if bg then 1 else 0))%nat).
  { subst n. unfold command_words. rewrite length_app. now destruct bg. }
  assert (Q1 : (if bg then ["&"] else []) = [] →
            p_i p0 + Z.of_nat (length (flat_map item_words its)) = Z.of_nat n →
            ends_in_amp its = false).
  { intros Hr _. destruct bg; [discriminate|].
    now apply negb_true_iff in Hamp. }
  assert (Q7 : p_i p0 +
               Z.of_nat (length (flat_map item_words its ++
                                 (if bg then ["&"] else []))) <= Z.of_nat n).
  { cbn [p_i p0]. rewrite length_app. destruct bg; cbn [length]; lia. }
  destruct (parse_loop_prefix its (if bg then ["&"] else []) n n p0 [] st Hok
              Q1 ltac:(cbn; lia) ltac:(cbn; lia) (tokens_are_start _)
              ltac:(cbn; now rewrite length_replicate) Hholds Q7
              ltac:(destruct bg; lia) Hacc)
    as (p1 & st1 & Hrun & Htoks & Hi & Hop & Hlen & Hbg & Hrd & Hwr & Hap
        & Hst & Hsame & _ & _ & _ & Hempty & _ & _).
  subst p0. cbn [p_i p_op p_tokens p_bg p_read p_write p_append] in *.
  cbn [app] in Htoks. rewrite length_replicate in Hlen.
  destruct Htoks as (Hshape & Hle & Hnt & Hidx).
  assert (Hwords : words st1 = words st) by (rewrite Hst; reflexivity).
  destruct bg.
  - (* the flag *)
    assert (Hamp_word : words st1 !! Z.to_nat (p_i p1) = Some (Some "&")).
    { rewrite Hwords, Hi, Z.add_0_l, Nat2Z.id.
      pose proof (holds_from_app st 0 _ _ Hholds) as H.
      now apply holds_from_head in H. }
    destruct (n - length its)%nat as [|f] eqn:Hf; [lia|].
    rewrite (parse_loop_amp f n p1 st1 ltac:(lia) ltac:(lia) Hamp_word)
      in Hrun.
    rewrite (bind_ret _ _ _ _ _ Hrun).
    match goal with
    | |- context [store_token ?idx None ?q] =>
        assert (Hrange : 0 <= idx < Z.of_nat (length (p_tokens q)))
          by (cbn [p_i p_op p_tokens]; lia)
    end.
    rewrite (bind_ret _ _ _ _ _ (store_token_holds _ None _ st1 Hrange)).
    eexists _, st1. split; [reflexivity|].
    cbn [p_i p_op p_tokens p_bg p_read p_write p_append p_n_tokens].
    replace (p_i p1 + 1 - (p_op p1 + 1)) with (Z.of_nat (length (args_of its)))
      by lia.
    rewrite Nat2Z.id, Hshape, sentinel_keeps, <- Hlen.
    repeat split; auto; lia.
  - rewrite (parse_loop_exit _ n p1 st1 ltac:(lia)) in Hrun.
    rewrite (bind_ret _ _ _ _ _ Hrun).
    assert (Hrange : 0 <= p_i p1 - p_op p1 < Z.of_nat (length (p_tokens p1)))
      by lia.
    rewrite (bind_ret _ _ _ _ _ (store_token_holds _ None _ st1 Hrange)).
    eexists _, st1. split; [reflexivity|].
    cbn [p_i p_op p_tokens p_bg p_read p_write p_append p_n_tokens].
    rewrite Hidx, Nat2Z.id, Hshape, sentinel_keeps, <- Hlen.
    repeat split; auto; lia.
Qed.


(** The parsing block takes a command line apart: from the words of the
    items of a command, with [&] last for a background command, it
    recovers the arguments in order as the argument vector (an [&] that
    is not the last word is an argument), the flag, and for each
    redirection operator the target of its last occurrence; [n_tokens]
    counts the arguments and the sentinel. Every target of [>] is empty
    afterwards, and a line without [>] leaves the state as it was. *)
Theorem parse_recovers_command (its : list item) (bg : bool) (st : shell) :
  proper its bg = true →
  holds_from st 0 (command_words its bg) →
  (length (command_words its bg) < MAX_WORDS st)%nat →
  Forall (λ t, refused t st = false) (output_targets its) →
  ∃ p st',
    parse (length (command_words its bg)) st = Ret p st' ∧
    argv_of (p_tokens p) = args_of its ∧
    p_n_tokens p = Z.of_nat (length (args_of its)) + 1 ∧
    p_bg p = bg ∧
    p_read p = target_of Input its None ∧
    p_write p = target_of Output its None ∧
    p_append p = target_of Appending its None ∧
    (∀ t, t ∈ output_targets its → file_empty t st') ∧
    (output_targets its = [] → st' = st).
Proof.
  intros Hproper Hholds Hroom Hacc.
  destruct (parse_command its bg st Hproper Hholds Hroom Hacc)
    as (p & st' & Hrun & Hshape & _ & Hn & Hbg & Hrd & Hwr & Hap & _ & Hempty
        & Hsame).
  exists p, st'. split; [exact Hrun|].
  split; [now rewrite Hshape, argv_of_fill|].
  repeat split; assumption.
Qed.

Lemma parse_recovers_command_witness :
  ∃ p st',
    parse 6 bg_redirect_shell = Ret p st' ∧
    argv_of (p_tokens p) = ["cat"] ∧
    p_n_tokens p = 2 ∧
    p_bg p = true ∧
    p_read p = Some "notes.txt" ∧
    p_write p = Some "out.txt" ∧
    p_append p = None ∧
    (∀ t, t ∈ ["out.txt"] → file_empty t st') ∧
    (["out.txt"] = [] → st' = bg_redirect_shell).
Proof.
  apply (parse_recovers_command
           [Arg "cat"; Redirect Input "notes.txt"; Redirect Output "out.txt"]
           true bg_redirect_shell).
  - reflexivity.
  - intros [|[|[|[|[|[|k]]]]]] w Hk; cbn in Hk; inversion Hk; reflexivity.
  - vm_compute. lia.
  - repeat constructor.
Defined.

(** A target of [>] that [fopen] refuses ends the shell itself, while it
    parses and before anything is dispatched: the [errno] the kernel left
    is reported once, the shell calls [exit(EXIT_FAILURE)], the words
    behind the target are not looked at, and the file is no more there
    than before. *)
Theorem refused_output_ends_shell (pre : list item) (target : string)
    (post : list string) (st : shell) :
  forallb arg_ok pre = true →
  holds_from st 0 (flat_map item_words pre ++ ">" :: target :: post) →
  Forall (λ t, refused t st = false) (output_targets pre) →
  refused target st = true →
  ∃ st',
    parse (length (flat_map item_words pre ++ ">" :: target :: post)) st =
    Exited EXIT_FAILURE st' ∧
    os_files (os st') !! target = os_files (os st) !! target ∧
    os_log (os st') =
      (os_log (os st) ++
       [ErrNo (k_open_errno (os_kernel (os st)) target)])%list.
Proof.
  intros Hok Hholds Hacc Href.
  set (rest := ">" :: target :: post) in *.
  set (n := length (flat_map item_words pre ++ rest)) in *.
  rewrite parse_unfold.
  set (p0 := Parse 0 0 0 false None None None (replicate (MAX_WORDS st) None)).
  pose proof (items_length pre) as Hil.
  assert (Hn : n = (length (flat_map item_words pre) + (2 + length post))%nat)
    by (subst n rest; now rewrite length_app).
  assert (Q1 : rest = [] →
            p_i p0 + Z.of_nat (length (flat_map item_words pre)) = Z.of_nat n →
            ends_in_amp pre = false) by discriminate.
  assert (Q7 : p_i p0 + Z.of_nat (length (flat_map item_words pre ++ rest))
               <= Z.of_nat n) by (cbn [p_i p0]; lia).
  destruct (parse_loop_prefix pre rest n n p0 [] st Hok
              Q1 ltac:(cbn; lia) ltac:(cbn; lia) (tokens_are_start _)
              ltac:(cbn; now rewrite length_replicate) Hholds Q7
              ltac:(lia) Hacc)
    as (p1 & st1 & Hrun & _ & Hi & _ & _ & _ & _ & _ & _ & Hst & _ & _
        & Hstay & _ & _ & Hlog & Hframe & Hker).
  subst p0. cbn [p_i] in Hi. rewrite Z.add_0_l in Hi.
  assert (Hnot : target ∉ output_targets pre).
  { intros Hin. rewrite Forall_forall in Hacc.
    specialize (Hacc _ Hin). congruence. }
  assert (Hwords : words st1 = words st) by (rewrite Hst; reflexivity).
  pose proof (holds_from_app st 0 _ _ Hholds) as Hrest. cbn [Nat.add] in Hrest.
  pose proof (holds_from_head _ _ _ _ Hrest) as Hop.
  pose proof (holds_from_head _ _ _ _ (holds_from_tail _ _ _ _ Hrest)) as Htg.
  destruct (n - length pre)%nat as [|f] eqn:Hf; [lia|].
  rewrite (parse_loop_redirect f n p1 Output (Some target) st1) in Hrun.
  2:{ lia. }
  2:{ rewrite Hwords, Hi, Nat2Z.id. exact Hop. }
  2:{ rewrite Hwords, Hi.
      replace (Z.to_nat (Z.of_nat (length (flat_map item_words pre)) + 1))
        with (S (length (flat_map item_words pre))) by lia.
      exact Htg. }
  destruct (open_out_refused true target st1 (Hstay _ Href Hnot))
    as (o' & Hopen & Hfiles & Hlog').
  change (open_out true) with open_write in Hopen.
  unfold bind at 1 in Hrun. rewrite Hopen in Hrun.
  unfold bind at 1. rewrite Hrun.
  eexists. split; [reflexivity|]. cbn [os set_os].
  rewrite Hfiles, Hlog', Hlog, Hker, !(Hframe _ Hnot). split; reflexivity.
Qed.

Lemma refused_output_ends_shell_witness :
  ∃ st',
    parse 4 refused_shell = Exited EXIT_FAILURE st' ∧
    os_files (os st') !! "/proc/x" = os_files (os refused_shell) !! "/proc/x" ∧
    os_log (os st') = (os_log (os refused_shell) ++ [ErrNo ENOENT])%list.
Proof.
  apply (refused_output_ends_shell [Arg "cat"] "/proc/x" ["notes.txt"]
           refused_shell).
  - reflexivity.
  - intros [|[|[|[|k]]]] w Hk; cbn in Hk; inversion Hk; reflexivity.
  - constructor.
  - reflexivity.
Defined.

Lemma ends_in_amp_args (ws : list string) :
  Forall (λ w, w ≠ "&") ws → ends_in_amp (Arg <$> ws) = false.
Proof.
  induction 1 as [|w ws Hw _ IH]; [reflexivity|].
  cbn [fmap list_fmap ends_in_amp]. fold (list_fmap _ _ Arg ws).
  destruct ws as [|w' ws']; [|exact IH].
  cbn. now apply String.eqb_neq.
Qed.

Lemma args_words (ws : list string) :
  flat_map item_words (Arg <$> ws) = ws ∧ args_of (Arg <$> ws) = ws ∧
  output_targets (Arg <$> ws) = [] ∧ length (Arg <$> ws) = length ws.
Proof.
  induction ws as [|w ws (H1 & H2 & H3 & H4)]; [now cbn|].
  repeat split.
  - cbn. f_equal. exact H1.
  - cbn. f_equal. exact H2.
  - exact H3.
  - cbn. f_equal. exact H4.
Qed.

(** A line that fills [words] with arguments leaves no room for the
    sentinel: with [MAX_WORDS] words, none of them an operator or [&],
    [tokens] is full when the loop ends and the store of the sentinel
    falls behind the array. *)
Theorem full_line_overflows_tokens (ws : list string) (st : shell) :
  Forall (λ w, is_redirect w = false) ws → Forall (λ w, w ≠ "&") ws →
  holds_from st 0 ws → length ws = MAX_WORDS st →
  parse (length ws) st = Undefined TokensOutOfBounds st.
Proof.
  intros Hplain Hamp Hholds Hfull.
  destruct (args_words ws) as (Hflat & Hargs & Hout & Hlen).
  set (n := length ws) in *.
  rewrite parse_unfold.
  set (p0 := Parse 0 0 0 false None None None (replicate (MAX_WORDS st) None)).
  assert (Hok : forallb arg_ok (Arg <$> ws) = true).
  { clear -Hplain. induction Hplain as [|w ws Hw _ IH]; [reflexivity|].
    cbn. now rewrite Hw, IH. }
  assert (Q1 : @nil string = [] →
            p_i p0 + Z.of_nat (length (flat_map item_words (Arg <$> ws))) =
              Z.of_nat n → ends_in_amp (Arg <$> ws) = false)
    by (intros _ _; now apply ends_in_amp_args).
  assert (Q6 : holds_from st (Z.to_nat (p_i p0))
                 (flat_map item_words (Arg <$> ws) ++ []))
    by (rewrite Hflat, app_nil_r; exact Hholds).
  assert (Q7 : p_i p0 +
               Z.of_nat (length (flat_map item_words (Arg <$> ws) ++ []))
               <= Z.of_nat n)
    by (rewrite Hflat, app_nil_r; cbn; lia).
  destruct (parse_loop_prefix (Arg <$> ws) [] n n p0 [] st Hok
              Q1 ltac:(cbn; lia) ltac:(cbn; lia) (tokens_are_start _)
              ltac:(cbn; now rewrite length_replicate) Q6 Q7
              ltac:(lia) ltac:(rewrite Hout; constructor))
    as (p1 & st1 & Hrun & Htoks & Hi & _ & Hlen1 & _ & _ & _ & _ & _ & Hsame
        & _).
  subst p0. cbn [p_i p_tokens] in *.
  rewrite Hflat in Hi. rewrite Hargs in Htoks.
  rewrite length_replicate in Hlen1.
  destruct Htoks as (_ & _ & _ & Hidx). cbn [app] in Hidx.
  rewrite (Hsame Hout) in *.
  rewrite (parse_loop_exit _ n p1 st ltac:(lia)) in Hrun.
  rewrite (bind_ret _ _ _ _ _ Hrun).
  unfold bind, store_token.
  destruct (Z.ltb_spec (p_i p1 - p_op p1) (Z.of_nat (length (p_tokens p1))));
    [lia|].
  now rewrite andb_false_r.
Qed.

Lemma full_line_overflows_tokens_witness :
  parse 2 tiny_shell = Undefined TokensOutOfBounds tiny_shell.
Proof.
  apply (full_line_overflows_tokens ["ls"; "-l"] tiny_shell).
  - repeat constructor.
  - repeat constructor; discriminate.
  - intros [|[|k]] w Hk; cbn in Hk; inversion Hk; reflexivity.
  - reflexivity.
Defined.

(** ** wordsplit and the backslash *)

Lemma read_ref_length (n : nat) : ∀ (s w rest : string),
  (String.length s <= n)%nat → read_ref s = Some (w, rest) →
  (String.length rest <= String.length s)%nat ∧
  (isspace (deref s) = false → s ≠ "" →
   (String.length rest < String.length s)%nat ∧ w ≠ "").
Proof.
  induction n as [|n IH]; intros s w rest Hn Hr.
  all: destruct s as [|a r];
    [cbn in Hr; inversion Hr; subst; cbn; split; [lia | congruence]|].
  { cbn in Hn. lia. }
  cbn [read_ref] in Hr. cbn [deref].
  destruct (isspace a) eqn:Ha.
  { inversion Hr; subst. split; [lia | discriminate]. }
  destruct (Ascii.eqb a "\").
  - destruct r as [|b r']; [discriminate|].
    destruct (read_ref r') as [[w' rest']|] eqn:Hr'; [|discriminate].
    inversion Hr; subst.
    destruct (IH r' w' rest ltac:(cbn in *; lia) Hr') as [Hl _].
    cbn [String.length] in *. split; [lia|]. intros _ _. split; [lia|].
    discriminate.
  - destruct (read_ref r) as [[w' rest']|] eqn:Hr'; [|discriminate].
    inversion Hr; subst.
    destruct (IH r w' rest ltac:(cbn in *; lia) Hr') as [Hl _].
    cbn [String.length] in *. split; [lia|]. intros _ _. split; [lia|].
    discriminate.
Qed.

Lemma read_ref_no_nul (n : nat) : ∀ (s w rest : string),
  (String.length s <= n)%nat → no_nul s = true →
  read_ref s = Some (w, rest) → no_nul rest = true.
Proof.
  induction n as [|n IH]; intros s w rest Hn Hs Hr.
  all: destruct s as [|a r]; [cbn in Hr; now inversion Hr|].
  { cbn in Hn. lia. }
  cbn [read_ref] in Hr. cbn [no_nul] in Hs.
  apply andb_true_iff in Hs as [Ha Hs].
  destruct (isspace a).
  { inversion Hr; subst. cbn [no_nul]. now rewrite Ha, Hs. }
  destruct (Ascii.eqb a "\").
  - destruct r as [|b r']; [discriminate|].
    destruct (read_ref r') as [[w' rest']|] eqn:Hr'; [|discriminate].
    inversion Hr; subst. cbn [no_nul] in Hs.
    apply andb_true_iff in Hs as [_ Hs].
    apply (IH r' w' rest); [cbn in *; lia | exact Hs | exact Hr'].
  - destruct (read_ref r) as [[w' rest']|] eqn:Hr'; [|discriminate].
    inversion Hr; subst.
    apply (IH r w' rest); [cbn in *; lia | exact Hs | exact Hr'].
Qed.

Lemma skip_spaces_no_nul (s : string) :
  no_nul s = true → no_nul (skip_spaces s) = true.
Proof.
  induction s as [|a r IH]; [reflexivity|]. cbn [skip_spaces no_nul].
  intros H. destruct (isspace a); [|exact H].
  apply andb_true_iff in H as [_ H]. auto.
Qed.

Lemma skip_spaces_head (s : string) :
  skip_spaces s = s → isspace (deref s) = false.
Proof.
  destruct s as [|a r]; [reflexivity|]. cbn [skip_spaces deref].
  destruct (isspace a); [|reflexivity].
  intros H. pose proof (skip_spaces_length r) as Hl. rewrite H in Hl.
  cbn in Hl. lia.
Qed.

(** One turn of the loop that reads a word. *)
Lemma read_word_stop (s : string) (buf : list ascii) (c f wind : nat)
    (w : string) (st : shell) :
  at_cursor buf c s → s = "" ∨ isspace (deref s) = true →
  read_word (S f) buf c wind w st = Ret c st.
Proof.
  intros Hc Hs. cbn [read_word]. unfold bind at 1.
  rewrite (cursor_read _ _ _ _ Hc).
  destruct Hs as [->|Hs]; [reflexivity|].
  now rewrite Hs, andb_false_r.
Qed.

Lemma read_word_plain_byte (a : ascii) (r : string) (buf : list ascii)
    (c f wind : nat) (w : string) (st : shell) :
  at_cursor buf c (String a r) →
  Ascii.eqb a NUL = false → isspace a = false → Ascii.eqb a "\" = false →
  read_word (S f) buf c wind w st =
  read_word f buf (S c) wind (w +:+ String a "")
    (set_words (<[wind := Some (w +:+ String a "")]> (words st)) st).
Proof.
  intros Hc Hn Hsp Hb. cbn [read_word]. unfold bind at 1.
  rewrite (cursor_read _ _ _ _ Hc). cbn [deref].
  rewrite Hn, Hsp, Hb. cbn [negb andb].
  unfold bind at 1. rewrite (cursor_read _ _ _ _ Hc). cbn [deref].
  reflexivity.
Qed.

Lemma read_word_escaped_byte (b : ascii) (r : string) (buf : list ascii)
    (c f wind : nat) (w : string) (st : shell) :
  at_cursor buf c (String "\" (String b r)) →
  read_word (S f) buf c wind w st =
  read_word f buf (S (S c)) wind (w +:+ String b "")
    (set_words (<[wind := Some (w +:+ String b "")]> (words st)) st).
Proof.
  intros Hc. cbn [read_word]. unfold bind at 1.
  rewrite (cursor_read _ _ _ _ Hc). cbn [deref].
  change (negb (Ascii.eqb "\" NUL) && negb (isspace "\")) with true.
  change (Ascii.eqb "\" "\") with true. cbv iota.
  unfold bind at 1.
  rewrite (cursor_read _ _ _ _ (cursor_next _ _ _ _ Hc)). cbn [deref].
  reflexivity.
Qed.

(** The loop that reads one word, against [read_ref]. *)
Lemma read_word_ref (n : nat) : ∀ (s : string) (buf : list ascii)
    (c fuel wind : nat) (w : string) (st : shell),
  (String.length s <= n)%nat → at_cursor buf c s → no_nul s = true →
  (String.length s < fuel)%nat →
  match read_ref s with
  | Some (run, rest) =>
      ∃ c', read_word fuel buf c wind w st =
            Ret c' (match run with
                    | EmptyString => st
                    | _ => set_words (<[wind := Some (w +:+ run)]> (words st))
                             st
                    end) ∧
            at_cursor buf c' rest
  | None => result_of (read_word fuel buf c wind w st) = Undef ReadPastLine
  end.
Proof.
  induction n as [|n IH]; intros s buf c fuel wind w st Hn Hc Hs Hf.
  all: destruct fuel as [|f]; [lia|].
  all: destruct s as [|a r];
    [cbn [read_ref]; exists c; split;
       [apply (read_word_stop "" ); auto | exact Hc]|].
  { cbn in Hn. lia. }
  cbn [read_ref]. cbn [no_nul] in Hs.
  apply andb_true_iff in Hs as [Ha Hs]. apply negb_true_iff in Ha.
  destruct (isspace a) eqn:Hsp.
  { exists c. split; [|exact Hc].
    apply (read_word_stop (String a r)); auto. }
  assert (Hjoin : ∀ (b : ascii) (run : string) (s1 : shell),
            match run with
            | EmptyString => set_words (<[wind := Some (w +:+ String b "")]>
                                          (words s1)) s1
            | _ => set_words
                     (<[wind := Some ((w +:+ String b "") +:+ run)]>
                        (words (set_words
                                  (<[wind := Some (w +:+ String b "")]>
                                     (words s1)) s1)))
                     (set_words (<[wind := Some (w +:+ String b "")]>
                                   (words s1)) s1)
            end =
            set_words (<[wind := Some (w +:+ String b run)]> (words s1)) s1).
  { intros b run s1. destruct run as [|x run]; [reflexivity|].
    cbn [words set_words]. rewrite list_insert_insert_eq.
    unfold set_words. cbn. now rewrite str_app_assoc. }
  destruct (Ascii.eqb_spec a "\") as [->|Hne].
  - (* a backslash: the byte behind it is stored *)
    destruct r as [|b r'].
    + (* the NUL is stored, and the cursor leaves the line *)
      apply (read_word_dangling "" buf c (S f) wind w st Hc eq_refl eq_refl).
      cbn in *. lia.
    + rewrite (read_word_escaped_byte _ _ _ _ _ _ _ _ Hc).
      cbn [no_nul] in Hs. apply andb_true_iff in Hs as [_ Hs].
      pose proof (cursor_next _ _ _ _ (cursor_next _ _ _ _ Hc)) as Hc2.
      specialize (IH r' buf (S (S c)) f wind (w +:+ String b "")
                    (set_words (<[wind:=Some (w +:+ String b "")]> (words st))
                       st)
                    ltac:(cbn in *; lia) Hc2 Hs ltac:(cbn in *; lia)).
      destruct (read_ref r') as [[run rest]|]; [|exact IH].
      destruct IH as (c' & Hrun & Hc').
      exists c'. split; [|exact Hc']. rewrite Hrun. f_equal. apply Hjoin.
  - apply Ascii.eqb_neq in Hne.
    rewrite (read_word_plain_byte _ _ _ _ _ _ _ _ Hc Ha Hsp Hne).
    pose proof (cursor_next _ _ _ _ Hc) as Hc1.
    specialize (IH r buf (S c) f wind (w +:+ String a "")
                  (set_words (<[wind:=Some (w +:+ String a "")]> (words st))
                     st)
                  ltac:(cbn in *; lia) Hc1 Hs ltac:(cbn in *; lia)).
    destruct (read_ref r) as [[run rest]|]; [|exact IH].
    destruct IH as (c' & Hrun & Hc').
    exists c'. split; [|exact Hc']. rewrite Hrun. f_equal. apply Hjoin.
Qed.

Lemma split_loop_end (buf : list ascii) (c f wind : nat) (st : shell) :
  at_cursor buf c "" → split_loop (S f) buf c wind st = Ret wind st.
Proof.
  intros Hc. cbn [split_loop]. unfold bind at 1.
  now rewrite (cursor_read _ _ _ _ Hc).
Qed.

Lemma split_loop_word (a : ascii) (r : string) (buf : list ascii)
    (c f wind : nat) (st : shell) :
  at_cursor buf c (String a r) → Ascii.eqb a NUL = false →
  split_loop (S f) buf c wind st =
  if (wind =? MAX_WORDS st)%nat then Ret wind st
  else if Ascii.eqb a "#" then Ret wind st
  else (c1 <- read_word (line_fuel buf) buf c wind EmptyString ;;
        c2 <- skip_space (line_fuel buf) buf c1 ;;
        split_loop f buf c2 (S wind)) st.
Proof.
  intros Hc Ha. cbn [split_loop]. unfold bind at 1.
  rewrite (cursor_read _ _ _ _ Hc). cbn [deref]. rewrite Ha.
  unfold bind at 1. cbn [get].
  destruct (wind =? MAX_WORDS st)%nat; [reflexivity|].
  now destruct (Ascii.eqb a "#").
Qed.

Lemma split_ref_end (room : nat) : split_ref room "" = Some [].
Proof. now destruct room. Qed.

(** The outer loop of [wordsplit], against [split_ref]. *)
Lemma split_loop_ref (n : nat) : ∀ (s : string) (buf : list ascii)
    (c wind fuel : nat) (st : shell),
  (String.length s <= n)%nat → (String.length s < fuel)%nat →
  at_cursor buf c s → no_nul s = true → skip_spaces s = s →
  (wind <= MAX_WORDS st)%nat →
  match split_ref (MAX_WORDS st - wind) s with
  | Some out =>
      split_loop fuel buf c wind st =
      Ret (wind + length out)%nat
          (set_words (store_all wind out (words st)) st)
  | None => result_of (split_loop fuel buf c wind st) = Undef ReadPastLine
  end.
Proof.
  induction n as [|n IH]; intros s buf c wind fuel st Hn Hf Hc Hs Hsk Hw.
  all: destruct fuel as [|f]; [lia|].
  all: destruct s as [|a r];
    [rewrite split_ref_end, (split_loop_end _ _ _ _ _ Hc);
     exact (split_nothing _ _)|].
  { cbn in Hn. lia. }
  pose proof Hs as Hs0. cbn [no_nul] in Hs.
  apply andb_true_iff in Hs as [Ha Hs]. apply negb_true_iff in Ha.
  pose proof (skip_spaces_head _ Hsk) as Hsp. cbn [deref] in Hsp.
  rewrite (split_loop_word _ _ _ _ _ _ _ Hc Ha).
  destruct (Nat.eqb_spec wind (MAX_WORDS st)) as [->|Hne].
  { rewrite Nat.sub_diag. cbn [split_ref]. exact (split_nothing _ _). }
  replace (MAX_WORDS st - wind)%nat with (S (MAX_WORDS st - S wind)) by lia.
  cbn [split_ref].
  destruct (Ascii.eqb a "#"); [exact (split_nothing _ _)|].
  pose proof (read_word_ref (String.length (String a r)) (String a r) buf c
                (line_fuel buf) wind "" st (le_n _) Hc Hs0
                (cursor_fuel _ _ _ Hc)) as Hread.
  destruct (read_ref (String a r)) as [[run rest]|] eqn:Href.
  2:{ now apply result_of_bind_undef. }
  destruct Hread as (c1 & Hrun & Hc1).
  destruct (read_ref_length _ _ _ _ (le_n _) Href) as [_ Hshort].
  destruct (Hshort Hsp ltac:(discriminate)) as [Hlt Hrun_ne].
  pose proof (read_ref_no_nul _ _ _ _ (le_n _) Hs0 Href) as Hrest.
  destruct run as [|x run]; [contradiction|]. rewrite str_app_nil_l in Hrun.
  set (st1 := set_words (<[wind:=Some (String x run)]> (words st)) st) in *.
  destruct (skip_space_spec rest buf c1 (line_fuel buf) st1 Hc1
              (cursor_fuel _ _ _ Hc1)) as (c2 & Hskip & Hc2).
  pose proof (skip_spaces_length rest) as Hl2.
  assert (Hmax : MAX_WORDS st1 = MAX_WORDS st)
    by (unfold MAX_WORDS, st1; cbn [words set_words]; apply length_insert).
  specialize (IH (skip_spaces rest) buf c2 (S wind) f st1
                ltac:(cbn in *; lia) ltac:(cbn in *; lia) Hc2
                (skip_spaces_no_nul _ Hrest) (skip_spaces_idem _)
                ltac:(rewrite Hmax; lia)).
  rewrite Hmax in IH.
  rewrite (bind_ret _ _ _ _ _ Hrun), (bind_ret _ _ _ _ _ Hskip).
  destruct (split_ref (MAX_WORDS st - S wind) (skip_spaces rest)) as [ws|];
    [|exact IH].
  rewrite IH. cbn [length store_all]. subst st1. cbn [words set_words].
  f_equal. lia.
Qed.

Lemma split_ref_words (room : nat) : ∀ (s : string) (ws : list string),
  skip_spaces s = s → split_ref room s = Some ws →
  (length ws <= room)%nat ∧ Forall (λ w, w ≠ "") ws.
Proof.
  induction room as [|room IH]; intros s ws Hsk Hr.
  { cbn in Hr. inversion Hr. split; [cbn; lia | constructor]. }
  destruct s as [|a r].
  { cbn in Hr. inversion Hr. split; [cbn; lia | constructor]. }
  cbn [split_ref] in Hr.
  destruct (Ascii.eqb a "#").
  { inversion Hr. split; [cbn; lia | constructor]. }
  destruct (read_ref (String a r)) as [[w rest]|] eqn:Href; [|discriminate].
  destruct (split_ref room (skip_spaces rest)) as [ws'|] eqn:Hrest;
    [|discriminate].
  inversion Hr; subst ws.
  destruct (IH _ _ (skip_spaces_idem rest) Hrest) as [Hlen Hne].
  destruct (read_ref_length _ _ _ _ (le_n _) Href) as [_ Hshort].
  destruct (Hshort (skip_spaces_head _ Hsk) ltac:(discriminate)) as [_ Hw].
  split; [cbn [length]; lia | now constructor].
Qed.

Lemma wordsplit_run (line : string) (st : shell) :
  no_nul line = true →
  match wordsplit_ref (MAX_WORDS st) line with
  | Some ws =>
      wordsplit line st =
      Ret (length ws) (set_words (store_all 0 ws (words st)) st)
  | None => result_of (wordsplit line st) = Undef ReadPastLine
  end.
Proof.
  intros Hline. unfold wordsplit_ref, wordsplit. cbv zeta.
  destruct (skip_space_spec line (line_buffer line) 0
              (line_fuel (line_buffer line)) st (cursor_start line)
              (cursor_fuel _ _ _ (cursor_start line))) as (c & Hskip & Hc).
  rewrite (bind_ret _ _ _ _ _ Hskip).
  pose proof (split_loop_ref (String.length (skip_spaces line))
                (skip_spaces line) _ c 0%nat _ st (le_n _)
                (cursor_fuel _ _ _ Hc) Hc (skip_spaces_no_nul _ Hline)
                (skip_spaces_idem _) ltac:(lia)) as Hloop.
  now rewrite Nat.sub_0_r in Hloop.
Qed.

(** What [wordsplit] does on any line, backslashes included. A backslash
    is dropped and the byte after it goes into the word as it is, be it
    white space, [#] or another backslash; the words are stored in the
    first slots of [words], none of them empty and no more than
    [MAX_WORDS], and the other slots keep what they held. The cursor
    leaves the line exactly when a word that is read ends in a backslash
    that escapes nothing. *)
Theorem wordsplit_with_escapes (line : string) (st : shell) :
  no_nul line = true →
  match wordsplit_ref (MAX_WORDS st) line with
  | Some ws =>
      ∃ st', wordsplit line st = Ret (length ws) st' ∧
             take (length ws) (words st') = Some <$> ws ∧
             drop (length ws) (words st') = drop (length ws) (words st) ∧
             Forall (λ w, w ≠ "") ws ∧ (length ws <= MAX_WORDS st)%nat
  | None => result_of (wordsplit line st) = Undef ReadPastLine
  end.
Proof.
  intros Hline. pose proof (wordsplit_run line st Hline) as Hrun.
  unfold wordsplit_ref in *.
  destruct (split_ref (MAX_WORDS st) (skip_spaces line)) as [ws|] eqn:Href;
    [|exact Hrun].
  destruct (split_ref_words _ _ _ (skip_spaces_idem _) Href) as [Hlen Hne].
  eexists. split; [exact Hrun|]. cbn [words set_words].
  split; [|split; [|split; assumption]].
  - now rewrite (store_all_take ws 0) by (unfold MAX_WORDS in Hlen; cbn; lia).
  - apply (store_all_drop ws 0).
Qed.

Lemma wordsplit_with_escapes_witness :
  ∃ st', wordsplit "echo a\ b \#c \\ #d" sample_shell = Ret 4%nat st' ∧
         take 4 (words st') = Some <$> ["echo"; "a b"; "#c"; "\"] ∧
         drop 4 (words st') = drop 4 (words sample_shell) ∧
         Forall (λ w, w ≠ "") ["echo"; "a b"; "#c"; "\"] ∧
         (4 <= MAX_WORDS sample_shell)%nat.
Proof.
  exact (wordsplit_with_escapes "echo a\ b \#c \\ #d" sample_shell eq_refl).
Defined.

(** ** expand: what it returns and what it leaves *)

Lemma subst_value_fits (st : shell) (k : ascii) (w e : string) :
  token_at w = Some (k, e) → (String.length w < 67)%nat →
  ∃ v, subst_value st k w e = Some v.
Proof.
  intros Htok Hlen. unfold subst_value.
  destruct (Ascii.eqb k "!"); [eauto|].
  destruct (Ascii.eqb k "$"); [eauto|].
  destruct (Ascii.eqb k "?"); [eauto|].
  destruct (Ascii.eqb k "{"); [|eauto].
  destruct (Z.leb_spec 64 (Z.of_nat (String.length w) -
                           Z.of_nat (String.length e) - 3)); [lia|eauto].
Qed.

Lemma expand_outcomes (n : nat) : ∀ (w : string) (st : shell),
  (String.length w <= n)%nat →
  ((∃ v, result_of (expand w st) = Val (Some v)) ∨
   result_of (expand w st) = Undef ParamArgOverflow) ∧
  ((String.length w < 67)%nat →
   ∃ v, result_of (expand w st) = Val (Some v)).
Proof.
  induction n as [|n IH]; intros w st Hn.
  all: destruct w as [|c r];
    [rewrite expand_empty; split; [left|]; eauto|].
  { cbn in Hn. lia. }
  destruct (token_at (String c r)) as [[k e]|] eqn:Htok.
  - rewrite (expand_token _ _ _ _ Htok).
    destruct (token_at_some _ _ _ Htok) as (_ & Hl & _).
    destruct (IH e st ltac:(cbn in *; lia)) as [Hany Hshort].
    split.
    + destruct (subst_value st k (String c r) e) as [v|]; [|now right].
      destruct Hany as [[x ->]| ->]; [left | right]; cbn; eauto.
    + intros Hlen.
      destruct (subst_value_fits st _ _ _ Htok Hlen) as [v ->].
      destruct (Hshort ltac:(cbn in *; lia)) as [x ->]. cbn. eauto.
  - rewrite (expand_literal _ _ _ Htok).
    destruct (IH r st ltac:(cbn in *; lia)) as [Hany Hshort].
    split.
    + destruct Hany as [[x ->]| ->]; [left | right]; cbn; eauto.
    + intros Hlen. destruct (Hshort ltac:(cbn in *; lia)) as [x ->].
      cbn. eauto.
Qed.

(** [expand] either returns a string, never NULL, and leaves the state
    as it found it but for the statics of [param_scan] and [build_str],
    which it leaves NULL (the string is the caller's, and nothing of one
    call reaches the next); or it overruns [param_arg]. A word of fewer
    than 67 bytes has no room for a name of 64: it is always expanded. *)
Theorem expand_hands_over_result (w : string) (st : shell) :
  ((∃ v, expand w st = Ret (Some v) (set_base None (set_prev None st))) ∨
   result_of (expand w st) = Undef ParamArgOverflow) ∧
  ((String.length w < 67)%nat →
   ∃ v, expand w st = Ret (Some v) (set_base None (set_prev None st))).
Proof.
  destruct (expand_outcomes _ w st (le_n _)) as [Hany Hshort].
  split.
  - destruct Hany as [[v Hv]|Hu]; [left | now right].
    exists v. now apply expand_ret.
  - intros Hlen. destruct (Hshort Hlen) as [v Hv].
    exists v. now apply expand_ret.
Qed.

Lemma expand_hands_over_result_witness :
  ∃ v, expand "${HOME}/$$.log" (set_prev (Some "x") sample_shell) =
       Ret (Some v) (set_base None (set_prev None sample_shell)).
Proof.
  apply (proj2 (expand_hands_over_result "${HOME}/$$.log"
                  (set_prev (Some "x") sample_shell))).
  vm_compute. lia.
Defined.

(** [$$] expands to the decimal string of the PID of the shell, alone
    and inside a word, after text without a dollar sign. *)
Theorem expand_shell_pid (pre post : string) (st : shell) :
  strchr pre "$" = None → 0 < os_pid (os st) →
  result_of (expand (pre +:+ "$$" +:+ post) st) =
  rmap (fmap (String.app (pre +:+ fmt_d (os_pid (os st)))))
       (result_of (expand post st)) ∧
  result_of (expand "$$" st) = Val (Some (fmt_d (os_pid (os st)))).
Proof.
  intros Hpre Hpid.
  assert (Htok : ∀ r, result_of (expand ("$$" +:+ r) st) =
                      rmap (fmap (String.app (fmt_d (os_pid (os st)))))
                           (result_of (expand r st))).
  { intros r. rewrite (expand_token _ "$" r) by reflexivity.
    unfold subst_value. change (Ascii.eqb "$" "!") with false.
    change (Ascii.eqb "$" "$") with true. cbv iota.
    now rewrite snprintf_d_pos. }
  split.
  - rewrite expand_literal_prefix, Htok, rmap_rmap by assumption.
    apply rmap_ext. intros [x|]; cbn; [|reflexivity]. now rewrite str_app_assoc.
  - change "$$" with ("$$" +:+ ""). rewrite Htok, expand_empty. cbn.
    now rewrite str_app_nil_r.
Qed.

Lemma expand_shell_pid_witness :
  result_of (expand "/tmp/job.$$.out" sample_shell) =
  Val (Some "/tmp/job.4242.out").
Proof.
  change "/tmp/job.$$.out" with ("/tmp/job." +:+ "$$" +:+ ".out").
  rewrite (proj1 (expand_shell_pid "/tmp/job." ".out" sample_shell eq_refl
                    eq_refl)).
  reflexivity.
Defined.

(** ** The expansion of the words of a line *)

(** [expand] reads the state for the values of the parameters only. *)
Lemma expand_same_values (n : nat) : ∀ (w : string) (st st' : shell),
  (String.length w <= n)%nat →
  last_status st = last_status st' → last_bg_pid st = last_bg_pid st' →
  os_pid (os st) = os_pid (os st') → os_env (os st) = os_env (os st') →
  result_of (expand w st) = result_of (expand w st').
Proof.
  induction n as [|n IH]; intros w st st' Hn H1 H2 H3 H4.
  all: destruct w as [|c r]; [now rewrite !expand_empty|].
  { cbn in Hn. lia. }
  destruct (token_at (String c r)) as [[k e]|] eqn:Htok.
  - rewrite !(expand_token _ _ _ _ Htok).
    destruct (token_at_some _ _ _ Htok) as (_ & Hl & _).
    assert (Hv : subst_value st k (String c r) e =
                 subst_value st' k (String c r) e)
      by (unfold subst_value; now rewrite H1, H2, H3, H4).
    rewrite Hv, (IH e st st') by (assumption || cbn in *; lia).
    reflexivity.
  - rewrite !(expand_literal _ _ _ Htok).
    now rewrite (IH r st st') by (assumption || cbn in *; lia).
Qed.

Lemma expansion_ret (w v : string) (st0 st : shell) :
  expansion st0 w = Some v →
  last_status st0 = last_status st → last_bg_pid st0 = last_bg_pid st →
  os_pid (os st0) = os_pid (os st) → os_env (os st0) = os_env (os st) →
  expand w st = Ret (Some v) (set_base None (set_prev None st)).
Proof.
  unfold expansion. intros Hv H1 H2 H3 H4. apply expand_ret.
  rewrite <- (expand_same_values _ w st0 st (le_n _) H1 H2 H3 H4).
  destruct (result_of (expand w st0)) as [[x|]| | | |]; try discriminate.
  now inversion Hv.
Qed.

Lemma expand_words_run (ws : list string) : ∀ (vs : list string) (i : nat)
    (st0 st : shell),
  Forall2 (λ w v, expansion st0 w = Some v) ws vs →
  holds_from st i ws →
  last_status st0 = last_status st → last_bg_pid st0 = last_bg_pid st →
  os_pid (os st0) = os_pid (os st) → os_env (os st0) = os_env (os st) →
  expand_words (length ws) i st =
  Ret tt (set_words (store_all i vs (words st))
            (match ws with
             | [] => st
             | _ :: _ => set_base None (set_prev None st)
             end)).
Proof.
  induction ws as [|w ws IH]; intros vs i st0 st Hvs Hholds H1 H2 H3 H4.
  { inversion Hvs; subst. cbn. now rewrite set_words_same. }
  inversion Hvs as [|w' v ws' vs' Hv Hrest]; subst.
  cbn [length expand_words].
  rewrite (bind_ret _ _ _ _ _
             (word_at_holds (Z.of_nat i) st w ltac:(lia)
                ltac:(rewrite Nat2Z.id; exact (holds_from_head _ _ _ _ Hholds)))).
  rewrite (bind_ret _ _ _ _ _ (expansion_ret _ _ _ _ Hv H1 H2 H3 H4)).
  unfold bind at 1. unfold modify at 1.
  set (st2 := set_words _ _).
  assert (Hholds2 : holds_from st2 (S i) ws).
  { intros k x Hk. subst st2. cbn [words set_words set_base set_prev].
    rewrite list_lookup_insert_ne by lia.
    pose proof (holds_from_tail _ _ _ _ Hholds) as Ht. now apply Ht. }
  rewrite (IH vs' (S i) st0 st2 Hrest Hholds2); subst st2;
    cbn [last_status last_bg_pid os set_words set_base set_prev];
    try assumption.
  cbn [store_all words set_words set_base set_prev].
  destruct ws; reflexivity.
Qed.

(** The loop of [main] that expands the words of a line: every word is
    replaced by its expansion, each taken in the state in which the loop
    started (no expansion changes a value that a later one reads); the
    slots behind the words and everything else but the statics of
    [param_scan] and [build_str] are left alone. *)
Theorem expand_words_pointwise (ws vs : list string) (st : shell) :
  holds_from st 0 ws →
  Forall2 (λ w v, expansion st w = Some v) ws vs →
  ∃ st', expand_words (length ws) 0 st = Ret tt st' ∧
         take (length ws) (words st') = Some <$> vs ∧
         drop (length ws) (words st') = drop (length ws) (words st) ∧
         last_status st' = last_status st ∧
         last_bg_pid st' = last_bg_pid st ∧ os st' = os st.
Proof.
  intros Hholds Hvs.
  rewrite (expand_words_run ws vs 0 st st Hvs Hholds) by reflexivity.
  eexists. split; [reflexivity|].
  pose proof (Forall2_length _ _ _ Hvs) as Hlen.
  assert (Hroom : (length vs <= length (words st))%nat).
  { rewrite <- Hlen. destruct ws as [|w ws]; [cbn; lia|].
    clear -Hholds. 
    assert (H : ∀ k, (k < length (w :: ws))%nat →
                     (k < length (words st))%nat).
    { intros k Hk. destruct (lookup_lt_is_Some_2 (w :: ws) k Hk) as [x Hx].
      specialize (Hholds k x Hx). now apply lookup_lt_Some in Hholds. }
    specialize (H (length ws) ltac:(cbn; lia)). cbn [length]. lia. }
  cbn [words set_words]. rewrite Hlen.
  split; [now rewrite (store_all_take vs 0) by (cbn; lia)|].
  split; [apply (store_all_drop vs 0)|].
  destruct ws; auto.
Qed.

Lemma expand_words_pointwise_witness :
  ∃ st', expand_words 2 0
           (set_words (Some "echo" :: Some "${HOME}/$$" ::
                       replicate 1022 None) sample_shell) = Ret tt st' ∧
         take 2 (words st') = Some <$> ["echo"; "/home/u/4242"] ∧
         drop 2 (words st') = replicate 1022 None ∧
         last_status st' = 0 ∧ last_bg_pid st' = 0 ∧ os st' = sample_os.
Proof.
  apply (expand_words_pointwise ["echo"; "${HOME}/$$"]
           ["echo"; "/home/u/4242"]
           (set_words (Some "echo" :: Some "${HOME}/$$" ::
                       replicate 1022 None) sample_shell)).
  - intros [|[|k]] w Hk; cbn in Hk; inversion Hk; reflexivity.
  - repeat constructor.
Defined.

(** ** One line, from the text to the command *)

Lemma store_all_holds (ws : list string) (arr : list (option string))
    (st : shell) :
  (length ws <= length arr)%nat → words st = store_all 0 ws arr →
  holds_from st 0 ws.
Proof.
  intros Hlen Hw k w Hk. rewrite Hw. cbn [Nat.add].
  pose proof (store_all_take ws 0 arr ltac:(cbn; lia)) as Ht.
  rewrite take_0 in Ht. cbn [Nat.add app] in Ht.
  rewrite <- (lookup_take_lt _ (length ws)) by (now apply lookup_lt_Some in Hk).
  rewrite Ht, list_lookup_fmap, Hk. reflexivity.
Qed.

Lemma target_of_args (r : redirection) (ws : list string)
    (acc : option string) :
  target_of r (Arg <$> ws) acc = acc.
Proof. induction ws as [|w ws IH]; [reflexivity | exact IH]. Qed.

Lemma argument_words_proper (vs : list string) :
  Forall (λ v, argument_word v = true) vs →
  proper (Arg <$> vs) false = true.
Proof.
  intros H. unfold proper. cbn [orb].
  assert (H1 : forallb arg_ok (Arg <$> vs) = true ∧
               Forall (λ v, v ≠ "&") vs).
  { induction H as [|v vs Hv _ (IH1 & IH2)]; [split; constructor|].
    unfold argument_word in Hv. apply andb_true_iff in Hv as [Hred Hamp].
    split; [cbn; now rewrite Hred|].
    constructor; [|exact IH2]. intros ->. discriminate. }
  destruct H1 as (H1 & H2). now rewrite H1, (ends_in_amp_args _ H2).
Qed.

(** A line whose words expand to arguments, up to the parsing block:
    split, expanded and parsed, the line gives the expansions of its
    words as tokens, in order, with no redirection and no flag. *)
Lemma front_end_arguments (line : string) (ws vs : list string)
    (st : shell) :
  no_nul line = true →
  wordsplit_ref (MAX_WORDS st) line = Some ws →
  (length ws < MAX_WORDS st)%nat →
  Forall2 (λ w v, expansion st w = Some v) ws vs →
  Forall (λ v, argument_word v = true) vs →
  ∃ p st',
    front_end line st = Ret p st' ∧
    p_tokens p =
      ((Some <$> vs) ++ replicate (MAX_WORDS st - length vs) None)%list ∧
    p_n_tokens p = Z.of_nat (length vs) + 1 ∧
    p_bg p = false ∧ p_read p = None ∧ p_write p = None ∧
    p_append p = None ∧
    last_status st' = last_status st ∧ last_bg_pid st' = last_bg_pid st ∧
    os st' = os st ∧ MAX_WORDS st' = MAX_WORDS st.
Proof.
  intros Hline Href Hroom Hvs Harg.
  pose proof (argument_words_proper vs Harg) as Hproper.
  pose proof (Forall2_length _ _ _ Hvs) as Hlen_vs.
  destruct (args_words vs) as (Hflat & Hargs & Hout & Hlen).
  pose proof (wordsplit_run line st Hline) as Hsplit. rewrite Href in Hsplit.
  unfold front_end. rewrite (bind_ret _ _ _ _ _ Hsplit).
  set (st1 := set_words (store_all 0 ws (words st)) st).
  assert (Hmax1 : MAX_WORDS st1 = MAX_WORDS st)
    by (unfold MAX_WORDS, st1; cbn [words set_words]; apply store_all_length).
  assert (Hholds1 : holds_from st1 0 ws).
  { apply (store_all_holds ws (words st)); [|reflexivity].
    unfold MAX_WORDS in Hroom. lia. }
  assert (Hvs1 : Forall2 (λ w v, expansion st1 w = Some v) ws vs).
  { eapply Forall2_impl; [exact Hvs|]. intros w v Hv. unfold expansion in *.
    now rewrite <- (expand_same_values _ w st st1 (le_n _)). }
  rewrite (bind_ret _ _ _ _ _
             (expand_words_run ws vs 0 st1 st1 Hvs1 Hholds1 eq_refl eq_refl
                eq_refl eq_refl)).
  set (st2 := set_words _ _).
  assert (Hmax2 : MAX_WORDS st2 = MAX_WORDS st).
  { unfold MAX_WORDS, st2. cbn [words set_words].
    rewrite store_all_length. exact Hmax1. }
  assert (Hholds2 : holds_from st2 0 vs).
  { apply (store_all_holds vs (words st1)); [|reflexivity].
    unfold MAX_WORDS in *. lia. }
  assert (Hcmd : command_words (Arg <$> vs) false = vs)
    by (unfold command_words; now rewrite Hflat, app_nil_r).
  destruct (parse_command (Arg <$> vs) false st2 Hproper)
    as (p & st3 & Hparse & Hshape & _ & Hn & Hbg & Hrd & Hwr & Hap & _ & _
        & Hsame); rewrite ?Hcmd, ?Hout, ?Hmax2; try assumption;
    [lia | constructor |].
  rewrite Hcmd in Hparse. rewrite (Hsame Hout) in Hparse.
  rewrite Hargs, Hmax2 in Hshape. rewrite Hargs in Hn.
  rewrite target_of_args in Hrd, Hwr, Hap.
  rewrite <- Hlen_vs in Hparse.
  exists p, st2. split; [exact Hparse|].
  repeat split; try assumption.
  all: subst st2 st1; now destruct ws.
Qed.

(** A line without operators, from its text to [execvp]: when the words
    of the line expand to arguments, the first of them neither [exit] nor
    [cd], the child of [fork] calls [execvp] with exactly the expansions
    of the words, in order, when the program is found. A word that
    expands to nothing is an empty argument; it is not dropped. *)
Theorem command_reaches_execvp (line cmd : string)
    (ws args : list string) (a : answers) (st : shell) :
  no_nul line = true →
  wordsplit_ref (MAX_WORDS st) line = Some ws →
  (length ws < MAX_WORDS st)%nat →
  Forall2 (λ w v, expansion st w = Some v) ws (cmd :: args) →
  Forall (λ v, argument_word v = true) (cmd :: args) →
  cmd ≠ "exit" → cmd ≠ "cd" →
  fork_pid a = 0 → k_exec_ok (os_kernel (os st)) cmd = true →
  result_of (run_line a line st) = Exec (cmd :: args).
Proof.
  intros Hline Href Hroom Hvs Harg Hexit Hcd Hfork Hexec.
  destruct (front_end_arguments line ws (cmd :: args) st Hline Href Hroom Hvs
              Harg)
    as (p & st' & Hfront & Hshape & _ & _ & Hrd & Hwr & Hap & _ & _ & Hos & _).
  unfold run_line. rewrite (bind_ret _ _ _ _ _ Hfront).
  assert (Htok : token p 0 = Some cmd)
    by (unfold token; rewrite Hshape; reflexivity).
  rewrite (execute_external _ _ _ _ Htok Hexit Hcd).
  unfold external. rewrite Hfork. cbn [Z.eqb].
  rewrite child_unfold, Hap, Hwr, Hrd.
  unfold bind, ret, get. rewrite Hos, Hexec. cbn [result_of].
  now rewrite Hshape, argv_of_fill.
Qed.

Lemma command_reaches_execvp_witness :
  result_of (run_line (Answers 0 0) "  echo  $?.$! ${HOME}/a\ b $!
" sample_shell) =
  Exec ["echo"; "0."; "/home/u/a b"; ""].
Proof.
  apply (command_reaches_execvp _ "echo" ["echo"; "$?.$!"; "${HOME}/a b"; "$!"]
           ["0."; "/home/u/a b"; ""] (Answers 0 0) sample_shell).
  - reflexivity.
  - reflexivity.
  - vm_compute. lia.
  - repeat constructor.
  - repeat constructor.
  - discriminate.
  - discriminate.
  - reflexivity.
  - reflexivity.
Defined.

(** A line that is empty, blank or a comment holds no command: the turn
    goes back to the prompt and leaves the state exactly as it was. The
    text of a comment is not read, so a backslash at its end is
    harmless. *)
Theorem blank_or_comment_changes_nothing (a : answers) (line : string)
    (st : shell) :
  no_nul line = true → (0 < MAX_WORDS st)%nat → no_command line = true →
  run_line a line st = Ret tt st.
Proof.
  intros Hline Hmax Hnone.
  assert (Href : wordsplit_ref (MAX_WORDS st) line = Some []).
  { unfold wordsplit_ref. unfold no_command in Hnone.
    destruct (skip_spaces line) as [|c r]; [apply split_ref_end|].
    destruct (MAX_WORDS st); [reflexivity|]. cbn [split_ref].
    now rewrite Hnone. }
  pose proof (wordsplit_run line st Hline) as Hsplit. rewrite Href in Hsplit.
  cbn [length store_all] in Hsplit. rewrite set_words_same in Hsplit.
  set (p0 := Parse 0 0 0 false None None None (replicate (MAX_WORDS st) None)).
  assert (Hrange : 0 <= p_i p0 - p_op p0 < Z.of_nat (length (p_tokens p0)))
    by (cbn; rewrite length_replicate; lia).
  assert (Hfront : front_end line st =
                   Ret (Parse 0 (0 + 1) 0 false None None None
                          (<[0%nat := None]> (p_tokens p0))) st).
  { unfold front_end. rewrite (bind_ret _ _ _ _ _ Hsplit).
    cbn [length expand_words].
    rewrite (bind_ret (ret tt) _ st st tt eq_refl).
    rewrite parse_unfold. fold p0.
    rewrite (bind_ret _ _ _ _ _ (parse_loop_exit 0 0 p0 st (Z.le_refl _))).
    rewrite (bind_ret _ _ _ _ _ (store_token_holds _ None p0 st Hrange)).
    reflexivity. }
  unfold run_line. rewrite (bind_ret _ _ _ _ _ Hfront).
  unfold execute, token. cbn [p_tokens p0].
  destruct (MAX_WORDS st); [lia | reflexivity].
Qed.

Lemma blank_or_comment_changes_nothing_witness :
  run_line sample_answers "   # rm -rf / > notes.txt \" sample_shell =
  Ret tt sample_shell.
Proof.
  apply (blank_or_comment_changes_nothing sample_answers _ sample_shell).
  - reflexivity.
  - vm_compute. lia.
  - reflexivity.
Defined.

(** ** The loop of main and the status of the shell *)

(** None of the three stages in front of the dispatch touches
    [last_status]. *)
Lemma expand_words_status (n : nat) : ∀ (i : nat) (st st' : shell),
  expand_words n i st = Ret tt st' → last_status st' = last_status st.
Proof.
  induction n as [|n IH]; intros i st st' Hrun.
  { cbn in Hrun. inv_ret Hrun. reflexivity. }
  cbn [expand_words] in Hrun.
  apply bind_ret_inv in Hrun as (w & s1 & Hw & Hrun).
  apply bind_ret_inv in Hrun as (v & s2 & Hv & Hrun).
  apply bind_ret_inv in Hrun as ([] & s3 & Hm & Hrun).
  unfold word_at in Hw. apply bind_ret_inv in Hw as (slot & s0 & Hslot & Hw).
  apply word_slot_ret in Hslot as (-> & _ & _).
  destruct slot; [|discriminate]. inv_ret Hw.
  pose proof (expand_ret w s1 v ltac:(now rewrite Hv)) as Hv'.
  rewrite Hv' in Hv. inversion Hv; subst s2.
  unfold modify in Hm. inversion Hm; subst s3.
  now rewrite (IH _ _ _ Hrun).
Qed.

Lemma parse_loop_status (fuel : nat) : ∀ (n : nat) (p p' : parse_state)
    (st st' : shell),
  parse_loop fuel n p st = Ret p' st' → last_status st' = last_status st.
Proof.
  induction fuel as [|f IH]; intros n p p' st st'; cbn [parse_loop].
  all: destruct (p_i p <? Z.of_nat n);
    [|unfold ret; intros H; inversion H; subst; auto].
  - discriminate.
  - intros (w & s1 & Hw & H)%bind_ret_inv.
    apply bind_ret_inv in H as (p1 & s2 & Hstep & Hrest).
    unfold word_at in Hw. apply bind_ret_inv in Hw as (slot & s0 & Hslot & Hw).
    apply word_slot_ret in Hslot as (-> & _ & _).
    destruct slot; [|discriminate]. inv_ret Hw.
    rewrite (IH _ _ _ _ _ Hrest). clear Hrest IH.
    unfold parse_word in Hstep.
    destruct ((p_i p =? Z.of_nat n - 1) && String.eqb w "&").
    { inv_ret Hstep. reflexivity. }
    destruct (String.eqb w ">").
    { apply bind_ret_inv in Hstep as (slot & s3 & Hslot & H).
      apply word_slot_ret in Hslot as (-> & _ & _).
      apply bind_ret_inv in H as ([] & s4 & Hopen & H).
      inv_ret H. destruct slot as [path|]; [|discriminate].
      now destruct (open_write_ret _ _ _ Hopen) as (_ & Hs & _). }
    destruct (String.eqb w "<").
    { apply bind_ret_inv in Hstep as (slot & s3 & Hslot & H).
      apply word_slot_ret in Hslot as (-> & _ & _). now inv_ret H. }
    destruct (String.eqb w ">>").
    { apply bind_ret_inv in Hstep as (slot & s3 & Hslot & H).
      apply word_slot_ret in Hslot as (-> & _ & _). now inv_ret H. }
    apply bind_ret_inv in Hstep as (p2 & s3 & Hstore & H).
    apply store_token_ret in Hstore as (-> & _ & _). now inv_ret H.
Qed.

Lemma front_end_status (line : string) (p : parse_state) (st st' : shell) :
  no_nul line = true → front_end line st = Ret p st' →
  last_status st' = last_status st.
Proof.
  intros Hline Hrun. unfold front_end in Hrun.
  apply bind_ret_inv in Hrun as (n & s1 & Hsplit & Hrun).
  apply bind_ret_inv in Hrun as ([] & s2 & Hexp & Hparse).
  pose proof (wordsplit_run line st Hline) as Href.
  destruct (wordsplit_ref (MAX_WORDS st) line) as [ws|];
    [|rewrite Hsplit in Href; discriminate].
  rewrite Href in Hsplit. inversion Hsplit; subst n s1.
  apply expand_words_status in Hexp. cbn [last_status set_words] in Hexp.
  rewrite parse_unfold in Hparse.
  apply bind_ret_inv in Hparse as (p1 & s3 & Hloop & Hparse).
  apply bind_ret_inv in Hparse as (p2 & s4 & Hstore & Hparse).
  apply store_token_ret in Hstore as (-> & _ & _). inv_ret Hparse.
  apply parse_loop_status in Hloop. congruence.
Qed.

(** The dispatch keeps [last_status] from going negative. *)
Lemma execute_status (a : answers) (p : parse_state) (st st' : shell) :
  (WIFSTOPPED (child_exit a) = true → 0 <= child_exit a) →
  0 <= last_status st →
  execute a p st = Ret tt st' → 0 <= last_status st'.
Proof.
  intros Hchild Hst. unfold execute.
  destruct (token p 0) as [cmd|]; [|intros H; now inv_ret H].
  destruct (String.eqb cmd "exit").
  { unfold builtin_exit, set_errno, report_errno, modify_os, modify, bind.
    destruct (3 <=? _); [intros H; inversion H; subst; exact Hst|].
    destruct (_ =? 2).
    - destruct (token p 1) as [arg|]; [|discriminate].
      destruct (isdigit _); [discriminate|].
      intros H; inversion H; subst; exact Hst.
    - destruct (expand "$?" st) as [[v|] s| | | |]; discriminate. }
  destruct (String.eqb cmd "cd").
  { unfold builtin_cd, set_errno, report_errno, modify_os, modify.
    destruct (3 <=? _);
      [unfold bind; intros H; inversion H; subst; exact Hst|].
    destruct (_ =? 2).
    - destruct (token p 1) as [arg|]; [|discriminate].
      unfold access_F, chdir, bind, get, set_errno, modify_os, modify, ret.
      destruct (k_exists _ _ _); cbn;
        [|intros H; inversion H; subst; exact Hst].
      destruct (k_chdir _ _ _); cbn; intros H; inversion H; subst; exact Hst.
    - intros (r & s1 & Hexp & H)%bind_ret_inv.
      pose proof (expand_ret _ st r ltac:(now rewrite Hexp)) as Hexp'.
      rewrite Hexp' in Hexp. inversion Hexp; subst s1.
      destruct r as [home|]; [|discriminate].
      unfold chdir, bind, get, set_errno, modify_os, modify, ret in H.
      destruct (k_chdir _ _ _); cbn in H; inversion H; subst; exact Hst. }
  unfold external.
  destruct (_ =? -1).
  { unfold report_errno, modify_os, modify.
    intros H; inversion H; subst; exact Hst. }
  destruct (fork_pid a =? 0).
  { rewrite child_unfold. intros H.
    apply bind_ret_inv in H as ([] & s1 & _ & H).
    apply bind_ret_inv in H as ([] & s2 & _ & H).
    apply bind_ret_inv in H as ([] & s3 & _ & H).
    unfold bind, get in H.
    destruct (k_exec_ok _ _); discriminate. }
  destruct (p_bg p).
  { unfold modify. intros H; inversion H; subst; exact Hst. }
  unfold wait_foreground.
  destruct (WIFSIGNALED (child_exit a)) eqn:Hsig.
  { apply wifsignaled_iff in Hsig. unfold modify.
    intros H; inversion H; subst. cbn. lia. }
  destruct (WIFSTOPPED (child_exit a)).
  { specialize (Hchild eq_refl).
    unfold bind, modify_os, modify. intros H; inversion H; subst. cbn. lia. }
  pose proof (wexitstatus_range (child_exit a)).
  unfold modify. intros H'; inversion H'; subst. cbn. lia.
Qed.

Lemma run_line_status (a : answers) (line : string) (st st' : shell) :
  no_nul line = true →
  (WIFSTOPPED (child_exit a) = true → 0 <= child_exit a) →
  0 <= last_status st →
  run_line a line st = Ret tt st' → 0 <= last_status st'.
Proof.
  intros Hline Hchild Hst Hrun. unfold run_line in Hrun.
  apply bind_ret_inv in Hrun as (p & s1 & Hfront & Hrun).
  apply (execute_status a p s1 st' Hchild); [|exact Hrun].
  now rewrite (front_end_status _ _ _ _ Hline Hfront).
Qed.

Lemma expand_ps1_returns (st : shell) :
  ∃ v, expand "${PS1}" st = Ret (Some v) (set_base None (set_prev None st)).
Proof.
  eexists. apply expand_ret.
  change "${PS1}" with ("${" +:+ "PS1" +:+ "}" +:+ "").
  rewrite expand_named_parameter by (reflexivity || simpl; lia).
  rewrite expand_empty. reflexivity.
Qed.

Lemma prompt_returns (interactive : bool) (st : shell) :
  ∃ st', prompt interactive st = Ret tt st' ∧
         last_status st' = last_status st.
Proof.
  unfold prompt, set_errno, modify_os, modify. unfold bind at 1.
  destruct interactive.
  - destruct (expand_ps1_returns
                (set_os (os_set_errno 0 (os st)) st)) as [v Hv].
    rewrite (bind_ret _ _ _ _ _ Hv). eexists. split; reflexivity.
  - eexists. split; reflexivity.
Qed.

Lemma default_exit_status (st : shell) :
  0 <= last_status st →
  result_of (default_exit st) = Exit (last_status st).
Proof.
  intros Hst. unfold default_exit.
  rewrite (bind_ret _ _ _ _ _ (expand_ret _ _ _ (expand_status st Hst))).
  cbn. now rewrite atoi_fmt_d.
Qed.

Lemma main_loop_app (interactive : bool) (xs ys : list turn) :
  ∀ (st st' : shell),
  main_loop interactive xs st = Ret tt st' →
  main_loop interactive (xs ++ ys) st = main_loop interactive ys st'.
Proof.
  induction xs as [|t xs IH]; intros st st' Hrun.
  { cbn in Hrun. inv_ret Hrun. reflexivity. }
  cbn [main_loop app] in *.
  apply bind_ret_inv in Hrun as ([] & s1 & Hprompt & Hrun).
  rewrite (bind_ret _ _ _ _ _ Hprompt).
  destruct (t_input t) as [l| |].
  - apply bind_ret_inv in Hrun as ([] & s2 & Hline & Hrun).
    rewrite (bind_ret _ _ _ _ _ Hline). now apply IH.
  - unfold default_exit in Hrun.
    apply bind_ret_inv in Hrun as ([v|] & s2 & _ & Hrun); discriminate.
  - now apply IH.
Qed.

Lemma main_loop_status (interactive : bool) (turns : list turn) :
  ∀ (st st' : shell),
  Forall turn_ok turns → 0 <= last_status st →
  main_loop interactive turns st = Ret tt st' → 0 <= last_status st'.
Proof.
  induction turns as [|t turns IH]; intros st st' Hok Hst Hrun.
  { cbn in Hrun. inv_ret Hrun. exact Hst. }
  apply Forall_cons in Hok as [[Hchild Hline] Hok].
  cbn [main_loop] in Hrun.
  apply bind_ret_inv in Hrun as ([] & s1 & Hprompt & Hrun).
  destruct (prompt_returns interactive st) as (s1' & Hp & Hs1).
  rewrite Hp in Hprompt. inversion Hprompt; subst s1'.
  destruct (t_input t) as [l| |].
  - apply bind_ret_inv in Hrun as ([] & s2 & Hl & Hrun).
    apply (IH s2 st' Hok); [|exact Hrun].
    assert (Hs : 0 <= last_status s1) by lia.
    exact (run_line_status _ _ _ _ Hline Hchild Hs Hl).
  - unfold default_exit in Hrun.
    apply bind_ret_inv in Hrun as ([v|] & s2 & _ & Hrun); discriminate.
  - apply (IH s1 st' Hok); [lia | exact Hrun].
Qed.

(** The status with which the shell ends at the end of its input.
    [last_status] never goes negative, so [$?] expands to its decimal
    string and [atoi] reads it back: after turns that all came back to
    the prompt, the end of input ends the shell with the value of
    [last_status], and no later turn is run. *)
Theorem exit_status_at_end_of_input (interactive : bool)
    (turns rest : list turn) (a : answers) (st st' : shell) :
  Forall turn_ok turns → 0 <= last_status st →
  main_loop interactive turns st = Ret tt st' →
  0 <= last_status st' ∧
  result_of (main_loop interactive (turns ++ Turn Eof a :: rest) st) =
  Exit (last_status st').
Proof.
  intros Hok Hst Hrun.
  pose proof (main_loop_status _ _ _ _ Hok Hst Hrun) as Hst'.
  split; [exact Hst'|].
  rewrite (main_loop_app _ _ _ _ _ Hrun). cbn [main_loop t_input].
  destruct (prompt_returns interactive st') as (s1 & Hp & Hs1).
  rewrite (bind_ret _ _ _ _ _ Hp).
  rewrite default_exit_status, Hs1 by lia. reflexivity.
Qed.

Lemma exit_status_at_end_of_input_witness :
  ∃ st', main_loop false (take 2 sample_script) sample_shell = Ret tt st' ∧
         0 <= last_status st' ∧ last_status st' = 3 ∧
         result_of (main_loop false sample_script sample_shell) =
         Exit (last_status st').
Proof.
  destruct (main_loop false (take 2 sample_script) sample_shell)
    as [[] st'| | | |] eqn:Hrun; try (vm_compute in Hrun; discriminate).
  exists st'. split; [reflexivity|].
  destruct (exit_status_at_end_of_input false (take 2 sample_script) []
              sample_answers sample_shell st') as [Hnn Hexit].
  - cbn [take sample_script].
    apply Forall_cons. split; [split; [discriminate | reflexivity]|].
    apply Forall_cons. split; [split; [discriminate | reflexivity]|].
    constructor.
  - cbn. lia.
  - exact Hrun.
  - split; [exact Hnn|]. split; [|exact Hexit].
    vm_compute in Hrun. now inversion Hrun.
Defined.

(** ** param_scan and build_str as their callers may use them *)

(** [param_scan] called with NULL goes on behind the token the call
    before it found: it does what a call with the [end] of that token
    does. After a call that found no token, as on a word without
    parameter tokens, the static [prev] is NULL, and a call with NULL
    dereferences it. *)
Theorem param_scan_resumes (w : string) (st : shell) :
  (∀ k s e, result_of (param_scan (Some w) st) = Val (k, s, Some e) →
     (param_scan (Some w) ;;; param_scan None) st =
     (param_scan (Some w) ;;; param_scan (Some e)) st) ∧
  (∀ k s, result_of (param_scan (Some w) st) = Val (k, s, None) →
     (param_scan (Some w) ;;; param_scan None) st =
     Undefined NullPointer (set_prev None st)) ∧
  (token_free w = true →
   result_of (param_scan (Some w) st) = Val (NUL, None, None)).
Proof.
  rewrite (param_scan_spec w st). cbn [result_of].
  split; [|split].
  - intros k s e Hscan. inversion Hscan as [Hw].
    rewrite !(bind_ret _ _ _ _ _ (param_scan_spec w st)), Hw. reflexivity.
  - intros k s Hscan. inversion Hscan as [Hw].
    rewrite (bind_ret _ _ _ _ _ (param_scan_spec w st)), Hw. reflexivity.
  - intros Hfree. now rewrite (scan_ref_token_free _ Hfree).
Qed.

Lemma param_scan_resumes_witness :
  (param_scan (Some "a$$b$!c") ;;; param_scan None) sample_shell =
  (param_scan (Some "a$$b$!c") ;;; param_scan (Some "b$!c")) sample_shell ∧
  (param_scan (Some "plain") ;;; param_scan None) sample_shell =
  Undefined NullPointer (set_prev None sample_shell).
Proof.
  destruct (param_scan_resumes "a$$b$!c" sample_shell) as (Hfound & _ & _).
  destruct (param_scan_resumes "plain" sample_shell) as (_ & Hnone & _).
  split.
  - exact (Hfound "$"%char (Some "$$b$!c") "b$!c" eq_refl).
  - exact (Hnone NUL None eq_refl).
Defined.

Lemma append_call_spec (piece : string) (rest : option string) (st : shell) :
  append_call piece rest st =
  Ret (Some (default "" (base st) +:+ piece))
      (set_base (Some (default "" (base st) +:+ piece)) st).
Proof.
  destruct rest as [r|]; cbn [append_call].
  - rewrite build_str_span. cbv zeta.
    rewrite str_app_length, Nat.add_sub, str_take_app. reflexivity.
  - now rewrite build_str_whole.
Qed.

Lemma append_calls_spec (calls : list (string * option string)) :
  ∀ (st : shell),
  append_calls calls st =
  Ret tt (match calls with
          | [] => st
          | _ :: _ =>
              set_base (Some (default "" (base st) +:+ pieces calls)) st
          end).
Proof.
  induction calls as [|[piece rest] calls IH]; intros st; [reflexivity|].
  cbn [append_calls pieces].
  rewrite (bind_ret _ _ _ _ _ (append_call_spec piece rest st)), IH.
  destruct calls as [|c calls].
  - cbn [pieces]. now rewrite str_app_nil_r.
  - cbn [base set_base]. unfold default at 1. cbn [from_option id].
    now rewrite str_app_assoc.
Qed.

(** [build_str] as a string builder: between two calls with NULL, the
    calls that append build up the bytes handed over, whole strings and
    ranges alike, in order; the second call with NULL hands out the
    string and leaves [base] NULL, so that what one caller built is never
    seen by the next. Without a call that appends it hands out NULL. *)
Theorem build_str_collects (calls : list (string * option string))
    (st : shell) :
  (build_str None None ;;; append_calls calls ;;; build_str None None) st =
  Ret (match calls with
       | [] => None
       | _ :: _ => Some (pieces calls)
       end) (set_base None st).
Proof.
  rewrite (bind_ret _ _ _ _ _ (build_str_reset st)).
  rewrite (bind_ret _ _ _ _ _ (append_calls_spec calls _)).
  rewrite build_str_reset.
  destruct calls as [|c calls]; cbn [base set_base default]; [reflexivity|].
  now rewrite str_app_nil_l.
Qed.

(** ** A built-in from the text of its line *)

(** The line [cd WORD], for a word whose expansion is an argument that
    names a directory: [n_tokens] is 3, the test [n_tokens - 1 == 2]
    takes the branch with one argument, and the working directory becomes
    the directory the kernel resolves the expansion to; nothing is
    reported, no file changes and the status is not touched. *)
Theorem cd_line_changes_directory (line w dir d : string) (a : answers)
    (st : shell) :
  no_nul line = true →
  wordsplit_ref (MAX_WORDS st) line = Some ["cd"; w] →
  (2 < MAX_WORDS st)%nat →
  expansion st w = Some dir → argument_word dir = true →
  k_exists (os_kernel (os st)) (os_cwd (os st)) dir = true →
  k_chdir (os_kernel (os st)) (os_cwd (os st)) dir = Some d →
  ∃ st', run_line a line st = Ret tt st' ∧
         os_cwd (os st') = d ∧ os_log (os st') = os_log (os st) ∧
         os_files (os st') = os_files (os st) ∧
         last_status st' = last_status st.
Proof.
  intros Hline Href Hroom Hw Hdir Hexists Hchdir.
  destruct (front_end_arguments line ["cd"; w] ["cd"; dir] st Hline Href Hroom)
    as (p & s1 & Hfront & Hshape & Hn & _ & _ & _ & _ & Hst & _ & Hos & _).
  { constructor; [|constructor; [exact Hw | constructor]].
    unfold expansion. now rewrite expand_token_free. }
  { constructor; [reflexivity|]. constructor; [exact Hdir | constructor]. }
  unfold run_line. rewrite (bind_ret _ _ _ _ _ Hfront).
  assert (Htok0 : token p 0 = Some "cd")
    by (unfold token; rewrite Hshape; reflexivity).
  assert (Htok1 : token p 1 = Some dir)
    by (unfold token; rewrite Hshape; reflexivity).
  unfold execute. rewrite Htok0.
  cbn [String.eqb Ascii.eqb Bool.eqb]. cbv iota.
  unfold builtin_cd. rewrite Hn, Htok1.
  change (3 <=? Z.of_nat (length ["cd"; dir]) + 1 - 1) with false.
  change (Z.of_nat (length ["cd"; dir]) + 1 - 1 =? 2) with true.
  cbv iota.
  unfold access_F, chdir, bind, get, ret, modify_os, modify.
  rewrite Hos, Hexists. cbn [Z.eqb negb]. rewrite Hos, Hchdir.
  cbn [Z.eqb negb].
  eexists. split; [reflexivity|]. cbn [os set_os os_cwd os_set_cwd os_log
                                         os_files last_status].
  rewrite Hos. auto.
Qed.

Lemma cd_line_changes_directory_witness :
  ∃ st', run_line sample_answers "cd ${HOME}
" (set_os (os_set_cwd "/" sample_os) sample_shell) = Ret tt st' ∧
         os_cwd (os st') = "/home/u" ∧
         os_log (os st') = [] ∧
         os_files (os st') = os_files sample_os ∧
         last_status st' = 0.
Proof.
  apply (cd_line_changes_directory _ "${HOME}" "/home/u" "/home/u"
           sample_answers (set_os (os_set_cwd "/" sample_os) sample_shell)).
  - reflexivity.
  - reflexivity.
  - vm_compute. lia.
  - reflexivity.
  - reflexivity.
  - reflexivity.
  - reflexivity.
Defined.
